(** * DIGGS schema compatibility analyzer: content-model resolver and
      type-compatibility engine

    A shallow embedding of [version_compatibility/fixed_resolver.py] and of the
    class [DIGGSCompatibilityAnalyzer] of
    [version_compatibility/diggs_compatibility_analyzer.py], with the
    properties the specification states about them.

    Conventions of the embedding.
    - A Python [str] is a [string]; the schemas handled are ASCII, so
      [str.isdigit] is membership in '0'..'9'.  [int] is embedded where it
      returns: on a string of more than [PyStr.int_max_str_digits] digits
      Python raises [ValueError], and the properties that need the call to
      return say so ([PyStr.int_accepts]) or speak of the value returned.
    - An [xs:attribute] without [ref] is expected to carry a [name], as XML
      Schema requires; Python keys a declaration that has neither by [None],
      the embedding by the empty string.
    - A Python [dict] used as a registry (types, attributes, rename table,
      memoization cache) is a [gmap]; an [OrderedDict] is an association list
      with unique keys kept in insertion order.
    - A Python [set] of names is a duplicate-free list; the order in which a
      [for] loop visits a set is not fixed by the language and is the
      parameter [set_iter] of the analyzer section.
    - [xml.etree.ElementTree.Element] is the tree type [Element]. *)

From Stdlib Require Import ZArith String Ascii List.
From stdpp Require Import gmap strings list.
Import ListNotations.
Local Open Scope string_scope.
Local Open Scope list_scope.

(** ** Python string primitives *)

Module PyStr.

(** [s.replace(pat, '')] for a non-empty [pat]: the occurrences are removed
    from left to right without overlap.  [skip] counts the characters of a
    matched occurrence that are still to be dropped. *)
Fixpoint remove_from (pat : string) (skip : nat) (s : string) : string :=
  match s with
  | EmptyString => EmptyString
  | String c s' =>
      match skip with
      | S k => remove_from pat k s'
      | O => if String.prefix pat s
             then remove_from pat (Nat.pred (String.length pat)) s'
             else String c (remove_from pat 0 s')
      end
  end.

Definition remove (pat s : string) : string := remove_from pat 0 s.

Definition startswith (s p : string) : bool := String.prefix p s.

Definition truthy (s : string) : bool :=
  match s with EmptyString => false | _ => true end.

(** [c in s] for a single character. *)
Fixpoint contains (c : ascii) (s : string) : bool :=
  match s with
  | EmptyString => false
  | String d s' => Ascii.eqb c d || contains c s'
  end.

(** [s.split(sep)]: never empty. *)
Fixpoint split (sep : ascii) (s : string) : list string :=
  match s with
  | EmptyString => [EmptyString]
  | String c s' =>
      if Ascii.eqb c sep then EmptyString :: split sep s'
      else match split sep s' with
           | [] => [String c EmptyString]
           | p :: ps => String c p :: ps
           end
  end.

Definition first (l : list string) : string := hd EmptyString l.
Definition last (l : list string) : string := List.last l EmptyString.

(** [s.split(sep, 1)[1]], used only when [sep in s]. *)
Fixpoint after_first (sep : ascii) (s : string) : string :=
  match s with
  | EmptyString => EmptyString
  | String c s' => if Ascii.eqb c sep then s' else after_first sep s'
  end.

Definition is_digit (c : ascii) : bool :=
  let n := nat_of_ascii c in (48 <=? n)%nat && (n <=? 57)%nat.

Fixpoint all_digits (s : string) : bool :=
  match s with
  | EmptyString => true
  | String c s' => is_digit c && all_digits s'
  end.

Definition isdigit (s : string) : bool := truthy s && all_digits s.

Fixpoint int_from (acc : Z) (s : string) : Z :=
  match s with
  | EmptyString => acc
  | String c s' => int_from (10 * acc + (Z.of_nat (nat_of_ascii c) - 48)) s'
  end.

(** [int(s)] on a string of decimal digits. *)
Definition int (s : string) : Z := int_from 0 s.

(** The default of [sys.get_int_max_str_digits()]: [int] raises [ValueError]
    on a longer string of digits. *)
Definition int_max_str_digits : nat := 4300.

Fixpoint is_ascii (s : string) : bool :=
  match s with
  | EmptyString => true
  | String c s' => (nat_of_ascii c <? 128)%nat && is_ascii s'
  end.

(** The strings on which [int(s) if s.isdigit() else d] returns, with the
    value [isdigit] and [int] above give: ASCII strings that, when made of
    digits, have at most [int_max_str_digits] of them. *)
Definition int_accepts (s : string) : bool :=
  is_ascii s
  && (negb (isdigit s) || (String.length s <=? int_max_str_digits)%nat).

Fixpoint join (sep : string) (l : list string) : string :=
  match l with
  | [] => EmptyString
  | [x] => x
  | x :: rest => x +:+ sep +:+ join sep rest
  end.

Fixpoint insert_sorted (x : string) (l : list string) : list string :=
  match l with
  | [] => [x]
  | y :: l' => if String.leb x y then x :: l else y :: insert_sorted x l'
  end.

(** [sorted(l)] on strings: code-point lexicographic order. *)
Definition sorted (l : list string) : list string :=
  fold_right insert_sorted [] l.

(** [str.isspace] on ASCII: tab, line feed, vertical tab, form feed, carriage
    return, the separators 28..31 and the space. *)
Definition is_space (c : ascii) : bool :=
  let n := nat_of_ascii c in
  ((9 <=? n)%nat && (n <=? 13)%nat) || ((28 <=? n)%nat && (n <=? 32)%nat).

Fixpoint lstrip (s : string) : string :=
  match s with
  | EmptyString => EmptyString
  | String c s' => if is_space c then lstrip s' else s
  end.

Fixpoint rstrip (s : string) : string :=
  match s with
  | EmptyString => EmptyString
  | String c s' =>
      match rstrip s' with
      | EmptyString => if is_space c then EmptyString else String c EmptyString
      | r => String c r
      end
  end.

(** [s.strip()] *)
Definition strip (s : string) : string := rstrip (lstrip s).

Definition tab : ascii := ascii_of_nat 9.

End PyStr.

(** ** ElementTree elements *)

#[warnings="-register-all"]
Inductive Element : Type :=
  XML (tag : string) (attrib : list (string * string)) (text : string)
      (children : list Element) (tail : string).

Module ET.

Definition tag (e : Element) : string :=
  match e with XML t _ _ _ _ => t end.

Definition children (e : Element) : list Element :=
  match e with XML _ _ _ cs _ => cs end.

Fixpoint lookup_attr (key : string) (l : list (string * string)) : option string :=
  match l with
  | [] => None
  | (k, v) :: l' => if String.eqb k key then Some v else lookup_attr key l'
  end.

(** [e.get(key)] *)
Definition get (e : Element) (key : string) : option string :=
  match e with XML _ a _ _ _ => lookup_attr key a end.

(** [e.get(key, default)] *)
Definition get_or (e : Element) (key default : string) : string :=
  match get e key with Some v => v | None => default end.

(** All proper descendants in document order. *)
Fixpoint descendants (e : Element) : list Element :=
  match e with
  | XML _ _ _ cs _ => flat_map (fun c => c :: descendants c) cs
  end.

(** The tag a prefixed path step ["xs:local"] denotes under [namespaces]. *)
Definition qname (namespaces : list (string * string)) (pfx local : string) : string :=
  "{" +:+ match lookup_attr pfx namespaces with Some u => u | None => "" end
      +:+ "}" +:+ local.

Definition has_tag (t : string) (e : Element) : bool := String.eqb (tag e) t.

(** [e.findall('.//xs:local', namespaces)] *)
Definition findall_desc (e : Element) (ns : list (string * string)) (local : string)
  : list Element :=
  List.filter (has_tag (qname ns "xs" local)) (descendants e).

(** [e.findall('xs:local', namespaces)]: direct children only. *)
Definition findall_child (e : Element) (ns : list (string * string)) (local : string)
  : list Element :=
  List.filter (has_tag (qname ns "xs" local)) (children e).

(** [e.find('.//xs:local', namespaces)] *)
Definition find_desc (e : Element) (ns : list (string * string)) (local : string)
  : option Element :=
  match findall_desc e ns local with
  | [] => None
  | x :: _ => Some x
  end.

End ET.

(** ** OrderedDict: insertion-ordered mapping from names *)

Module OD.
Section OrderedDict.
Context {V : Type}.

(** [d[k] = v]: an existing key keeps its position, a new key goes last. *)
Fixpoint set (k : string) (v : V) (d : list (string * V)) : list (string * V) :=
  match d with
  | [] => [(k, v)]
  | (k', v') :: d' =>
      if String.eqb k' k then (k, v) :: d' else (k', v') :: set k v d'
  end.

(** [d.update(other)] *)
Definition update (d other : list (string * V)) : list (string * V) :=
  fold_left (fun acc kv => set (fst kv) (snd kv) acc) other d.

(** [d.get(k)] *)
Fixpoint get (k : string) (d : list (string * V)) : option V :=
  match d with
  | [] => None
  | (k', v) :: d' => if String.eqb k' k then Some v else get k d'
  end.

(** [list(d.keys())] *)
Definition keys (d : list (string * V)) : list string := map fst d.

End OrderedDict.
End OD.

(** ** fixed_resolver.py *)

Definition NS_26 : list (string * string) :=
  [("xs", "http://www.w3.org/2001/XMLSchema");
   ("diggs", "http://diggsml.org/schemas/2.6");
   ("gml", "http://www.opengis.net/gml/3.2");
   ("eml", "http://www.energistics.org/energyml/data/commonv2")].

Definition NS_3 : list (string * string) :=
  [("xs", "http://www.w3.org/2001/XMLSchema");
   ("diggs", "http://diggsml.org/schemas/3.0");
   ("gml", "http://www.opengis.net/gml/3.2");
   ("eml", "http://www.energistics.org/energyml/data/commonv2")].

(** The dictionaries built by [extract_elements_from_node]. *)
Record ElementDef : Type := mkElementDef {
  el_name : string;
  el_type : string;
  minOccurs : string;
  maxOccurs : string
}.

(** The dictionaries built by [resolve_attribute_ref] and
    [extract_local_attributes]. *)
Record AttributeDef : Type := mkAttributeDef {
  at_name : string;
  at_type : string;
  use : string
}.

Definition clean_type_name (name : string) : string :=
  if PyStr.truthy name then PyStr.remove "diggs:" name else "".

(** [get_all_attributes]: the unparsable schemas ([None]) are skipped; a later
    declaration of a name replaces an earlier one. *)
Definition get_all_attributes (schemas : list (option Element))
    (namespaces : list (string * string)) : gmap string Element :=
  fold_left
    (fun all_attrs schema =>
       match schema with
       | None => all_attrs
       | Some root =>
           fold_left
             (fun acc attr =>
                match ET.get attr "name" with
                | Some name => if PyStr.truthy name then <[name := attr]> acc else acc
                | None => acc
                end)
             (ET.findall_desc root namespaces "attribute") all_attrs
       end)
    schemas ∅.

(** The [base] of a derivation node, when it has a non-empty one. *)
Definition base_of (node : option Element) : option string :=
  match node with
  | Some n =>
      match ET.get n "base" with
      | Some base => if PyStr.truthy base then Some (clean_type_name base) else None
      | None => None
      end
  | None => None
  end.

Definition get_base_type_name (complex_type : Element)
    (namespaces : list (string * string)) : option string :=
  match base_of (ET.find_desc complex_type namespaces "extension") with
  | Some b => Some b
  | None => base_of (ET.find_desc complex_type namespaces "restriction")
  end.

(** [elem.get('name') or clean_type_name(elem.get('ref', ''))] and the three
    other entries of [elem_info]. *)
Definition elem_info (elem : Element) : ElementDef :=
  {| el_name := match ET.get elem "name" with
                | Some n => if PyStr.truthy n then n
                            else clean_type_name (ET.get_or elem "ref" "")
                | None => clean_type_name (ET.get_or elem "ref" "")
                end;
     el_type := clean_type_name (ET.get_or elem "type" "");
     minOccurs := ET.get_or elem "minOccurs" "1";
     maxOccurs := ET.get_or elem "maxOccurs" "1" |}.

(** The duplicate test and [append] of the two inner loops. *)
Definition add_unique (elements : list ElementDef) (info : ElementDef)
  : list ElementDef :=
  if existsb (fun e => String.eqb (el_name e) (el_name info)) elements
  then elements else elements ++ [info].

(** One of the two outer loops: every [kind] group below [node], and in each
    its direct [xs:element] children. *)
Definition extract_from_groups (kind : string) (node : Element)
    (namespaces : list (string * string)) (elements : list ElementDef)
  : list ElementDef :=
  fold_left
    (fun acc grp =>
       fold_left (fun acc' elem => add_unique acc' (elem_info elem))
                 (ET.findall_child grp namespaces "element") acc)
    (ET.findall_desc node namespaces kind) elements.

Definition extract_elements_from_node (node : Element)
    (namespaces : list (string * string)) : list ElementDef :=
  extract_from_groups "choice" node namespaces
    (extract_from_groups "sequence" node namespaces []).

Definition extract_local_elements (complex_type : Element)
    (namespaces : list (string * string)) : list ElementDef * bool :=
  let extension := ET.find_desc complex_type namespaces "extension" in
  let restriction := ET.find_desc complex_type namespaces "restriction" in
  match extension, restriction with
  | Some ext, _ => (extract_elements_from_node ext namespaces, true)
  | None, Some res => (extract_elements_from_node res namespaces, false)
  | None, None => (extract_elements_from_node complex_type namespaces, false)
  end.

Definition resolve_attribute_ref (attr_ref : string)
    (all_attrs : gmap string Element) (namespaces : list (string * string))
  : option AttributeDef :=
  let attr_name :=
    PyStr.remove "xml:" (PyStr.remove "diggs:" (PyStr.remove "gml:" attr_ref)) in
  match all_attrs !! attr_name with
  | Some attr_def =>
      Some {| at_name := attr_ref;
              at_type := clean_type_name (ET.get_or attr_def "type" "");
              use := "optional" |}
  | None => None
  end.

(** The body of the loop of [extract_local_attributes] for one [xs:attribute]
    node: the entry appended, if any.  An attribute with neither [ref] nor
    [name] is keyed by [None] in Python; here by the empty string. *)
Definition local_attribute (attr : Element) (all_attrs : gmap string Element)
    (namespaces : list (string * string)) : option AttributeDef :=
  match ET.get attr "ref" with
  | Some (String _ _ as ref) =>
      match resolve_attribute_ref (clean_type_name ref) all_attrs namespaces with
      | Some resolved_attr =>
          match ET.get attr "use" with
          | Some (String _ _ as use_override) =>
              Some {| at_name := at_name resolved_attr;
                      at_type := at_type resolved_attr;
                      use := use_override |}
          | _ => Some resolved_attr
          end
      | None => None
      end
  | _ =>
      Some {| at_name := ET.get_or attr "name" "";
              at_type := clean_type_name (ET.get_or attr "type" "");
              use := ET.get_or attr "use" "optional" |}
  end.

Definition extract_local_attributes (complex_type : Element)
    (all_attrs : gmap string Element) (namespaces : list (string * string))
  : list AttributeDef :=
  omap (fun attr => local_attribute attr all_attrs namespaces)
       (ET.findall_desc complex_type namespaces "attribute").

(** A resolved content model: the pair [(elements_dict, attributes_dict)]. *)
Definition ContentModel : Type :=
  (list (string * ElementDef) * list (string * AttributeDef))%type.

Definition empty_model : ContentModel := ([], []).

(** The two final loops of [resolve_content_model]. *)
Definition add_local_elements (local_elements : list ElementDef)
    (elements_dict : list (string * ElementDef)) : list (string * ElementDef) :=
  fold_left (fun d elem => OD.set (el_name elem) elem d) local_elements elements_dict.

Definition add_local_attributes (local_attributes : list AttributeDef)
    (attributes_dict : list (string * AttributeDef)) : list (string * AttributeDef) :=
  fold_left (fun d attr => OD.set (at_name attr) attr d) local_attributes attributes_dict.

(** How a complex type derives, as [resolve_content_model] tests it:
    [is_extension and base_type_name], else [base_type_name and not
    is_extension], else neither. *)
Inductive Derivation : Type :=
| Extends (base : string)
| Restricts (base : string)
| NoBase.

Definition derivation (complex_type : Element)
    (namespaces : list (string * string)) : Derivation :=
  match get_base_type_name complex_type namespaces with
  | Some (String _ _ as base) =>
      if snd (extract_local_elements complex_type namespaces)
      then Extends base else Restricts base
  | _ => NoBase
  end.

Section Resolver.
Variable all_types : gmap string Element.
Variable all_attrs : gmap string Element.
Variable namespaces : list (string * string).

(** [resolve_content_model], with the Python call stack made explicit: [fuel]
    bounds the nesting of recursive calls and [None] means it ran out.  The
    recursive calls receive [visited.copy()] after [visited.add(type_name)],
    and [depth + 1]. *)
Fixpoint resolve_rec (fuel : nat) (type_name : string) (visited : gset string)
    (depth : nat) : option ContentModel :=
  if (20 <? depth)%nat then Some empty_model
  else if bool_decide (type_name ∈ visited) then Some empty_model
  else
    let visited := {[type_name]} ∪ visited in
    if PyStr.startswith type_name "xs:" || negb (PyStr.truthy type_name)
    then Some empty_model
    else
      let lookup_name := PyStr.remove "diggs:" (PyStr.remove "gml:" type_name) in
      match all_types !! lookup_name with
      | None => Some empty_model
      | Some complex_type =>
          let local_elements := fst (extract_local_elements complex_type namespaces) in
          let local_attributes :=
            extract_local_attributes complex_type all_attrs namespaces in
          let inherited : option ContentModel :=
            match derivation complex_type namespaces with
            | Extends base_type_name =>
                match fuel with
                | O => None
                | S fuel' =>
                    match resolve_rec fuel' base_type_name visited (S depth) with
                    | Some (base_elements, base_attributes) =>
                        Some (OD.update [] base_elements, OD.update [] base_attributes)
                    | None => None
                    end
                end
            | Restricts base_type_name =>
                match fuel with
                | O => None
                | S fuel' =>
                    match resolve_rec fuel' base_type_name visited (S depth) with
                    | Some (_, base_attributes) =>
                        Some ([], OD.update [] base_attributes)
                    | None => None
                    end
                end
            | NoBase => Some empty_model
            end in
          match inherited with
          | Some (elements_dict, attributes_dict) =>
              Some (add_local_elements local_elements elements_dict,
                    add_local_attributes local_attributes attributes_dict)
          | None => None
          end
      end.

(** [resolve_content_model(type_name, all_types, all_attrs, namespaces,
    visited, depth)].  The fuel given is the number of levels left below the
    depth cap; [resolve_rec_total] shows it is always enough. *)
Definition resolve_content_model (type_name : string) (visited : gset string)
    (depth : nat) : ContentModel :=
  match resolve_rec (21 - depth) type_name visited depth with
  | Some cm => cm
  | None => empty_model
  end.

End Resolver.

(** ** diggs_compatibility_analyzer.py *)

(** A verdict [(is_compatible, reason)]. *)
Definition Verdict : Type := (bool * string)%type.

(** [self.type_compat_cache], keyed by [(old_type, new_type)]. *)
Abbreviation Cache := (gmap (string * string) (bool * string)).

(** The registries and the rename table held by the analyzer object. *)
Record Analyzer : Type := mkAnalyzer {
  type_mappings : gmap string string;
  old_types : gmap string Element;
  old_attrs : gmap string Element;
  old_simpletypes : gmap string Element;
  new_types : gmap string Element;
  new_attrs : gmap string Element;
  new_simpletypes : gmap string Element
}.

Definition normalize_type_name (type_name : string) : string :=
  if PyStr.truthy type_name then clean_type_name type_name else "".

Definition builtins : list string :=
  ["string"; "double"; "float"; "integer"; "int"; "long"; "short";
   "byte"; "boolean"; "decimal"; "date"; "dateTime"; "time";
   "anyURI"; "QName"; "anyType"; "anySimpleType"].

Definition is_builtin_type (type_name : string) : bool :=
  if negb (PyStr.truthy type_name) then false
  else if PyStr.startswith type_name "xs:" then true
  else
    let bare_name :=
      if PyStr.contains ":" type_name then PyStr.after_first ":" type_name
      else type_name in
    existsb (String.eqb bare_name) builtins.

(** [int(e['minOccurs']) if e['minOccurs'].isdigit() else 0], where the
    expression returns ([PyStr.int_accepts]). *)
Definition min_of (e : ElementDef) : Z :=
  if PyStr.isdigit (minOccurs e) then PyStr.int (minOccurs e) else 0%Z.

(** [999999 if e['maxOccurs'] == 'unbounded' else int(e['maxOccurs']) if
    e['maxOccurs'].isdigit() else 1], where the expression returns. *)
Definition max_of (e : ElementDef) : Z :=
  if String.eqb (maxOccurs e) "unbounded" then 999999%Z
  else if PyStr.isdigit (maxOccurs e) then PyStr.int (maxOccurs e) else 1%Z.

(** [min_new > min_old or max_new < max_old] *)
Definition cardinality_restricted (e_old e_new : ElementDef) : bool :=
  (min_of e_old <? min_of e_new)%Z || (max_of e_new <? max_of e_old)%Z.

(** [min_new < min_old or max_new > max_old] *)
Definition cardinality_expanded (e_old e_new : ElementDef) : bool :=
  (min_of e_new <? min_of e_old)%Z || (max_of e_old <? max_of e_new)%Z.

(** Set difference and intersection on duplicate-free lists of names. *)
Definition names_diff (a b : list string) : list string :=
  List.filter (fun n => negb (existsb (String.eqb n) b)) a.

Definition names_inter (a b : list string) : list string :=
  List.filter (fun n => existsb (String.eqb n) b) a.

Definition is_empty_list {A} (l : list A) : bool :=
  match l with [] => true | _ => false end.

Section Engine.
(** The order in which Python iterates over a set of names. *)
Variable set_iter : list string -> list string.
Variable self : Analyzer.

Definition known_mapping (old_normalized new_normalized : string) : bool :=
  match type_mappings self !! old_normalized with
  | Some target => String.eqb (normalize_type_name target) new_normalized
  | None => false
  end.

(** The loop over [common_elems] of [check_type_content_compatibility].
    [rec] is the recursive call; the result is [None] when [rec] ran out of
    fuel, otherwise the verdict returned from inside the loop, if any, and
    the cache. *)
Fixpoint common_elems_loop
    (rec : string -> string -> nat -> Cache -> option (Verdict * Cache))
    (cm_old_elements cm_new_elements : list (string * ElementDef))
    (depth : nat) (names : list string) (cache : Cache)
  : option (option Verdict * Cache) :=
  match names with
  | [] => Some (None, cache)
  | elem_name :: rest =>
      match OD.get elem_name cm_old_elements, OD.get elem_name cm_new_elements with
      | Some e_old, Some e_new =>
          if cardinality_restricted e_old e_new
          then Some (Some (false, "Cardinality restricted on element: " +:+ elem_name),
                     cache)
          else if negb (String.eqb (el_type e_old) (el_type e_new))
                  && PyStr.truthy (el_type e_new)
          then
            match rec (el_type e_old) (el_type e_new) (S depth) cache with
            | None => None
            | Some ((elem_type_compat, elem_reason), cache') =>
                if elem_type_compat
                then common_elems_loop rec cm_old_elements cm_new_elements
                                       depth rest cache'
                else Some (Some (false, "Incompatible type change on " +:+ elem_name
                                          +:+ ": " +:+ elem_reason), cache')
            end
          else common_elems_loop rec cm_old_elements cm_new_elements depth rest cache
      | _, _ =>
          (* not reached: the names are keys of both dictionaries *)
          common_elems_loop rec cm_old_elements cm_new_elements depth rest cache
      end
  end.

(** The structural comparison of two resolved content models, steps in the
    order of the source; each [Some v] is a [return] from the function. *)
Definition compare_models
    (rec : string -> string -> nat -> Cache -> option (Verdict * Cache))
    (cm_old cm_new : ContentModel) (depth : nat) (cache : Cache)
  : option (Verdict * Cache) :=
  let '(cm_old_elements, cm_old_attrs) := cm_old in
  let '(cm_new_elements, cm_new_attrs) := cm_new in
  let names_old := OD.keys cm_old_elements in
  let names_new := OD.keys cm_new_elements in
  let attr_names_old := OD.keys cm_old_attrs in
  let attr_names_new := OD.keys cm_new_attrs in
  let missing_elems := names_diff names_old names_new in
  if negb (is_empty_list missing_elems)
  then Some ((false, "Missing elements: "
                +:+ PyStr.join ", " (PyStr.sorted (take 3 (set_iter missing_elems)))),
             cache)
  else
  let missing_attrs := names_diff attr_names_old attr_names_new in
  if negb (is_empty_list missing_attrs)
  then Some ((false, "Missing attributes: "
                +:+ PyStr.join ", " (PyStr.sorted (take 3 (set_iter missing_attrs)))),
             cache)
  else
  let new_elems := names_diff names_new names_old in
  match List.find (fun elem_name =>
                match OD.get elem_name cm_new_elements with
                | Some e => negb (String.eqb (minOccurs e) "0")
                | None => false
                end) (set_iter new_elems) with
  | Some elem_name => Some ((false, "New required element: " +:+ elem_name), cache)
  | None =>
  let new_attrs := names_diff attr_names_new attr_names_old in
  match List.find (fun attr_name =>
                match OD.get attr_name cm_new_attrs with
                | Some a => String.eqb (use a) "required"
                | None => false
                end) (set_iter new_attrs) with
  | Some attr_name => Some ((false, "New required attribute: " +:+ attr_name), cache)
  | None =>
  let common_elems := names_inter names_old names_new in
  match common_elems_loop rec cm_old_elements cm_new_elements depth
                          (set_iter common_elems) cache with
  | None => None
  | Some (Some result, cache') => Some (result, cache')
  | Some (None, cache') =>
  let common_attrs := names_inter attr_names_old attr_names_new in
  match List.find (fun attr_name =>
                match OD.get attr_name cm_old_attrs, OD.get attr_name cm_new_attrs with
                | Some a_old, Some a_new =>
                    String.eqb (use a_old) "optional" && String.eqb (use a_new) "required"
                | _, _ => false
                end) (set_iter common_attrs) with
  | Some attr_name => Some ((false, "Attribute now required: " +:+ attr_name), cache')
  | None => Some ((true, "Content models compatible"), cache')
  end end end end.

(** The body of [check_type_content_compatibility] below the depth guard. *)
Definition check_body
    (rec : string -> string -> nat -> Cache -> option (Verdict * Cache))
    (old_type new_type : string) (depth : nat) (cache : Cache)
  : option (Verdict * Cache) :=
  let cache_key := (old_type, new_type) in
  match cache !! cache_key with
  | Some cached => Some (cached, cache)
  | None =>
      let old_normalized := normalize_type_name old_type in
      let new_normalized := normalize_type_name new_type in
      let store (r : Verdict * Cache) := (fst r, <[cache_key := fst r]> (snd r)) in
      if String.eqb old_normalized new_normalized
      then Some (store ((true, "Types identical"), cache))
      else if known_mapping old_normalized new_normalized
      then Some (store ((true, "Known mapping"), cache))
      else if is_builtin_type old_type || is_builtin_type new_type
      then Some (store
             (if String.eqb old_normalized new_normalized
              then (true, "Same built-in type")
              else (false, "Built-in type change: " +:+ old_normalized
                             +:+ " → " +:+ new_normalized), cache))
      else
        match old_types self !! old_normalized with
        | None => Some (store ((false, "Old type " +:+ old_normalized
                                         +:+ " not found in old schema"), cache))
        | Some _ =>
        match new_types self !! new_normalized with
        | None => Some (store ((false, "New type " +:+ new_normalized
                                         +:+ " not found in new schema"), cache))
        | Some _ =>
            (* the [try] around the two calls catches nothing: the resolver
               raises no exception *)
            let cm_old := resolve_content_model (old_types self) (old_attrs self)
                                                NS_26 old_normalized ∅ 0 in
            let cm_new := resolve_content_model (new_types self) (new_attrs self)
                                                NS_3 new_normalized ∅ 0 in
            option_map store (compare_models rec cm_old cm_new depth cache)
        end end
  end.

(** [check_type_content_compatibility] with the call stack explicit: the depth
    guard comes first; [None] means the fuel ran out. *)
Fixpoint check_rec (fuel : nat) (old_type new_type : string) (depth : nat)
    (cache : Cache) : option (Verdict * Cache) :=
  if (5 <? depth)%nat then Some ((true, "Max recursion depth reached"), cache)
  else
    match fuel with
    | O => None
    | S fuel' => check_body (check_rec fuel') old_type new_type depth cache
    end.

(** [self.check_type_content_compatibility(old_type, new_type, depth)]: the
    verdict and the cache afterwards.  [check_rec_total] shows that the fuel
    given is always enough. *)
Definition check_type_content_compatibility (old_type new_type : string)
    (depth : nat) (cache : Cache) : Verdict * Cache :=
  match check_rec (6 - depth) old_type new_type depth cache with
  | Some r => r
  | None => ((true, "Max recursion depth reached"), cache)
  end.

Definition is_type_change_compatible (old_type new_type : string)
    (cache : Cache) : Verdict * Cache :=
  if negb (PyStr.truthy old_type) || negb (PyStr.truthy new_type)
  then ((true, "Empty type"), cache)
  else
    let old_normalized := normalize_type_name old_type in
    let new_normalized := normalize_type_name new_type in
    if String.eqb old_normalized new_normalized
    then ((true, "Types identical"), cache)
    else if known_mapping old_normalized new_normalized
    then ((true, "Known mapping"), cache)
    else check_type_content_compatibility old_type new_type 0 cache.

End Engine.

(** *** Per-type comparison records *)

Inductive PyExc : Type :=
| ValueError (msg : string)
| AttributeError.

Inductive Outcome (T : Type) : Type :=
| Returns (v : T)
| Raises (e : PyExc).
Arguments Returns {T} v.
Arguments Raises {T} e.

(** The dictionary [result] of [compare_type]. *)
Record TypeResult : Type := mkTypeResult {
  name : string;
  type_removed : string;
  base_changed : string;
  structure_changes : string;
  new_elements : list string;
  missing_elements : list string;
  expanded_cardinality : list string;
  restricted_cardinality : list string;
  type_changes : list string;
  notes : string;
  compatible : string
}.

(** The dictionary [result] of [compare_simpletype]. *)
Record SimpleTypeResult : Type := mkSimpleTypeResult {
  st_name : string;
  st_type_removed : string;
  st_base_changed : string;
  restriction_changed : string;
  st_notes : string;
  st_compatible : string
}.

(** [result['notes'] += '; msg' if result['notes'] else 'msg'] *)
Definition add_note (current msg : string) : string :=
  if PyStr.truthy current then current +:+ "; " +:+ msg else msg.

(** Assignments to single keys of [result]. *)
Definition incompatible_because (msg : string) (r : TypeResult) : TypeResult :=
  mkTypeResult (name r) (type_removed r) (base_changed r) (structure_changes r)
    (new_elements r) (missing_elements r) (expanded_cardinality r)
    (restricted_cardinality r) (type_changes r) (add_note (notes r) msg) "No".

Definition push_new (item : string) (r : TypeResult) : TypeResult :=
  mkTypeResult (name r) (type_removed r) (base_changed r) (structure_changes r)
    (new_elements r ++ [item]) (missing_elements r) (expanded_cardinality r)
    (restricted_cardinality r) (type_changes r) (notes r) (compatible r).

Definition push_missing (item : string) (r : TypeResult) : TypeResult :=
  mkTypeResult (name r) (type_removed r) (base_changed r) (structure_changes r)
    (new_elements r) (missing_elements r ++ [item]) (expanded_cardinality r)
    (restricted_cardinality r) (type_changes r) (notes r) (compatible r).

Definition push_expanded (item : string) (r : TypeResult) : TypeResult :=
  mkTypeResult (name r) (type_removed r) (base_changed r) (structure_changes r)
    (new_elements r) (missing_elements r) (expanded_cardinality r ++ [item])
    (restricted_cardinality r) (type_changes r) (notes r) (compatible r).

Definition push_restricted (item : string) (r : TypeResult) : TypeResult :=
  mkTypeResult (name r) (type_removed r) (base_changed r) (structure_changes r)
    (new_elements r) (missing_elements r) (expanded_cardinality r)
    (restricted_cardinality r ++ [item]) (type_changes r) (notes r) (compatible r).

Definition push_type_change (item : string) (r : TypeResult) : TypeResult :=
  mkTypeResult (name r) (type_removed r) (base_changed r) (structure_changes r)
    (new_elements r) (missing_elements r) (expanded_cardinality r)
    (restricted_cardinality r) (type_changes r ++ [item]) (notes r) (compatible r).

Definition with_notes (n : string) (r : TypeResult) : TypeResult :=
  mkTypeResult (name r) (type_removed r) (base_changed r) (structure_changes r)
    (new_elements r) (missing_elements r) (expanded_cardinality r)
    (restricted_cardinality r) (type_changes r) n (compatible r).

Definition format_cardinality (min_occ max_occ : string) : string :=
  "(" +:+ min_occ +:+ ".." +:+ max_occ +:+ ")".

(** [mapped_name if mapped_name else qualified_name] *)
Definition target_name (qualified_name : string) (mapped_name : option string) : string :=
  match mapped_name with
  | Some (String _ _ as m) => m
  | _ => qualified_name
  end.

Definition opt_truthy (o : option string) : bool :=
  match o with Some s => PyStr.truthy s | None => false end.

Section Records.
Variable set_iter : list string -> list string.
(** [ET.tostring(e, encoding='unicode')] *)
Variable tostring : Element -> string.
Variable self : Analyzer.

(** One round of the loop over [sorted(common_elems)] of [compare_type]. *)
Definition compare_common_elem (cm_old_elements cm_new_elements : list (string * ElementDef))
    (acc : TypeResult * Cache) (elem_name : string) : TypeResult * Cache :=
  let '(result, cache) := acc in
  match OD.get elem_name cm_old_elements, OD.get elem_name cm_new_elements with
  | Some e_old, Some e_new =>
      let card := format_cardinality (minOccurs e_new) (maxOccurs e_new) in
      let result :=
        if cardinality_expanded e_old e_new
        then push_expanded (elem_name +:+ card) result
        else if cardinality_restricted e_old e_new
        then incompatible_because ("Cardinality restricted: " +:+ elem_name)
               (push_restricted (elem_name +:+ card) result)
        else result in
      if negb (String.eqb (el_type e_old) (el_type e_new)) && PyStr.truthy (el_type e_new)
      then
        let '((type_compatible, compat_reason), cache') :=
          is_type_change_compatible set_iter self (el_type e_old) (el_type e_new) cache in
        let type_note := elem_name +:+ ": " +:+ el_type e_old +:+ " → " +:+ el_type e_new in
        if type_compatible
        then (push_type_change (type_note +:+ " [OK]") result, cache')
        else (incompatible_because
                ("Incompatible type change: " +:+ elem_name +:+ " (" +:+ compat_reason +:+ ")")
                (push_type_change
                   (type_note +:+ " [INCOMPATIBLE: " +:+ compat_reason +:+ "]") result),
              cache')
      else (result, cache)
  | _, _ => (result, cache)
  end.

(** One round of the loop over [sorted(common_attrs)] of [compare_type]. *)
Definition compare_common_attr (cm_old_attrs cm_new_attrs : list (string * AttributeDef))
    (result : TypeResult) (attr_name : string) : TypeResult :=
  match OD.get attr_name cm_old_attrs, OD.get attr_name cm_new_attrs with
  | Some a_old, Some a_new =>
      if String.eqb (use a_old) "required" && String.eqb (use a_new) "optional"
      then push_expanded ("@" +:+ attr_name +:+ "(optional)") result
      else if String.eqb (use a_old) "optional" && String.eqb (use a_new) "required"
      then incompatible_because ("Attribute now required: " +:+ attr_name)
             (push_restricted ("@" +:+ attr_name +:+ "(required)") result)
      else result
  | _, _ => result
  end.

(** [self.compare_type(qualified_name, mapped_name)].  It raises
    [AttributeError] when the new type exists and [qualified_name] is not a key
    of [old_types] ([get_base_type_name(None, ...)]).  The [ValueError] of
    [int] and the [TypeError] of [sorted] on a name that is [None] are outside
    the embedding (see the conventions): what is proved of the comparison is
    proved of the record a call returns. *)
Definition compare_type (qualified_name : string) (mapped_name : option string)
    (cache : Cache) : Outcome (TypeResult * Cache) :=
  let ct_old := old_types self !! qualified_name in
  match new_types self !! target_name qualified_name mapped_name with
  | None =>
      Returns (mkTypeResult qualified_name "Yes" "" "" [] [] [] [] []
                            "Type not found in new version" "No", cache)
  | Some ct_new =>
  match ct_old with
  | None => Raises AttributeError
  | Some ct_old =>
      let result :=
        if opt_truthy mapped_name
        then mkTypeResult qualified_name
               ("Renamed to: " +:+ target_name qualified_name mapped_name) "" ""
               [] [] [] [] []
               ("Type renamed from " +:+ qualified_name +:+ " to "
                  +:+ target_name qualified_name mapped_name) "Yes"
        else mkTypeResult qualified_name "No" "" "" [] [] [] [] [] "" "Yes" in
      let base_old := get_base_type_name ct_old NS_26 in
      let base_new := get_base_type_name ct_new NS_3 in
      let base_changed_to :=
        if bool_decide (base_old = base_new) then EmptyString
        else match base_new with
             | Some (String _ _ as b) =>
                 b +:+ " (was: "
                   +:+ (if opt_truthy base_old then default "" base_old else "none")
                   +:+ ")"
             | _ => EmptyString
             end in
      let result :=
        mkTypeResult (name result) (type_removed result) base_changed_to
          (structure_changes result) [] [] [] [] [] (notes result) (compatible result) in
      let '(cm_old_elements, cm_old_attrs) :=
        resolve_content_model (old_types self) (old_attrs self) NS_26
                              qualified_name ∅ 0 in
      let '(cm_new_elements, cm_new_attrs) :=
        resolve_content_model (new_types self) (new_attrs self) NS_3
                              (target_name qualified_name mapped_name) ∅ 0 in
      let names_old := OD.keys cm_old_elements in
      let names_new := OD.keys cm_new_elements in
      let attr_names_old := OD.keys cm_old_attrs in
      let attr_names_new := OD.keys cm_new_attrs in
      (* new elements and attributes *)
      let result :=
        fold_left
          (fun r elem_name =>
             match OD.get elem_name cm_new_elements with
             | Some elem =>
                 let r := push_new
                   (elem_name +:+ format_cardinality (minOccurs elem) (maxOccurs elem)) r in
                 if negb (String.eqb (minOccurs elem) "0")
                 then incompatible_because ("New required element: " +:+ elem_name) r
                 else r
             | None => r
             end)
          (PyStr.sorted (names_diff names_new names_old)) result in
      let result :=
        fold_left
          (fun r attr_name =>
             match OD.get attr_name cm_new_attrs with
             | Some attr =>
                 let r := push_new ("@" +:+ attr_name +:+ "(" +:+ use attr +:+ ")") r in
                 if String.eqb (use attr) "required"
                 then incompatible_because ("New required attribute: " +:+ attr_name) r
                 else r
             | None => r
             end)
          (PyStr.sorted (names_diff attr_names_new attr_names_old)) result in
      (* missing elements and attributes *)
      let result :=
        fold_left
          (fun r elem_name =>
             incompatible_because ("Element removed: " +:+ elem_name)
               (push_missing elem_name r))
          (PyStr.sorted (names_diff names_old names_new)) result in
      let result :=
        fold_left
          (fun r attr_name =>
             incompatible_because ("Attribute removed: " +:+ attr_name)
               (push_missing ("@" +:+ attr_name) r))
          (PyStr.sorted (names_diff attr_names_old attr_names_new)) result in
      (* common elements, then common attributes *)
      let '(result, cache) :=
        fold_left (compare_common_elem cm_old_elements cm_new_elements)
                  (PyStr.sorted (names_inter names_old names_new)) (result, cache) in
      let result :=
        fold_left (compare_common_attr cm_old_attrs cm_new_attrs)
                  (PyStr.sorted (names_inter attr_names_old attr_names_new)) result in
      let result :=
        if String.eqb (compatible result) "Yes" && PyStr.truthy (base_changed result)
        then with_notes
               "Base type changed but content model compatible (architectural refactoring)"
               result
        else result in
      Returns (result, cache)
  end end.

(** [self.compare_simpletype(qualified_name, mapped_name)] *)
Definition compare_simpletype (qualified_name : string) (mapped_name : option string)
  : SimpleTypeResult :=
  let st_old := old_simpletypes self !! qualified_name in
  match new_simpletypes self !! target_name qualified_name mapped_name with
  | None =>
      mkSimpleTypeResult qualified_name "Yes" "" ""
                         "SimpleType not found in new version" "No"
  | Some st_new =>
      let removed :=
        if opt_truthy mapped_name
        then "Renamed to: " +:+ target_name qualified_name mapped_name else "No" in
      let notes0 :=
        if opt_truthy mapped_name
        then "SimpleType renamed from " +:+ qualified_name +:+ " to "
               +:+ target_name qualified_name mapped_name
        else EmptyString in
      let old_str := match st_old with Some e => tostring e | None => EmptyString end in
      let new_str := tostring st_new in
      if negb (String.eqb old_str new_str)
      then mkSimpleTypeResult qualified_name removed "" "Yes"
             (add_note notes0 "Restriction or base type changed") "Yes"
      else mkSimpleTypeResult qualified_name removed "" "" notes0 "Yes"
  end.

(** The rename lookup that [analyze] performs for every old name before it
    calls [compare_type] (with [registry = self.new_types]) or
    [compare_simpletype] (with [registry = self.new_simpletypes]). *)
Definition lookup_mapped_name (registry : gmap string Element)
    (qualified_name : string) : option string :=
  let mapped_name := type_mappings self !! qualified_name in
  if opt_truthy mapped_name then mapped_name
  else
    let bare_name := PyStr.last (PyStr.split ":" qualified_name) in
    let mapped_name := type_mappings self !! bare_name in
    match mapped_name with
    | Some (String _ _ as m) =>
        if negb (PyStr.contains ":" m)
        then
          let ns_prefix := PyStr.first (PyStr.split ":" qualified_name) in
          let potential_new := ns_prefix +:+ ":" +:+ m in
          match registry !! potential_new with
          | Some _ => Some potential_new
          | None => mapped_name
          end
        else mapped_name
    | _ => mapped_name
    end.

(** The first loop of [analyze]: one record per old complex type, in sorted
    order of the qualified names, threading the memoization cache. *)
Fixpoint analyze_types (names : list string) (cache : Cache)
  : Outcome (list TypeResult * Cache) :=
  match names with
  | [] => Returns ([], cache)
  | qualified_name :: rest =>
      match compare_type qualified_name
              (lookup_mapped_name (new_types self) qualified_name) cache with
      | Raises e => Raises e
      | Returns (result, cache') =>
          match analyze_types rest cache' with
          | Raises e => Raises e
          | Returns (results, cache'') => Returns (result :: results, cache'')
          end
      end
  end.

(** The second loop of [analyze]. *)
Definition analyze_simpletypes (names : list string) : list SimpleTypeResult :=
  map (fun qualified_name =>
         compare_simpletype qualified_name
           (lookup_mapped_name (new_simpletypes self) qualified_name))
      names.

End Records.

(** *** Loading the schemas of one version *)

(** A schema file as [load_schemas] sees it: the label
    [_extract_namespace_label] derives from its text and the root element
    [parse_schema] returns, [None] when the file does not parse. *)
Record SchemaFile : Type := mkSchemaFile {
  file_path : string;
  ns_label : string;
  parse_schema : option Element
}.

(** The registries of one version: [(schemas_with_ns, all_types, all_attrs,
    all_simpletypes)]. *)
Record Loaded : Type := mkLoaded {
  schemas_with_ns : list (Element * string);
  all_types : gmap string Element;
  all_attrs : gmap string Element;
  all_simpletypes : gmap string Element
}.

(** The named [kind] definitions of every parsed schema under their qualified
    names [ns_label:name]; a later definition replaces an earlier one. *)
Definition collect_qualified (kind : string) (schemas : list (Element * string))
    (namespace_dict : list (string * string)) : gmap string Element :=
  fold_left
    (fun acc (sn : Element * string) =>
       fold_left
         (fun acc' def =>
            match ET.get def "name" with
            | Some (String _ _ as name) => <[snd sn +:+ ":" +:+ name := def]> acc'
            | _ => acc'
            end)
         (ET.findall_desc (fst sn) namespace_dict kind) acc)
    schemas ∅.

(** [self.load_schemas(directory, namespace_dict)], given the files that
    [find_schema_files(directory)] found. *)
Definition load_schemas (directory : string) (schema_files : list SchemaFile)
    (namespace_dict : list (string * string)) : Outcome Loaded :=
  if is_empty_list schema_files
  then Raises (ValueError ("No .xsd files found in " +:+ directory))
  else
    let schemas_with_ns :=
      omap (fun xsd_file =>
              match parse_schema xsd_file with
              | Some schema => Some (schema, ns_label xsd_file)
              | None => None
              end) schema_files in
    let schemas_only := map (fun sn => Some (fst sn)) schemas_with_ns in
    Returns {| schemas_with_ns := schemas_with_ns;
               all_types := collect_qualified "complexType" schemas_with_ns namespace_dict;
               all_attrs := get_all_attributes schemas_only namespace_dict;
               all_simpletypes :=
                 collect_qualified "simpleType" schemas_with_ns namespace_dict |}.

(** *** The other collectors of fixed_resolver.py *)

(** The shape shared by [get_all_types], [get_all_attributes] and
    [get_all_simpletypes]: the named [kind] definitions of the parsed schemas
    under their bare names. *)
Definition collect_bare (kind : string) (schemas : list (option Element))
    (namespaces : list (string * string)) : gmap string Element :=
  fold_left
    (fun acc schema =>
       match schema with
       | None => acc
       | Some root =>
           fold_left
             (fun acc' def =>
                match ET.get def "name" with
                | Some name => if PyStr.truthy name then <[name := def]> acc' else acc'
                | None => acc'
                end)
             (ET.findall_desc root namespaces kind) acc
       end)
    schemas ∅.

Definition get_all_types (schemas : list (option Element))
    (namespaces : list (string * string)) : gmap string Element :=
  collect_bare "complexType" schemas namespaces.

Definition get_all_simpletypes (schemas : list (option Element))
    (namespaces : list (string * string)) : gmap string Element :=
  collect_bare "simpleType" schemas namespaces.

(** *** [content_models_match] *)

Section Matcher.
Variable set_iter : list string -> list string.

(** The two tests of the loop over [elem_names_1 & elem_names_2] for one
    name: the messages it appends. *)
Definition cardinality_differences (cm1_elements cm2_elements : list (string * ElementDef))
    (elem_name : string) : list string :=
  match OD.get elem_name cm1_elements, OD.get elem_name cm2_elements with
  | Some e1, Some e2 =>
      (if (min_of e1 <? min_of e2)%Z
       then [elem_name +:+ ": minOccurs increased"] else [])
      ++ (if (max_of e2 <? max_of e1)%Z
          then [elem_name +:+ ": maxOccurs decreased"] else [])
  | _, _ => []
  end.

(** The test of the loop over [attr_names_1 & attr_names_2] for one name. *)
Definition use_differences (cm1_attrs cm2_attrs : list (string * AttributeDef))
    (attr_name : string) : list string :=
  match OD.get attr_name cm1_attrs, OD.get attr_name cm2_attrs with
  | Some a1, Some a2 =>
      if String.eqb (use a1) "optional" && String.eqb (use a2) "required"
      then ["@" +:+ attr_name +:+ ": changed to required"] else []
  | _, _ => []
  end.

(** [content_models_match(cm1_elements, cm1_attrs, cm2_elements, cm2_attrs,
    strict)]: the pair [(len(differences) == 0, differences)]. *)
Definition content_models_match
    (cm1_elements : list (string * ElementDef)) (cm1_attrs : list (string * AttributeDef))
    (cm2_elements : list (string * ElementDef)) (cm2_attrs : list (string * AttributeDef))
    (strict : bool) : bool * list string :=
  let elem_names_1 := OD.keys cm1_elements in
  let elem_names_2 := OD.keys cm2_elements in
  let removed_elems := names_diff elem_names_1 elem_names_2 in
  let added_elems := names_diff elem_names_2 elem_names_1 in
  let differences :=
    (if negb (is_empty_list removed_elems)
     then ["Elements removed: "
             +:+ PyStr.join ", " (take 5 (PyStr.sorted (set_iter removed_elems)))]
     else [])
    ++ (if strict && negb (is_empty_list added_elems)
        then ["Elements added: "
                +:+ PyStr.join ", " (take 5 (PyStr.sorted (set_iter added_elems)))]
        else [])
    ++ flat_map (cardinality_differences cm1_elements cm2_elements)
                (set_iter (names_inter elem_names_1 elem_names_2)) in
  let attr_names_1 := OD.keys cm1_attrs in
  let attr_names_2 := OD.keys cm2_attrs in
  let removed_attrs := names_diff attr_names_1 attr_names_2 in
  let added_attrs := names_diff attr_names_2 attr_names_1 in
  let differences :=
    differences
    ++ (if negb (is_empty_list removed_attrs)
        then ["Attributes removed: "
                +:+ PyStr.join ", " (take 5 (PyStr.sorted (set_iter removed_attrs)))]
        else [])
    ++ (if strict && negb (is_empty_list added_attrs)
        then ["Attributes added: "
                +:+ PyStr.join ", " (take 5 (PyStr.sorted (set_iter added_attrs)))]
        else [])
    ++ flat_map (use_differences cm1_attrs cm2_attrs)
                (set_iter (names_inter attr_names_1 attr_names_2)) in
  (is_empty_list differences, differences).

End Matcher.

(** *** [load_mappings] *)

(** The body of the loop of [load_mappings] for one line of the file. *)
Definition mapping_line (mappings : gmap string string) (line : string)
  : gmap string string :=
  let line := PyStr.strip line in
  if negb (PyStr.truthy line) || PyStr.startswith line "#" then mappings
  else
    match PyStr.split PyStr.tab line with
    | p0 :: p1 :: _ =>
        let old_type := PyStr.strip p0 in
        let new_type := PyStr.strip p1 in
        if PyStr.truthy old_type && PyStr.truthy new_type
        then <[old_type := new_type]> mappings else mappings
    | _ => mappings (* a warning is printed *)
    end.

(** [self.load_mappings()], given the lines of the mapping file; [None] when
    there is no mapping file, it does not exist or reading it raises. *)
Definition load_mappings (file : option (list string)) : gmap string string :=
  match file with
  | None => ∅
  | Some lines => fold_left mapping_line lines ∅
  end.

(** ** Vocabulary of the properties *)

(** The guards that make [resolve_content_model] return an empty model before
    it looks the type up. *)
Definition stops_early (type_name : string) (visited : gset string) (depth : nat) : bool :=
  (20 <? depth)%nat || bool_decide (type_name ∈ visited)
  || PyStr.startswith type_name "xs:" || negb (PyStr.truthy type_name).

(** The key under which [resolve_content_model] looks a type up. *)
Definition lookup_name (type_name : string) : string :=
  PyStr.remove "diggs:" (PyStr.remove "gml:" type_name).

(** [for x in l: d[key(x)] = x], the shape of the two final loops of the
    resolver. *)
Definition overlay {V : Type} (key : V -> string) (l : list V)
    (d : list (string * V)) : list (string * V) :=
  fold_left (fun acc x => OD.set (key x) x acc) l d.

(** The entry named [n] that such a loop leaves in the dictionary: the last
    one of the list. *)
Definition last_named {V : Type} (key : V -> string) (n : string) (l : list V)
  : option V :=
  List.find (fun x => String.eqb (key x) n) (rev l).

(** The names of [l] that are not in [seen], each once, in order of first
    occurrence: the keys such a loop appends. *)
Fixpoint fresh_names (seen : list string) (l : list string) : list string :=
  match l with
  | [] => []
  | n :: l' =>
      if existsb (String.eqb n) seen then fresh_names seen l'
      else n :: fresh_names (seen ++ [n]) l'
  end.

(** A memoization cache is sound for identical names when every verdict it
    holds for a pair of names with the same normal form is the one the
    identity rule gives. *)
Definition cache_ok (cache : Cache) : Prop :=
  ∀ (old_type new_type : string) (v : Verdict),
    cache !! (old_type, new_type) = Some v →
    normalize_type_name old_type = normalize_type_name new_type →
    v = (true, "Types identical").

(** A (recursive) call keeps the cache sound. *)
Definition preserves_cache_ok
    (rec : string -> string -> nat -> Cache -> option (Verdict * Cache)) : Prop :=
  ∀ o n d c r c', cache_ok c → rec o n d c = Some (r, c') → cache_ok c'.

(** The cardinality comparison in the words of the specification: bounds are
    numbers and the token ["unbounded"] is +∞, here [None]. *)
Definition spec_bound (token : string) : option Z :=
  if String.eqb token "unbounded" then None else Some (PyStr.int token).

Definition spec_bound_lt (a b : option Z) : bool :=
  match a, b with
  | Some x, Some y => (x <? y)%Z
  | Some _, None => true
  | None, _ => false
  end.

(** New [minOccurs] greater than old, or new [maxOccurs] less than old. *)
Definition spec_cardinality_restricted (e_old e_new : ElementDef) : bool :=
  (PyStr.int (minOccurs e_old) <? PyStr.int (minOccurs e_new))%Z
  || spec_bound_lt (spec_bound (maxOccurs e_new)) (spec_bound (maxOccurs e_old)).

(** A cardinality the schema language accepts: [minOccurs] is a decimal
    number, [maxOccurs] a decimal number or ["unbounded"]. *)
Definition well_formed_cardinality (e : ElementDef) : bool :=
  PyStr.isdigit (minOccurs e)
  && (String.eqb (maxOccurs e) "unbounded" || PyStr.isdigit (maxOccurs e)).

(** A cardinality whose upper bound stays below the number the code uses for
    ["unbounded"]. *)
Definition below_sentinel (e : ElementDef) : bool :=
  String.eqb (maxOccurs e) "unbounded" || (PyStr.int (maxOccurs e) <? 999999)%Z.

(** ** Example schemas *)

Module Ex.

Definition xsd (local : string) : string :=
  "{http://www.w3.org/2001/XMLSchema}" +:+ local.

Definition node (local : string) (attrs : list (string * string))
    (cs : list Element) : Element :=
  XML (xsd local) attrs "" cs "".

(** [<xs:element name=n type=t minOccurs=lo maxOccurs=hi/>] *)
Definition element (n t lo hi : string) : Element :=
  node "element" [("name", n); ("type", t); ("minOccurs", lo); ("maxOccurs", hi)] [].

Definition a_0_1 : ElementDef := mkElementDef "a" "xs:string" "0" "1".
Definition a_1_1 : ElementDef := mkElementDef "a" "xs:string" "1" "1".
Definition b_1_1 : ElementDef := mkElementDef "b" "xs:string" "1" "1".
Definition c_0_1 : ElementDef := mkElementDef "c" "xs:string" "0" "1".
Definition at_x : AttributeDef := mkAttributeDef "x" "xs:string" "optional".

(** [Base = {elements: {a: 0..1, c: 0..1}, attributes: {@x}}] *)
Definition Base : Element :=
  node "complexType" [("name", "Base")]
    [node "sequence" []
       [element "a" "xs:string" "0" "1"; element "c" "xs:string" "0" "1"];
     node "attribute" [("name", "x"); ("type", "xs:string")] []].

(** [Restricted] restricts [Base] and declares only [a: 0..1]. *)
Definition Restricted : Element :=
  node "complexType" [("name", "Restricted")]
    [node "complexContent" []
       [node "restriction" [("base", "Base")]
          [node "sequence" [] [element "a" "xs:string" "0" "1"]]]].

(** [Derived] extends [Base] and adds [b: 1..1]. *)
Definition Derived : Element :=
  node "complexType" [("name", "Derived")]
    [node "complexContent" []
       [node "extension" [("base", "Base")]
          [node "sequence" [] [element "b" "xs:string" "1" "1"]]]].

(** [Override] extends [Base], declares [b: 1..1] and declares [a] again, as
    [1..1]. *)
Definition Override : Element :=
  node "complexType" [("name", "Override")]
    [node "complexContent" []
       [node "extension" [("base", "Base")]
          [node "sequence" []
             [element "b" "xs:string" "1" "1"; element "a" "xs:string" "1" "1"]]]].

(** [Loop] extends itself. *)
Definition Loop : Element :=
  node "complexType" [("name", "Loop")]
    [node "complexContent" []
       [node "extension" [("base", "Loop")]
          [node "sequence" [] [element "b" "xs:string" "1" "1"]]]].

(** [Ping] extends [Pong], which extends [Ping]. *)
Definition Ping : Element :=
  node "complexType" [("name", "Ping")]
    [node "complexContent" []
       [node "extension" [("base", "Pong")]
          [node "sequence" [] [element "a" "xs:string" "0" "1"]]]].

Definition Pong : Element :=
  node "complexType" [("name", "Pong")]
    [node "complexContent" []
       [node "extension" [("base", "Ping")]
          [node "sequence" [] [element "b" "xs:string" "1" "1"]]]].

Definition registry : gmap string Element :=
  list_to_map [("Base", Base); ("Restricted", Restricted); ("Derived", Derived);
               ("Override", Override); ("Loop", Loop); ("Ping", Ping); ("Pong", Pong)].

(** A declaration of attribute [id] that carries [use="required"], a complex
    type that refers to it without a [use] of its own, and the schema that
    holds both. *)
Definition declared_id : Element :=
  node "attribute" [("name", "id"); ("type", "xs:ID"); ("use", "required")] [].

Definition ref_id : Element := node "attribute" [("ref", "id")] [].

Definition Holder : Element := node "complexType" [("name", "Holder")] [ref_id].

Definition attr_schema : Element := node "schema" [] [declared_id; Holder].

(** A serializer standing for [ET.tostring] in the examples: tags, attributes,
    text, children and tail, written without escaping or prefix mapping. *)
Fixpoint serialize (e : Element) : string :=
  match e with
  | XML t attrs txt cs tl =>
      "<" +:+ t
        +:+ fold_right (fun kv acc => " " +:+ fst kv +:+ "=" +:+ snd kv +:+ acc) "" attrs
        +:+ ">" +:+ txt
        +:+ (fix all (l : list Element) : string :=
               match l with
               | [] => ""
               | c :: l' => serialize c +:+ all l'
               end) cs
        +:+ "</" +:+ t +:+ ">" +:+ tl
  end.

(** A simple type restricting [xs:string], and one of the same name
    restricting [xs:int]. *)
Definition Code_string : Element :=
  node "simpleType" [("name", "Code")] [node "restriction" [("base", "xs:string")] []].

Definition Code_int : Element :=
  node "simpleType" [("name", "Code")] [node "restriction" [("base", "xs:int")] []].

Definition simple_analyzer : Analyzer :=
  mkAnalyzer ∅ ∅ ∅ {["diggs:Code" := Code_string]} ∅ ∅ {["diggs:Code" := Code_int]}.

(** A complex type with the single element [a] of the given cardinality. *)
Definition single (type_name lo hi : string) : Element :=
  node "complexType" [("name", type_name)]
    [node "sequence" [] [element "a" "xs:string" lo hi]].

(** Old [eml:T] has [a: 1..unbounded], new [eml:T] (and [eml:U]) has
    [a: 0..1]; old [eml:V] has [a: 1..1000000], new [eml:V] (and [eml:W]) has
    [a: 1..unbounded]. *)
Definition card_analyzer : Analyzer :=
  mkAnalyzer ∅
    (list_to_map [("eml:T", single "T" "1" "unbounded");
                  ("eml:V", single "V" "1" "1000000")]) ∅ ∅
    (list_to_map [("eml:T", single "T" "0" "1"); ("eml:U", single "U" "0" "1");
                  ("eml:V", single "V" "1" "unbounded");
                  ("eml:W", single "W" "1" "unbounded")]) ∅ ∅.

(** The rename table maps the bare name [A] to the bare name [B]; the new
    version still has [eml:A] and has no [eml:B]. *)
Definition rename_analyzer : Analyzer :=
  mkAnalyzer {["A" := "B"]}
    {["eml:A" := single "A" "1" "1"]} ∅ ∅
    {["eml:A" := single "A" "1" "1"]} ∅ ∅.

(** The same, where the new version has [eml:B]. *)
Definition renamed_analyzer : Analyzer :=
  mkAnalyzer {["A" := "B"]}
    {["eml:A" := single "A" "1" "1"]} ∅ ∅
    {["eml:B" := single "B" "1" "1"]} ∅ ∅.

(** [Quantity = {elements: {a: 0..1}, attributes: {@x}}], where [a] is of
    type [xs:anyType]. *)
Definition Quantity : Element :=
  node "complexType" [("name", "Quantity")]
    [node "sequence" [] [element "a" "xs:anyType" "0" "1"];
     node "attribute" [("name", "x"); ("type", "xs:string")] []].

(** The restriction node of [Measured]: it declares only [a: 0..1], and gives
    [a] an anonymous type, a string with the attribute [uom]. *)
Definition Measured_restriction : Element :=
  node "restriction" [("base", "Quantity")]
    [node "sequence" []
       [node "element" [("name", "a"); ("minOccurs", "0"); ("maxOccurs", "1")]
          [node "complexType" []
             [node "simpleContent" []
                [node "extension" [("base", "xs:string")]
                   [node "attribute" [("name", "uom"); ("type", "xs:string")] []]]]]]].

(** [Measured] restricts [Quantity]. *)
Definition Measured : Element :=
  node "complexType" [("name", "Measured")]
    [node "complexContent" [] [Measured_restriction]].

Definition quantities : gmap string Element :=
  list_to_map [("Quantity", Quantity); ("Measured", Measured)].

End Ex.

(** ** Vocabulary of the further properties *)

(** The entry a named definition contributes to a registry keyed by
    qualified names. *)
Definition qualified_entry (label : string) (def : Element) : option (string * Element) :=
  match ET.get def "name" with
  | Some (String _ _ as name) => Some (label +:+ ":" +:+ name, def)
  | _ => None
  end.

(** The entries of all [kind] definitions of the parsed schemas, in the order
    [load_schemas] meets them. *)
Definition qualified_entries (kind : string) (schemas : list (Element * string))
    (namespace_dict : list (string * string)) : list (string * Element) :=
  flat_map (fun sn : Element * string =>
              omap (qualified_entry (snd sn))
                   (ET.findall_desc (fst sn) namespace_dict kind))
           schemas.

(** The same for the registries keyed by bare names. *)
Definition bare_entry (def : Element) : option (string * Element) :=
  match ET.get def "name" with
  | Some (String _ _ as name) => Some (name, def)
  | _ => None
  end.

Definition bare_entries (kind : string) (schemas : list (option Element))
    (namespaces : list (string * string)) : list (string * Element) :=
  flat_map (fun schema : option Element =>
              match schema with
              | Some root => omap bare_entry (ET.findall_desc root namespaces kind)
              | None => []
              end)
           schemas.

(** [for (k, v) in l: m[k] = v] *)
Definition insert_all (l : list (string * Element)) (m : gmap string Element)
  : gmap string Element :=
  fold_left (fun acc kv => <[fst kv := snd kv]> acc) l m.

(** Every key of the registry is a qualified name. *)
Definition qualified_keys (m : gmap string Element) : Prop :=
  ∀ k : string, is_Some (m !! k) → PyStr.contains ":" k = true.

(** Every entry of a resolved dictionary is stored under its own name. *)
Definition keyed_by {V : Type} (key : V -> string) (d : list (string * V)) : Prop :=
  ∀ (k : string) (v : V), In (k, v) d → key v = k.

(** A call of the engine only adds to the cache. *)
Definition grows_cache
    (rec : string -> string -> nat -> Cache -> option (Verdict * Cache)) : Prop :=
  ∀ o n d c r c', rec o n d c = Some (r, c') → c ⊆ c'.

(** Whatever [rec1] answers, [rec2] answers the same. *)
Definition answers_as
    (rec1 rec2 : string -> string -> nat -> Cache -> option (Verdict * Cache)) : Prop :=
  ∀ o n d c r, rec1 o n d c = Some r → rec2 o n d c = Some r.

(** What [load_schemas] keeps of a file: the parsed root with the label. *)
Definition parsed_with_label (xsd_file : SchemaFile) : option (Element * string) :=
  match parse_schema xsd_file with
  | Some schema => Some (schema, ns_label xsd_file)
  | None => None
  end.

(** The stages of [compare_type] for a type found in both versions: the
    record before the loops, the bodies of the first four loops, the six loops
    in their order, and the final note. *)
Definition start_result (qualified_name : string) (mapped_name : option string)
    (ct_old ct_new : Element) : TypeResult :=
  let result :=
    if opt_truthy mapped_name
    then mkTypeResult qualified_name
           ("Renamed to: " +:+ target_name qualified_name mapped_name) "" ""
           [] [] [] [] []
           ("Type renamed from " +:+ qualified_name +:+ " to "
              +:+ target_name qualified_name mapped_name) "Yes"
    else mkTypeResult qualified_name "No" "" "" [] [] [] [] [] "" "Yes" in
  let base_old := get_base_type_name ct_old NS_26 in
  let base_new := get_base_type_name ct_new NS_3 in
  let base_changed_to :=
    if bool_decide (base_old = base_new) then EmptyString
    else match base_new with
         | Some (String _ _ as b) =>
             b +:+ " (was: "
               +:+ (if opt_truthy base_old then default "" base_old else "none")
               +:+ ")"
         | _ => EmptyString
         end in
  mkTypeResult (name result) (type_removed result) base_changed_to
    (structure_changes result) [] [] [] [] [] (notes result) (compatible result).

Definition new_elem_step (cm_new_elements : list (string * ElementDef))
    (r : TypeResult) (elem_name : string) : TypeResult :=
  match OD.get elem_name cm_new_elements with
  | Some elem =>
      let r := push_new
        (elem_name +:+ format_cardinality (minOccurs elem) (maxOccurs elem)) r in
      if negb (String.eqb (minOccurs elem) "0")
      then incompatible_because ("New required element: " +:+ elem_name) r
      else r
  | None => r
  end.

Definition new_attr_step (cm_new_attrs : list (string * AttributeDef))
    (r : TypeResult) (attr_name : string) : TypeResult :=
  match OD.get attr_name cm_new_attrs with
  | Some attr =>
      let r := push_new ("@" +:+ attr_name +:+ "(" +:+ use attr +:+ ")") r in
      if String.eqb (use attr) "required"
      then incompatible_because ("New required attribute: " +:+ attr_name) r
      else r
  | None => r
  end.

Definition missing_elem_step (r : TypeResult) (elem_name : string) : TypeResult :=
  incompatible_because ("Element removed: " +:+ elem_name) (push_missing elem_name r).

Definition missing_attr_step (r : TypeResult) (attr_name : string) : TypeResult :=
  incompatible_because ("Attribute removed: " +:+ attr_name)
    (push_missing ("@" +:+ attr_name) r).

Definition final_note (result : TypeResult) : TypeResult :=
  if String.eqb (compatible result) "Yes" && PyStr.truthy (base_changed result)
  then with_notes
         "Base type changed but content model compatible (architectural refactoring)"
         result
  else result.

Definition compare_members (set_iter : list string -> list string) (self : Analyzer)
    (cm_old cm_new : ContentModel) (start : TypeResult) (cache : Cache)
  : TypeResult * Cache :=
  let names_old := OD.keys (fst cm_old) in
  let names_new := OD.keys (fst cm_new) in
  let attr_names_old := OD.keys (snd cm_old) in
  let attr_names_new := OD.keys (snd cm_new) in
  let r1 := fold_left (new_elem_step (fst cm_new))
                      (PyStr.sorted (names_diff names_new names_old)) start in
  let r2 := fold_left (new_attr_step (snd cm_new))
                      (PyStr.sorted (names_diff attr_names_new attr_names_old)) r1 in
  let r3 := fold_left missing_elem_step
                      (PyStr.sorted (names_diff names_old names_new)) r2 in
  let r4 := fold_left missing_attr_step
                      (PyStr.sorted (names_diff attr_names_old attr_names_new)) r3 in
  let rc5 := fold_left (compare_common_elem set_iter self (fst cm_old) (fst cm_new))
                       (PyStr.sorted (names_inter names_old names_new)) (r4, cache) in
  let r6 := fold_left (compare_common_attr (snd cm_old) (snd cm_new))
                      (PyStr.sorted (names_inter attr_names_old attr_names_new))
                      (fst rc5) in
  (final_note r6, snd rc5).

(** A property of the record that none of the assignments of [compare_type]
    undoes. *)
Definition kept_by_assignments (P : TypeResult -> Prop) : Prop :=
  (∀ msg r, P r → P (incompatible_because msg r))
  ∧ (∀ item r, P r → P (push_new item r))
  ∧ (∀ item r, P r → P (push_missing item r))
  ∧ (∀ item r, P r → P (push_expanded item r))
  ∧ (∀ item r, P r → P (push_restricted item r))
  ∧ (∀ item r, P r → P (push_type_change item r))
  ∧ (∀ n r, P r → P (with_notes n r)).

(** ** Further example schemas *)

Module Fx.

(** Two documents of the same namespace label that both define [Thing]. *)
Definition thing_v1 : Element := Ex.single "Thing" "1" "1".
Definition thing_v2 : Element := Ex.single "Thing" "0" "unbounded".
Definition other : Element := Ex.single "Other" "1" "1".

Definition doc1 : Element := Ex.node "schema" [] [thing_v1; other; Ex.declared_id].
Definition doc2 : Element := Ex.node "schema" [] [thing_v2].

Definition file1 : SchemaFile := mkSchemaFile "Kernel.xsd" "diggs" (Some doc1).
Definition file2 : SchemaFile := mkSchemaFile "Core.xsd" "diggs" (Some doc2).
Definition broken : SchemaFile := mkSchemaFile "Broken.xsd" "diggs" None.

(** An old and a new version whose type [diggs:Thing] differs in every
    member. *)
Definition old_thing : Element :=
  Ex.node "complexType" [("name", "Thing")]
    [Ex.node "sequence" []
       [Ex.element "a" "xs:string" "1" "1"; Ex.element "b" "xs:string" "1" "1"];
     Ex.node "attribute" [("name", "x"); ("type", "xs:string")] []].

Definition new_thing : Element :=
  Ex.node "complexType" [("name", "Thing")]
    [Ex.node "sequence" [] [Ex.element "z" "xs:int" "1" "1"]].

Definition diggs_analyzer : Analyzer :=
  mkAnalyzer ∅ {["diggs:Thing" := old_thing]} ∅ ∅ {["diggs:Thing" := new_thing]} ∅ ∅.

(** The same two definitions under the label [eml], which the resolver does
    not strip. *)
Definition eml_analyzer : Analyzer :=
  mkAnalyzer ∅ {["eml:Thing" := old_thing]} ∅ ∅ {["eml:Thing" := new_thing]} ∅ ∅.

(** A version compared with itself. *)
Definition same_analyzer : Analyzer :=
  mkAnalyzer ∅ {["eml:Thing" := old_thing]} ∅ ∅ {["eml:Thing" := old_thing]} ∅ ∅.

End Fx.

(** A string without white space at its front (or empty). *)
Definition starts_clean (s : string) : bool :=
  match s with
  | EmptyString => true
  | String c _ => negb (PyStr.is_space c)
  end.



(** Both cardinalities of the entry are strings on which the conversions of
    the comparison loops return. *)
Definition occurs_accepted (e : ElementDef) : bool :=
  PyStr.int_accepts (minOccurs e) && PyStr.int_accepts (maxOccurs e).

(** The lines of a mapping file: a comment, a blank line, a rename, a line
    without a tab, a rename with spaces around the names and a third field, a
    rename whose old name is empty, and a second rename of [A]. *)
Module Fm.

Definition tabbed (a b : string) : string := a +:+ String PyStr.tab b.

Definition lines : list string :=
  ["# renamed types";
   "   ";
   tabbed "A" "B";
   "no tab here";
   tabbed " C " (tabbed " D " "ignored");
   tabbed "" "E";
   tabbed "A" "eml:B2"].

End Fm.

(** * Properties *)

(** ** Ordered dictionaries *)

Section OrderedDictFacts.
Context {V : Type}.
Implicit Types (d : list (string * V)) (k : string) (v : V).

Lemma od_get_set_eq d k v : OD.get k (OD.set k v d) = Some v.
Proof.
  induction d as [|[k' v'] d IH]; simpl.
  - by rewrite String.eqb_refl.
  - destruct (String.eqb k' k) eqn:E; simpl.
    + by rewrite String.eqb_refl.
    + by rewrite E.
Qed.

Lemma od_get_set_ne d k k' v : k ≠ k' → OD.get k' (OD.set k v d) = OD.get k' d.
Proof.
  intros Hne. induction d as [|[k0 v0] d IH]; simpl.
  - destruct (String.eqb k k') eqn:E; [apply String.eqb_eq in E; done | done].
  - destruct (String.eqb k0 k) eqn:E; simpl.
    + apply String.eqb_eq in E; subst k0.
      destruct (String.eqb k k') eqn:E'; [apply String.eqb_eq in E'; done | done].
    + destruct (String.eqb k0 k'); [done | apply IH].
Qed.

Lemma od_get_None_keys d k : OD.get k d = None ↔ k ∉ OD.keys d.
Proof.
  induction d as [|[k' v'] d IH]; simpl.
  - split; [intros _; apply not_elem_of_nil | done].
  - destruct (String.eqb k' k) eqn:E.
    + apply String.eqb_eq in E; subst. split; [done | intros H; destruct H; left].
    + apply String.eqb_neq in E. rewrite IH. unfold OD.keys; simpl.
      rewrite not_elem_of_cons. split; [intros ?; split; [congruence | done] | by intros [_ ?]].
Qed.

Lemma od_keys_set_in d k v : k ∈ OD.keys d → OD.keys (OD.set k v d) = OD.keys d.
Proof.
  induction d as [|[k' v'] d IH]; simpl; intros Hin.
  - by apply elem_of_nil in Hin.
  - destruct (String.eqb k' k) eqn:E; simpl.
    + apply String.eqb_eq in E. by subst.
    + apply String.eqb_neq in E. f_equal. apply IH.
      unfold OD.keys in Hin; simpl in Hin. apply elem_of_cons in Hin as [->|]; done.
Qed.

Lemma od_keys_set_notin d k v : k ∉ OD.keys d → OD.keys (OD.set k v d) = OD.keys d ++ [k].
Proof.
  induction d as [|[k' v'] d IH]; simpl; intros Hin; [done|].
  unfold OD.keys in Hin; simpl in Hin. apply not_elem_of_cons in Hin as [Hne Hin].
  destruct (String.eqb k' k) eqn:E; simpl.
  - apply String.eqb_eq in E. by subst.
  - f_equal. by apply IH.
Qed.

Lemma od_keys_set_NoDup d k v : NoDup (OD.keys d) → NoDup (OD.keys (OD.set k v d)).
Proof.
  intros Hnd. destruct (decide (k ∈ OD.keys d)) as [Hin|Hin].
  - by rewrite od_keys_set_in.
  - rewrite od_keys_set_notin by done. apply NoDup_app. split_and!; [done| |apply NoDup_singleton].
    intros x Hx Hx'. apply list_elem_of_singleton in Hx'. by subst.
Qed.

(** Copying a dictionary with unique keys into an empty one gives it back. *)
Lemma od_update_app d1 d2 :
  NoDup (OD.keys (d1 ++ d2)) → OD.update d1 d2 = d1 ++ d2.
Proof.
  revert d1. induction d2 as [|[k v] d2 IH]; intros d1 Hnd; simpl.
  - by rewrite app_nil_r.
  - unfold OD.update in *; simpl.
    assert (Hset : OD.set k v d1 = d1 ++ [(k, v)]).
    { unfold OD.keys in Hnd. rewrite map_app in Hnd; simpl in Hnd.
      apply NoDup_app in Hnd as (_ & Hdisj & _).
      assert (Hk : k ∉ map fst d1) by (intros Hin; apply (Hdisj k Hin); left).
      clear -Hk. induction d1 as [|[k' v'] d1 IHd]; simpl; [done|].
      simpl in Hk. apply not_elem_of_cons in Hk as [Hne Hk].
      destruct (String.eqb k' k) eqn:E; [apply String.eqb_eq in E; by subst|].
      f_equal. by apply IHd. }
    rewrite Hset. rewrite IH; by rewrite <- app_assoc.
Qed.

Lemma od_update_empty d : NoDup (OD.keys d) → OD.update [] d = d.
Proof. intros Hnd. by rewrite od_update_app. Qed.

End OrderedDictFacts.

(** ** Content-model resolution *)

Section ResolverFacts.
Variable all_types : gmap string Element.
Variable all_attrs : gmap string Element.
Variable namespaces : list (string * string).

Local Abbreviation res_rec := (resolve_rec all_types all_attrs namespaces).
Local Abbreviation res :=
  (resolve_content_model all_types all_attrs namespaces).

Lemma resolve_rec_stops (fuel : nat) (type_name : string) (visited : gset string) (depth : nat) :
  stops_early type_name visited depth = true →
  res_rec fuel type_name visited depth = Some empty_model.
Proof.
  unfold stops_early. intros H.
  destruct fuel; simpl;
    destruct (20 <? depth)%nat; try done;
    destruct (bool_decide (type_name ∈ visited)); try done;
    simpl in H; by rewrite H.
Qed.

Lemma resolve_rec_not_found (fuel : nat) (type_name : string) (visited : gset string) (depth : nat) :
  all_types !! lookup_name type_name = None →
  res_rec fuel type_name visited depth = Some empty_model.
Proof.
  unfold lookup_name. intros H.
  destruct fuel; simpl;
    destruct (20 <? depth)%nat; try done;
    destruct (bool_decide (type_name ∈ visited)); try done;
    destruct (_ || _); try done; by rewrite H.
Qed.

(** What one call does once the type is found: the inherited part comes from
    one recursive call, one level deeper, with the type added to [visited]. *)
Lemma resolve_rec_found (fuel : nat) (type_name : string) (visited : gset string) (depth : nat)
    (complex_type : Element) :
  stops_early type_name visited depth = false →
  all_types !! lookup_name type_name = Some complex_type →
  res_rec (S fuel) type_name visited depth =
    match
      match derivation complex_type namespaces with
      | Extends base =>
          match res_rec fuel base ({[type_name]} ∪ visited) (S depth) with
          | Some (be, ba) => Some (OD.update [] be, OD.update [] ba)
          | None => None
          end
      | Restricts base =>
          match res_rec fuel base ({[type_name]} ∪ visited) (S depth) with
          | Some (_, ba) => Some ([], OD.update [] ba)
          | None => None
          end
      | NoBase => Some empty_model
      end
    with
    | Some (elements_dict, attributes_dict) =>
        Some (add_local_elements (fst (extract_local_elements complex_type namespaces))
                                 elements_dict,
              add_local_attributes
                (extract_local_attributes complex_type all_attrs namespaces)
                attributes_dict)
    | None => None
    end.
Proof.
  unfold stops_early, lookup_name. intros Hgo Hfound.
  apply orb_false_elim in Hgo as [Hgo H4].
  apply orb_false_elim in Hgo as [Hgo H3].
  apply orb_false_elim in Hgo as [H1 H2].
  simpl. rewrite H1, H2. simpl. rewrite H3, H4. simpl. by rewrite Hfound.
Qed.

(** With as much fuel as there are levels below the cap, a call returns. *)
Lemma resolve_rec_total (fuel : nat) (type_name : string) (visited : gset string) (depth : nat) :
  (21 <= fuel + depth)%nat → is_Some (res_rec fuel type_name visited depth).
Proof.
  revert type_name visited depth.
  induction fuel as [|fuel IH]; intros type_name visited depth Hfuel.
  - rewrite resolve_rec_stops; [done|].
    unfold stops_early. replace (20 <? depth)%nat with true; [done|].
    symmetry. apply Nat.ltb_lt. lia.
  - destruct (stops_early type_name visited depth) eqn:Hstop.
    { by rewrite resolve_rec_stops. }
    destruct (all_types !! lookup_name type_name)
      as [complex_type|] eqn:Hfound.
    2: { by rewrite resolve_rec_not_found. }
    rewrite (resolve_rec_found _ _ _ _ complex_type) by done.
    destruct (derivation complex_type namespaces) as [base|base|]; [| |done].
    + destruct (IH base ({[type_name]} ∪ visited) (S depth)) as [[be ba] ->]; [lia|done].
    + destruct (IH base ({[type_name]} ∪ visited) (S depth)) as [[be ba] ->]; [lia|done].
Qed.

(** More fuel never changes a result. *)
Lemma resolve_rec_more_fuel (fuel fuel' : nat) (type_name : string) (visited : gset string)
    (depth : nat) (cm : ContentModel) :
  res_rec fuel type_name visited depth = Some cm →
  (fuel <= fuel')%nat →
  res_rec fuel' type_name visited depth = Some cm.
Proof.
  revert fuel' type_name visited depth cm.
  induction fuel as [|fuel IH]; intros fuel' type_name visited depth cm Hres Hle.
  - destruct (stops_early type_name visited depth) eqn:Hstop.
    { rewrite resolve_rec_stops in Hres by done. by rewrite resolve_rec_stops. }
    destruct (all_types !! lookup_name type_name)
      as [complex_type|] eqn:Hfound.
    2: { rewrite resolve_rec_not_found in Hres by done. by rewrite resolve_rec_not_found. }
    destruct fuel' as [|fuel']; [done|].
    rewrite (resolve_rec_found _ _ _ _ complex_type) by done.
    revert Hres. unfold stops_early in Hstop.
    apply orb_false_elim in Hstop as [Hgo H4].
    apply orb_false_elim in Hgo as [Hgo H3].
    apply orb_false_elim in Hgo as [H1 H2].
    unfold lookup_name in Hfound.
    simpl. rewrite H1, H2. simpl. rewrite H3, H4. simpl. rewrite Hfound.
    by destruct (derivation complex_type namespaces).
  - destruct (stops_early type_name visited depth) eqn:Hstop.
    { rewrite resolve_rec_stops in Hres by done. by rewrite resolve_rec_stops. }
    destruct (all_types !! lookup_name type_name)
      as [complex_type|] eqn:Hfound.
    2: { rewrite resolve_rec_not_found in Hres by done. by rewrite resolve_rec_not_found. }
    destruct fuel' as [|fuel']; [lia|].
    rewrite (resolve_rec_found _ _ _ _ complex_type) in Hres by done.
    rewrite (resolve_rec_found _ _ _ _ complex_type) by done.
    destruct (derivation complex_type namespaces) as [base|base|]; [| |done].
    + destruct (res_rec fuel base _ _) as [[be ba]|] eqn:Hbase; [|done].
      by rewrite (IH fuel' _ _ _ _ Hbase) by lia.
    + destruct (res_rec fuel base _ _) as [[be ba]|] eqn:Hbase; [|done].
      by rewrite (IH fuel' _ _ _ _ Hbase) by lia.
Qed.

(** [resolve_content_model] is the result of [resolve_rec] for any sufficient
    fuel. *)
Lemma resolve_content_model_rec (fuel : nat) (type_name : string) (visited : gset string)
    (depth : nat) :
  (21 <= fuel + depth)%nat →
  res_rec fuel type_name visited depth =
    Some (res type_name visited depth).
Proof.
  intros Hfuel. unfold resolve_content_model.
  destruct (resolve_rec_total (21 - depth) type_name visited depth) as [cm Hcm]; [lia|].
  rewrite Hcm. apply (resolve_rec_more_fuel (21 - depth)); [done | lia].
Qed.

End ResolverFacts.

(** ** The overlay loops *)

Section OverlayFacts.
Context {V : Type} (key : V -> string).
Implicit Types (l : list V) (d : list (string * V)) (n : string).

Lemma overlay_snoc l x d :
  overlay key (l ++ [x]) d = OD.set (key x) x (overlay key l d).
Proof. unfold overlay. by rewrite fold_left_app. Qed.

Lemma overlay_NoDup l d : NoDup (OD.keys d) → NoDup (OD.keys (overlay key l d)).
Proof.
  intros Hd. induction l as [|x l IH] using rev_ind; [done|].
  rewrite overlay_snoc. by apply od_keys_set_NoDup.
Qed.

(** A name declared in [l] reads as its last declaration; any other name
    reads as before. *)
Lemma overlay_get l d n :
  OD.get n (overlay key l d) =
    match last_named key n l with
    | Some x => Some x
    | None => OD.get n d
    end.
Proof.
  unfold last_named. induction l as [|x l IH] using rev_ind; [done|].
  rewrite overlay_snoc, rev_app_distr. simpl.
  destruct (String.eqb (key x) n) eqn:E.
  - apply String.eqb_eq in E. subst n. apply od_get_set_eq.
  - apply String.eqb_neq in E. by rewrite od_get_set_ne.
Qed.

Lemma existsb_eqb_elem_of n (seen : list string) :
  existsb (String.eqb n) seen = true ↔ n ∈ seen.
Proof.
  rewrite existsb_exists. split.
  - intros (y & Hin & Heq). apply String.eqb_eq in Heq. subst y.
    by apply list_elem_of_In.
  - intros Hin. exists n. split; [by apply list_elem_of_In | apply String.eqb_refl].
Qed.

(** The keys already present keep their places; the new names follow, in
    order of first declaration. *)
Lemma overlay_keys l d :
  OD.keys (overlay key l d) = OD.keys d ++ fresh_names (OD.keys d) (map key l).
Proof.
  revert d. induction l as [|x l IH]; intros d; simpl.
  - by rewrite app_nil_r.
  - unfold overlay in *; simpl. rewrite IH.
    destruct (existsb (String.eqb (key x)) (OD.keys d)) eqn:E.
    + apply existsb_eqb_elem_of in E. by rewrite od_keys_set_in.
    + assert (key x ∉ OD.keys d) as Hnotin.
      { intros Hin. apply existsb_eqb_elem_of in Hin. congruence. }
      rewrite od_keys_set_notin by done. by rewrite <- app_assoc.
Qed.

(** Over an empty dictionary, declarations with distinct names are kept as
    they are. *)
Lemma overlay_fresh l d :
  NoDup (OD.keys d ++ map key l) →
  overlay key l d = d ++ map (fun x => (key x, x)) l.
Proof.
  revert d. induction l as [|x l IH]; intros d Hnd; simpl.
  - by rewrite app_nil_r.
  - unfold overlay in *; simpl.
    assert (Hset : OD.set (key x) x d = d ++ [(key x, x)]).
    { apply NoDup_app in Hnd as (_ & Hdisj & _).
      assert (Hk : key x ∉ OD.keys d) by (intros Hin; apply (Hdisj _ Hin); left).
      clear -Hk. induction d as [|[k' v'] d IHd]; simpl; [done|].
      unfold OD.keys in Hk; simpl in Hk. apply not_elem_of_cons in Hk as [Hne Hk].
      destruct (String.eqb k' (key x)) eqn:E; [apply String.eqb_eq in E; by subst|].
      f_equal. by apply IHd. }
    rewrite Hset, IH.
    + by rewrite <- app_assoc.
    + unfold OD.keys. rewrite map_app. simpl. by rewrite <- app_assoc.
Qed.

End OverlayFacts.

Lemma od_update_NoDup {V : Type} (d other : list (string * V)) :
  NoDup (OD.keys d) → NoDup (OD.keys (OD.update d other)).
Proof.
  revert d. unfold OD.update.
  induction other as [|[k v] other IH]; intros d Hd; simpl; [done|].
  apply IH. by apply od_keys_set_NoDup.
Qed.

(** ** Local declarations *)

Lemma add_unique_NoDup (elements : list ElementDef) (info : ElementDef) :
  NoDup (map el_name elements) → NoDup (map el_name (add_unique elements info)).
Proof.
  intros Hnd. unfold add_unique.
  destruct (existsb _ elements) eqn:E; [done|].
  rewrite map_app. simpl. apply NoDup_app. split_and!; [done| |apply NoDup_singleton].
  intros n Hn Hn'. apply list_elem_of_singleton in Hn'. subst n.
  apply list_elem_of_In, in_map_iff in Hn as (e & Hname & Hin).
  assert (existsb (fun e => String.eqb (el_name e) (el_name info)) elements = true);
    [|congruence].
  apply existsb_exists. exists e. split; [done | by apply String.eqb_eq].
Qed.

Lemma extract_from_groups_NoDup (kind : string) (node : Element)
    (namespaces : list (string * string)) (elements : list ElementDef) :
  NoDup (map el_name elements) →
  NoDup (map el_name (extract_from_groups kind node namespaces elements)).
Proof.
  unfold extract_from_groups. revert elements.
  induction (ET.findall_desc node namespaces kind) as [|grp grps IH];
    intros elements Hnd; simpl; [done|].
  apply IH. revert elements Hnd.
  induction (ET.findall_child grp namespaces "element") as [|elem elems IHe];
    intros elements Hnd; simpl; [done|].
  apply IHe. by apply add_unique_NoDup.
Qed.

(** The list of local elements is free of duplicate names: the first
    declaration of a name wins. *)
Lemma extract_local_elements_NoDup (complex_type : Element)
    (namespaces : list (string * string)) :
  NoDup (map el_name (fst (extract_local_elements complex_type namespaces))).
Proof.
  unfold extract_local_elements, extract_elements_from_node.
  destruct (ET.find_desc complex_type namespaces "extension");
    [|destruct (ET.find_desc complex_type namespaces "restriction")]; simpl;
    do 2 apply extract_from_groups_NoDup; apply NoDup_nil_2.
Qed.

Section ResolverResults.
Variable all_types : gmap string Element.
Variable all_attrs : gmap string Element.
Variable namespaces : list (string * string).

(** Both dictionaries of a resolved content model have unique keys. *)
Lemma resolve_content_model_NoDup (type_name : string) (visited : gset string)
    (depth : nat) :
  let cm := resolve_content_model all_types all_attrs namespaces type_name visited depth in
  NoDup (OD.keys (fst cm)) ∧ NoDup (OD.keys (snd cm)).
Proof.
  pose proof (resolve_content_model_rec all_types all_attrs namespaces
                (S (21 - depth)) type_name visited depth) as Hrec.
  simpl. destruct (resolve_content_model _ _ _ type_name visited depth) as [es ats].
  assert (Hempty : NoDup (OD.keys (@nil (string * ElementDef)))
                   ∧ NoDup (OD.keys (@nil (string * AttributeDef))))
    by (split; apply NoDup_nil_2).
  destruct (stops_early type_name visited depth) eqn:Hstop.
  { rewrite resolve_rec_stops in Hrec by done.
    specialize (Hrec ltac:(lia)). by injection Hrec as <- <-. }
  destruct (all_types !! lookup_name type_name) as [complex_type|] eqn:Hfound.
  2: { rewrite resolve_rec_not_found in Hrec by done.
       specialize (Hrec ltac:(lia)). by injection Hrec as <- <-. }
  rewrite (resolve_rec_found _ _ _ _ _ _ _ complex_type) in Hrec by done.
  specialize (Hrec ltac:(lia)).
  destruct (derivation complex_type namespaces) as [base|base|];
    [destruct (resolve_rec _ _ _ _ base _ _) as [[be ba]|]; [|done]
    |destruct (resolve_rec _ _ _ _ base _ _) as [[be ba]|]; [|done] | ];
    injection Hrec as <- <-; simpl; split;
    apply (overlay_NoDup el_name) || apply (overlay_NoDup at_name);
    try apply od_update_NoDup; apply NoDup_nil_2.
Qed.

End ResolverResults.

(** ** Termination, restriction and extension *)

(** C8. Content-model resolution terminates on every registry, cyclic or not:
    with the fuel [21 - depth] that the depth cap of 20 leaves (or more) the
    call returns a content model, the one [resolve_content_model] denotes;
    a depth above the cap, or a type name already in [visited], returns the
    empty model without any recursive call (no fuel is needed). *)
Theorem resolve_content_model_terminates
    (all_types all_attrs : gmap string Element) (namespaces : list (string * string))
    (type_name : string) (visited : gset string) (depth : nat) :
  (∃ cm : ContentModel,
      ∀ extra : nat,
        resolve_rec all_types all_attrs namespaces (21 - depth + extra)
                    type_name visited depth = Some cm
        ∧ resolve_content_model all_types all_attrs namespaces
                                type_name visited depth = cm)
  ∧ (∀ over : nat,
        resolve_rec all_types all_attrs namespaces 0 type_name visited (21 + over)
        = Some empty_model)
  ∧ resolve_rec all_types all_attrs namespaces 0 type_name
                ({[type_name]} ∪ visited) depth = Some empty_model.
Proof.
  split_and!.
  - exists (resolve_content_model all_types all_attrs namespaces type_name visited depth).
    intros extra. split; [|done]. apply resolve_content_model_rec. lia.
  - intros over. apply resolve_rec_stops. unfold stops_early.
    replace (20 <? 21 + over)%nat with true; [done|].
    symmetry. apply Nat.ltb_lt. lia.
  - apply resolve_rec_stops. unfold stops_early.
    rewrite (bool_decide_eq_true_2 (type_name ∈ {[type_name]} ∪ visited)) by set_solver.
    by rewrite orb_true_r.
Qed.

(** A type that extends itself, and two types that extend each other. *)
Example resolve_cyclic :
  resolve_content_model Ex.registry ∅ NS_26 "Loop" ∅ 0 = ([("b", Ex.b_1_1)], [])
  ∧ resolve_content_model Ex.registry ∅ NS_26 "Ping" ∅ 0
    = ([("b", Ex.b_1_1); ("a", Ex.a_0_1)], []).
Proof. by vm_compute. Qed.

Section Derivations.
Variable all_types : gmap string Element.
Variable all_attrs : gmap string Element.
Variable namespaces : list (string * string).

Local Abbreviation resolve := (resolve_content_model all_types all_attrs namespaces).

(** The result for a type that is looked up and found, in terms of the result
    for its base. *)
Lemma resolve_content_model_found (type_name : string) (visited : gset string)
    (depth : nat) (complex_type : Element) :
  stops_early type_name visited depth = false →
  all_types !! lookup_name type_name = Some complex_type →
  resolve type_name visited depth =
    let base_model (base : string) := resolve base ({[type_name]} ∪ visited) (S depth) in
    let inherited : ContentModel :=
      match derivation complex_type namespaces with
      | Extends base => base_model base
      | Restricts base => ([], snd (base_model base))
      | NoBase => empty_model
      end in
    (add_local_elements (fst (extract_local_elements complex_type namespaces))
                        (fst inherited),
     add_local_attributes (extract_local_attributes complex_type all_attrs namespaces)
                          (snd inherited)).
Proof.
  intros Hgo Hfound.
  assert (Hdepth : (depth <= 20)%nat).
  { unfold stops_early in Hgo. destruct (20 <? depth)%nat eqn:E; [done|].
    apply Nat.ltb_ge in E. lia. }
  pose proof (resolve_content_model_rec all_types all_attrs namespaces
                (S (20 - depth)) type_name visited depth ltac:(lia)) as Hrec.
  rewrite (resolve_rec_found _ _ _ _ _ _ _ complex_type) in Hrec by done.
  assert (Hbase : ∀ base,
    resolve_rec all_types all_attrs namespaces (20 - depth) base
      ({[type_name]} ∪ visited) (S depth)
    = Some (resolve base ({[type_name]} ∪ visited) (S depth))).
  { intros base. apply resolve_content_model_rec. lia. }
  simpl.
  destruct (derivation complex_type namespaces) as [base|base|].
  - rewrite Hbase in Hrec.
    destruct (resolve_content_model_NoDup all_types all_attrs namespaces base
                ({[type_name]} ∪ visited) (S depth)) as [Hne Hna].
    destruct (resolve base _ _) as [be ba]. simpl in *.
    rewrite !od_update_empty in Hrec by done. by injection Hrec as <-.
  - rewrite Hbase in Hrec.
    destruct (resolve_content_model_NoDup all_types all_attrs namespaces base
                ({[type_name]} ∪ visited) (S depth)) as [Hne Hna].
    destruct (resolve base _ _) as [be ba]. simpl in *.
    rewrite !od_update_empty in Hrec by done. by injection Hrec as <-.
  - by injection Hrec as <-.
Qed.

(** Where the code takes a complex type for a restriction with a base type,
    which it does when no [xs:extension] lies anywhere below the type, the
    resolved elements are exactly the locally declared elements of the
    restriction, in their order, none inherited; the resolved attributes are
    those of the recursively resolved base, overlaid with the local
    attributes: an attribute name that is not declared locally reads as in the
    base. *)
Theorem restriction_inherits_only_attributes (type_name : string)
    (visited : gset string) (depth : nat) (complex_type : Element) (base : string) :
  stops_early type_name visited depth = false →
  all_types !! lookup_name type_name = Some complex_type →
  derivation complex_type namespaces = Restricts base →
  let local_elements := fst (extract_local_elements complex_type namespaces) in
  let local_attributes := extract_local_attributes complex_type all_attrs namespaces in
  let resolved := resolve type_name visited depth in
  let resolved_base := resolve base ({[type_name]} ∪ visited) (S depth) in
  fst resolved = map (fun e => (el_name e, e)) local_elements
  ∧ snd resolved = add_local_attributes local_attributes (snd resolved_base)
  ∧ ∀ n : string,
      OD.get n (snd resolved) =
        match last_named at_name n local_attributes with
        | Some a => Some a
        | None => OD.get n (snd resolved_base)
        end.
Proof.
  intros Hgo Hfound Hder. simpl.
  rewrite (resolve_content_model_found _ _ _ complex_type) by done.
  rewrite Hder. simpl. split_and!.
  - apply (overlay_fresh el_name). simpl. apply extract_local_elements_NoDup.
  - done.
  - intros n. apply (overlay_get at_name).
Qed.

(** C3. For a complex type whose derivation is an extension with a base
    type, the resolved content model is the recursively resolved base overlaid
    with the local elements and attributes: a locally declared name reads as
    its local entry, every other name reads as in the base, and the keys are
    those of the base in the order of the base, followed by the names that
    only the local declarations introduce, in the order of declaration. *)
Theorem extension_overlays_base (type_name : string)
    (visited : gset string) (depth : nat) (complex_type : Element) (base : string) :
  stops_early type_name visited depth = false →
  all_types !! lookup_name type_name = Some complex_type →
  derivation complex_type namespaces = Extends base →
  let local_elements := fst (extract_local_elements complex_type namespaces) in
  let local_attributes := extract_local_attributes complex_type all_attrs namespaces in
  let resolved := resolve type_name visited depth in
  let resolved_base := resolve base ({[type_name]} ∪ visited) (S depth) in
  resolved = (add_local_elements local_elements (fst resolved_base),
              add_local_attributes local_attributes (snd resolved_base))
  ∧ (∀ n : string,
       OD.get n (fst resolved) =
         match last_named el_name n local_elements with
         | Some e => Some e
         | None => OD.get n (fst resolved_base)
         end)
  ∧ (∀ n : string,
       OD.get n (snd resolved) =
         match last_named at_name n local_attributes with
         | Some a => Some a
         | None => OD.get n (snd resolved_base)
         end)
  ∧ OD.keys (fst resolved) =
      OD.keys (fst resolved_base)
        ++ fresh_names (OD.keys (fst resolved_base)) (map el_name local_elements)
  ∧ OD.keys (snd resolved) =
      OD.keys (snd resolved_base)
        ++ fresh_names (OD.keys (snd resolved_base)) (map at_name local_attributes).
Proof.
  intros Hgo Hfound Hder. simpl.
  rewrite (resolve_content_model_found _ _ _ complex_type) by done.
  rewrite Hder. simpl. split_and!.
  - done.
  - intros n. apply (overlay_get el_name).
  - intros n. apply (overlay_get at_name).
  - apply (overlay_keys el_name).
  - apply (overlay_keys at_name).
Qed.

End Derivations.

(** The restriction example of the specification: [Restricted] keeps its
    local [a: 0..1] and inherits [@x]; element [c] of [Base] is not
    inherited. *)
Lemma restriction_inherits_only_attributes_witness :
  stops_early "Restricted" ∅ 0 = false
  ∧ Ex.registry !! lookup_name "Restricted" = Some Ex.Restricted
  ∧ derivation Ex.Restricted NS_26 = Restricts "Base"
  ∧ resolve_content_model Ex.registry ∅ NS_26 "Restricted" ∅ 0
    = ([("a", Ex.a_0_1)], [("x", Ex.at_x)]).
Proof.
  assert (H1 : stops_early "Restricted" ∅ 0 = false) by (by vm_compute).
  assert (H2 : Ex.registry !! lookup_name "Restricted" = Some Ex.Restricted)
    by (by vm_compute).
  assert (H3 : derivation Ex.Restricted NS_26 = Restricts "Base") by (by vm_compute).
  refine (conj H1 (conj H2 (conj H3 _))).
  destruct (restriction_inherits_only_attributes Ex.registry ∅ NS_26
              "Restricted" ∅ 0 Ex.Restricted "Base" H1 H2 H3) as (He & Ha & _).
  rewrite (surjective_pairing (resolve_content_model _ _ _ _ _ _)), He, Ha.
  by vm_compute.
Defined.

(** C2. The code misses the claim on a restriction that holds an
    [xs:extension] further down.  [Measured] is derived by restriction from
    [Quantity], whose resolved model has the element [a] and the attribute
    [@x]; its restriction node declares the element [a: 0..1] and nothing
    else.  The anonymous type of [a] extends [xs:string], and
    [find('.//xs:extension')] meets that node: [Measured] is taken for an
    extension of [xs:string], its local elements are looked for below the
    nested extension, and [Quantity] is never resolved.  The resolved model
    has no element at all and the attribute [@uom] of the anonymous type
    alone, where the claim says element [a: 0..1] and the inherited [@x]. *)
Theorem restriction_with_nested_extension_loses_base :
  Ex.quantities !! lookup_name "Measured" = Some Ex.Measured
  ∧ ET.find_desc Ex.Measured NS_26 "restriction" = Some Ex.Measured_restriction
  ∧ base_of (Some Ex.Measured_restriction) = Some "Quantity"
  ∧ map el_name (extract_elements_from_node Ex.Measured_restriction NS_26) = ["a"]
  ∧ resolve_content_model Ex.quantities ∅ NS_26 "Quantity" ∅ 0
    = ([("a", mkElementDef "a" "xs:anyType" "0" "1")], [("x", Ex.at_x)])
  ∧ derivation Ex.Measured NS_26 = Extends "xs:string"
  ∧ resolve_content_model Ex.quantities ∅ NS_26 "Measured" ∅ 0
    = ([], [("uom", mkAttributeDef "uom" "xs:string" "optional")]).
Proof. split_and!; by vm_compute. Qed.

(** The extension examples: [Derived] adds [b] after the members of [Base];
    in [Override] the local [a: 1..1] replaces the inherited [a: 0..1] in the
    place the base gave it. *)
Lemma extension_overlays_base_witness :
  stops_early "Override" ∅ 0 = false
  ∧ Ex.registry !! lookup_name "Override" = Some Ex.Override
  ∧ derivation Ex.Override NS_26 = Extends "Base"
  ∧ resolve_content_model Ex.registry ∅ NS_26 "Override" ∅ 0
    = ([("a", Ex.a_1_1); ("c", Ex.c_0_1); ("b", Ex.b_1_1)], [("x", Ex.at_x)])
  ∧ resolve_content_model Ex.registry ∅ NS_26 "Derived" ∅ 0
    = ([("a", Ex.a_0_1); ("c", Ex.c_0_1); ("b", Ex.b_1_1)], [("x", Ex.at_x)]).
Proof.
  assert (H1 : stops_early "Override" ∅ 0 = false) by (by vm_compute).
  assert (H2 : Ex.registry !! lookup_name "Override" = Some Ex.Override)
    by (by vm_compute).
  assert (H3 : derivation Ex.Override NS_26 = Extends "Base") by (by vm_compute).
  refine (conj H1 (conj H2 (conj H3 (conj _ _)))).
  - destruct (extension_overlays_base Ex.registry ∅ NS_26
                "Override" ∅ 0 Ex.Override "Base" H1 H2 H3) as (He & _).
    rewrite He. by vm_compute.
  - by vm_compute.
Defined.

(** ** Attributes declared by reference *)

(** C5, as stated, fails: the declaration of [id] carries [use="required"],
    the reference to it in [Holder] carries no [use], and the resolved
    attribute is [optional]. *)
Lemma ref_attribute_ignores_declared_use :
  let all_attrs := get_all_attributes [Some Ex.attr_schema] NS_3 in
  all_attrs !! "id" = Some Ex.declared_id
  ∧ ET.get Ex.declared_id "use" = Some "required"
  ∧ ET.get Ex.ref_id "use" = None
  ∧ extract_local_attributes Ex.Holder all_attrs NS_3
    = [mkAttributeDef "id" "xs:ID" "optional"].
Proof. by vm_compute. Qed.

(** C5, amended. An attribute declared by a (non-empty) [ref] that resolves
    has the [use] of the local reference when that is present and non-empty,
    and ["optional"] otherwise, whatever the referenced declaration says; its
    name is the cleaned reference and its type the cleaned type of the
    referenced declaration. *)
Theorem ref_attribute_use (attr : Element) (all_attrs : gmap string Element)
    (namespaces : list (string * string)) (a : AttributeDef) :
  opt_truthy (ET.get attr "ref") = true →
  local_attribute attr all_attrs namespaces = Some a →
  let attr_ref := clean_type_name (default "" (ET.get attr "ref")) in
  use a = match ET.get attr "use" with
          | Some (String _ _ as use_override) => use_override
          | _ => "optional"
          end
  ∧ at_name a = attr_ref
  ∧ ∃ attr_def : Element,
      all_attrs !! PyStr.remove "xml:" (PyStr.remove "diggs:" (PyStr.remove "gml:" attr_ref))
      = Some attr_def
      ∧ at_type a = clean_type_name (ET.get_or attr_def "type" "").
Proof.
  intros Href Hloc attr_ref. subst attr_ref. unfold local_attribute, opt_truthy in *.
  destruct (ET.get attr "ref") as [[|c ref]|]; try done.
  unfold resolve_attribute_ref in Hloc. cbn [default from_option id].
  destruct (all_attrs !! _) as [attr_def|] eqn:Hdecl; [|done].
  destruct (ET.get attr "use") as [[|c' u]|]; injection Hloc as <-;
    (split_and!; [done | done | by exists attr_def]).
Qed.

Lemma ref_attribute_use_witness :
  opt_truthy (ET.get Ex.ref_id "ref") = true
  ∧ local_attribute Ex.ref_id (get_all_attributes [Some Ex.attr_schema] NS_3) NS_3
    = Some (mkAttributeDef "id" "xs:ID" "optional")
  ∧ use (mkAttributeDef "id" "xs:ID" "optional") = "optional".
Proof.
  assert (H1 : opt_truthy (ET.get Ex.ref_id "ref") = true) by reflexivity.
  assert (H2 : local_attribute Ex.ref_id
                 (get_all_attributes [Some Ex.attr_schema] NS_3) NS_3
               = Some (mkAttributeDef "id" "xs:ID" "optional")) by (by vm_compute).
  refine (conj H1 (conj H2 _)).
  exact (proj1 (ref_attribute_use Ex.ref_id _ NS_3 _ H1 H2)).
Defined.

(** ** Loading schemas *)

(** C7, as stated, fails: one file is supplied, it does not parse, and
    [load_schemas] returns empty registries instead of raising. *)
Lemma load_schemas_none_parse_returns :
  load_schemas "old" [mkSchemaFile "old/Broken.xsd" "diggs" None] NS_26
  = Returns (mkLoaded [] ∅ ∅ ∅).
Proof. reflexivity. Qed.

(** C7, amended. [load_schemas] raises exactly when no schema file is
    supplied.  When files are supplied it returns registries built from the
    files that parse, whether or not any does: with none, they are empty. *)
Theorem load_schemas_raises_iff_no_files (directory : string)
    (schema_files : list SchemaFile) (namespace_dict : list (string * string)) :
  ((∃ e : PyExc, load_schemas directory schema_files namespace_dict = Raises e)
   ↔ schema_files = [])
  ∧ match schema_files with
    | [] => load_schemas directory schema_files namespace_dict
            = Raises (ValueError ("No .xsd files found in " +:+ directory))
    | _ :: _ =>
        ∃ loaded : Loaded,
          load_schemas directory schema_files namespace_dict = Returns loaded
          ∧ map fst (schemas_with_ns loaded) = omap parse_schema schema_files
          ∧ (omap parse_schema schema_files = [] →
             loaded = mkLoaded [] ∅ ∅ ∅)
    end.
Proof.
  destruct schema_files as [|f files].
  - split; [split; [done | intros _; by eexists] | done].
  - split; [split; [by intros [e He] | done]|].
    set (parsed := fun xsd_file =>
                     match parse_schema xsd_file with
                     | Some schema => Some (schema, ns_label xsd_file)
                     | None => None
                     end).
    assert (Hmap : ∀ l, map fst (omap parsed l) = omap parse_schema l).
    { induction l as [|x l IH]; [done|].
      change (omap parsed (x :: l))
        with (match parsed x with Some y => y :: omap parsed l | None => omap parsed l end).
      change (omap parse_schema (x :: l))
        with (match parse_schema x with
              | Some y => y :: omap parse_schema l
              | None => omap parse_schema l
              end).
      unfold parsed at 1. destruct (parse_schema x); [|done].
      change (map fst ((?a, ?b) :: ?r)) with (a :: map fst r). by rewrite IH. }
    exists (mkLoaded (omap parsed (f :: files))
              (collect_qualified "complexType" (omap parsed (f :: files)) namespace_dict)
              (get_all_attributes
                 (map (fun sn => Some (fst sn)) (omap parsed (f :: files))) namespace_dict)
              (collect_qualified "simpleType" (omap parsed (f :: files)) namespace_dict)).
    split; [reflexivity|]. split; [apply Hmap|].
    intros Hnone. rewrite <- Hmap in Hnone. apply map_eq_nil in Hnone.
    by rewrite Hnone.
Qed.

(** ** Simple types *)

(** C4, as stated, fails: the two definitions of [diggs:Code] serialize
    differently (base [xs:string] against [xs:int]) and the record still says
    compatible. *)
Lemma simpletype_change_stays_compatible :
  Ex.serialize Ex.Code_string ≠ Ex.serialize Ex.Code_int
  ∧ compare_simpletype Ex.serialize Ex.simple_analyzer "diggs:Code" None
    = mkSimpleTypeResult "diggs:Code" "No" "" "Yes"
                         "Restriction or base type changed" "Yes".
Proof. split; [by vm_compute | by vm_compute]. Qed.

(** C4, amended. The record of a simple type says compatible exactly when
    the corresponding type is present in the new registry, whatever the two
    serialized forms are; a textual difference between them is what
    [restriction_changed] records. *)
Theorem simpletype_compatible_iff_present (tostring : Element -> string)
    (self : Analyzer) (qualified_name : string) (mapped_name : option string) :
  let result := compare_simpletype tostring self qualified_name mapped_name in
  let old_str := match old_simpletypes self !! qualified_name with
                 | Some st_old => tostring st_old
                 | None => ""
                 end in
  match new_simpletypes self !! target_name qualified_name mapped_name with
  | None => st_compatible result = "No" ∧ st_type_removed result = "Yes"
  | Some st_new =>
      st_compatible result = "Yes"
      ∧ (restriction_changed result = "Yes" ↔ old_str ≠ tostring st_new)
  end.
Proof.
  simpl. unfold compare_simpletype.
  destruct (new_simpletypes self !! _) as [st_new|]; [|done].
  destruct (String.eqb _ (tostring st_new)) eqn:E; simpl.
  - apply String.eqb_eq in E. split; [done|]. split; [done | by intros H].
  - apply String.eqb_neq in E. split; [done|]. split; [by intros _ | done].
Qed.

(** ** Rename lookup *)

(** C6, as stated, fails: [eml:A] has no exact entry, the bare entry
    [A -> B] re-qualifies to [eml:B], which the new registry does not have;
    the mapped name is then the bare target [B], and the type is compared
    under it (and reported as removed), not under its original name (under
    which it would be found, and compatible). *)
Lemma bare_target_kept_when_requalified_missing :
  type_mappings Ex.rename_analyzer !! "eml:A" = None
  ∧ new_types Ex.rename_analyzer !! "eml:B" = None
  ∧ lookup_mapped_name Ex.rename_analyzer (new_types Ex.rename_analyzer) "eml:A"
    = Some "B"
  ∧ analyze_types id Ex.rename_analyzer ["eml:A"] ∅
    = Returns ([mkTypeResult "eml:A" "Yes" "" "" [] [] [] [] []
                             "Type not found in new version" "No"], ∅)
  ∧ compare_type id Ex.rename_analyzer "eml:A" None ∅
    = Returns (mkTypeResult "eml:A" "No" "" "" [] [] [] [] [] "" "Yes", ∅).
Proof. split_and!; by vm_compute. Qed.

(** C6, amended. For an old qualified name with no (non-empty) exact entry,
    when the rename table has an entry under the bare local name whose target
    is non-empty and unqualified, the mapped name is the target re-qualified
    with the namespace label of the old name if that name is in the new
    registry, and otherwise the bare target as written. *)
Theorem bare_mapping_requalified (self : Analyzer) (registry : gmap string Element)
    (qualified_name target : string) :
  opt_truthy (type_mappings self !! qualified_name) = false →
  type_mappings self !! PyStr.last (PyStr.split ":" qualified_name) = Some target →
  PyStr.truthy target = true →
  PyStr.contains ":" target = false →
  lookup_mapped_name self registry qualified_name =
    let potential_new :=
      PyStr.first (PyStr.split ":" qualified_name) +:+ ":" +:+ target in
    match registry !! potential_new with
    | Some _ => Some potential_new
    | None => Some target
    end.
Proof.
  intros Hexact Hbare Htruthy Hcolon. unfold lookup_mapped_name.
  rewrite Hexact, Hbare. destruct target as [|c target]; [done|].
  rewrite Hcolon. simpl. by destruct (registry !! _).
Qed.

Lemma bare_mapping_requalified_witness :
  lookup_mapped_name Ex.renamed_analyzer (new_types Ex.renamed_analyzer) "eml:A"
  = Some "eml:B"
  ∧ lookup_mapped_name Ex.rename_analyzer (new_types Ex.rename_analyzer) "eml:A"
    = Some "B".
Proof.
  split.
  - rewrite (bare_mapping_requalified Ex.renamed_analyzer _ "eml:A" "B");
      by vm_compute.
  - rewrite (bare_mapping_requalified Ex.rename_analyzer _ "eml:A" "B");
      by vm_compute.
Defined.

(** ** The type-compatibility engine *)

Section EngineFacts.
Variable set_iter : list string -> list string.
Variable self : Analyzer.

Local Abbreviation chk_rec := (check_rec set_iter self).
Local Abbreviation chk_body := (check_body set_iter self).
Local Abbreviation chk := (check_type_content_compatibility set_iter self).

(** The depth guard answers first, whatever the fuel. *)
Lemma check_rec_deep (fuel : nat) (old_type new_type : string) (depth : nat)
    (cache : Cache) :
  (5 < depth)%nat →
  chk_rec fuel old_type new_type depth cache
  = Some ((true, "Max recursion depth reached"), cache).
Proof.
  intros Hdeep. apply Nat.ltb_lt in Hdeep.
  destruct fuel; simpl; by rewrite Hdeep.
Qed.

Lemma check_rec_shallow (fuel : nat) (old_type new_type : string) (depth : nat)
    (cache : Cache) :
  (depth <= 5)%nat →
  chk_rec (S fuel) old_type new_type depth cache
  = chk_body (chk_rec fuel) old_type new_type depth cache.
Proof.
  intros Hd. apply Nat.ltb_ge in Hd. simpl. by rewrite Hd.
Qed.

(** *** Totality *)

Lemma common_elems_loop_total
    (rec : string -> string -> nat -> Cache -> option (Verdict * Cache))
    (cm_old_elements cm_new_elements : list (string * ElementDef))
    (depth : nat) (names : list string) (cache : Cache) :
  (∀ o n c, is_Some (rec o n (S depth) c)) →
  is_Some (common_elems_loop rec cm_old_elements cm_new_elements depth names cache).
Proof.
  intros Hrec. revert cache.
  induction names as [|elem_name rest IH]; intros cache; simpl; [done|].
  destruct (OD.get elem_name cm_old_elements) as [e_old|]; [|apply IH].
  destruct (OD.get elem_name cm_new_elements) as [e_new|]; [|apply IH].
  destruct (cardinality_restricted e_old e_new); [done|].
  destruct (_ && _); [|apply IH].
  destruct (Hrec (el_type e_old) (el_type e_new) cache) as [[[ok reason] cache'] ->].
  destruct ok; [apply IH | done].
Qed.

Lemma compare_models_total
    (rec : string -> string -> nat -> Cache -> option (Verdict * Cache))
    (cm_old cm_new : ContentModel) (depth : nat) (cache : Cache) :
  (∀ o n c, is_Some (rec o n (S depth) c)) →
  is_Some (compare_models set_iter rec cm_old cm_new depth cache).
Proof.
  intros Hrec. unfold compare_models.
  destruct cm_old as [oe oa], cm_new as [ne na].
  destruct (negb (is_empty_list (names_diff (OD.keys oe) (OD.keys ne)))); [done|].
  destruct (negb (is_empty_list (names_diff (OD.keys oa) (OD.keys na)))); [done|].
  destruct (List.find _ (set_iter (names_diff (OD.keys ne) (OD.keys oe)))); [done|].
  destruct (List.find _ (set_iter (names_diff (OD.keys na) (OD.keys oa)))); [done|].
  destruct (common_elems_loop_total rec oe ne depth
              (set_iter (names_inter (OD.keys oe) (OD.keys ne))) cache Hrec)
    as [[[result|] cache'] ->]; [done|].
  by destruct (List.find _ _).
Qed.

Lemma check_body_total
    (rec : string -> string -> nat -> Cache -> option (Verdict * Cache))
    (old_type new_type : string) (depth : nat) (cache : Cache) :
  (∀ o n c, is_Some (rec o n (S depth) c)) →
  is_Some (chk_body rec old_type new_type depth cache).
Proof.
  intros Hrec. unfold check_body.
  destruct (cache !! (old_type, new_type)); [done|].
  destruct (String.eqb _ _); [done|].
  destruct (known_mapping _ _ _); [done|].
  destruct (_ || _); [done|].
  destruct (old_types self !! _); [|done].
  destruct (new_types self !! _); [|done].
  match goal with
  | |- is_Some (option_map _ (compare_models _ _ ?o ?n _ _)) =>
      destruct (compare_models_total rec o n depth cache Hrec) as [r ->]
  end.
  done.
Qed.

(** With as much fuel as there are levels below the cap of 5, a call returns
    a verdict. *)
Lemma check_rec_total (fuel : nat) (old_type new_type : string) (depth : nat)
    (cache : Cache) :
  (6 <= fuel + depth)%nat →
  is_Some (chk_rec fuel old_type new_type depth cache).
Proof.
  revert old_type new_type depth cache.
  induction fuel as [|fuel IH]; intros old_type new_type depth cache Hfuel.
  - rewrite check_rec_deep; [done | lia].
  - destruct (decide (5 < depth)%nat) as [Hdeep|Hshallow].
    + by rewrite check_rec_deep.
    + rewrite check_rec_shallow by lia. apply check_body_total.
      intros o n c. apply IH. lia.
Qed.

(** The verdict of [check_type_content_compatibility] is the one the
    recursion computes. *)
Lemma check_is_check_rec (old_type new_type : string) (depth : nat) (cache : Cache) :
  chk_rec (6 - depth) old_type new_type depth cache
  = Some (chk old_type new_type depth cache).
Proof.
  unfold check_type_content_compatibility.
  destruct (check_rec_total (6 - depth) old_type new_type depth cache) as [r ->];
    [lia | done].
Qed.

(** *** The cache stays sound for identical names *)

Lemma cache_ok_empty : cache_ok ∅.
Proof. intros o n v H. by rewrite lookup_empty in H. Qed.

Lemma cache_ok_insert_identical (cache : Cache) (old_type new_type : string) :
  cache_ok cache →
  cache_ok (<[(old_type, new_type) := (true, "Types identical")]> cache).
Proof.
  intros Hok o n v Hlook Hnorm.
  destruct (decide ((old_type, new_type) = (o, n))) as [Heq|Hne].
  - injection Heq as -> ->. rewrite lookup_insert_eq in Hlook. by injection Hlook as <-.
  - rewrite lookup_insert_ne in Hlook by done. by apply (Hok o n).
Qed.

Lemma cache_ok_insert_distinct (cache : Cache) (old_type new_type : string)
    (v : Verdict) :
  normalize_type_name old_type ≠ normalize_type_name new_type →
  cache_ok cache →
  cache_ok (<[(old_type, new_type) := v]> cache).
Proof.
  intros Hdiff Hok o n w Hlook Hnorm.
  destruct (decide ((old_type, new_type) = (o, n))) as [Heq|Hne].
  - injection Heq as -> ->. done.
  - rewrite lookup_insert_ne in Hlook by done. by apply (Hok o n).
Qed.

Lemma common_elems_loop_cache_ok
    (rec : string -> string -> nat -> Cache -> option (Verdict * Cache))
    (cm_old_elements cm_new_elements : list (string * ElementDef))
    (depth : nat) (names : list string) (cache cache' : Cache)
    (result : option Verdict) :
  preserves_cache_ok rec →
  cache_ok cache →
  common_elems_loop rec cm_old_elements cm_new_elements depth names cache
  = Some (result, cache') →
  cache_ok cache'.
Proof.
  intros Hrec. revert cache.
  induction names as [|elem_name rest IH]; intros cache Hok; simpl.
  - by intros [= _ <-].
  - destruct (OD.get elem_name cm_old_elements) as [e_old|]; [|by apply IH].
    destruct (OD.get elem_name cm_new_elements) as [e_new|]; [|by apply IH].
    destruct (cardinality_restricted e_old e_new); [by intros [= _ <-]|].
    destruct (_ && _); [|by apply IH].
    destruct (rec (el_type e_old) (el_type e_new) (S depth) cache)
      as [[[ok reason] cache1]|] eqn:Hcall; [|done].
    pose proof (Hrec _ _ _ _ _ _ Hok Hcall) as Hok1.
    destruct ok; [by apply IH | by intros [= _ <-]].
Qed.

Lemma compare_models_cache_ok
    (rec : string -> string -> nat -> Cache -> option (Verdict * Cache))
    (cm_old cm_new : ContentModel) (depth : nat) (cache cache' : Cache)
    (result : Verdict) :
  preserves_cache_ok rec →
  cache_ok cache →
  compare_models set_iter rec cm_old cm_new depth cache = Some (result, cache') →
  cache_ok cache'.
Proof.
  intros Hrec Hok. unfold compare_models.
  destruct cm_old as [oe oa], cm_new as [ne na].
  destruct (negb (is_empty_list (names_diff (OD.keys oe) (OD.keys ne))));
    [by intros [= _ <-]|].
  destruct (negb (is_empty_list (names_diff (OD.keys oa) (OD.keys na))));
    [by intros [= _ <-]|].
  destruct (List.find _ (set_iter (names_diff (OD.keys ne) (OD.keys oe))));
    [by intros [= _ <-]|].
  destruct (List.find _ (set_iter (names_diff (OD.keys na) (OD.keys oa))));
    [by intros [= _ <-]|].
  destruct (common_elems_loop rec oe ne depth _ cache)
    as [[looped cache1]|] eqn:Hloop; [|done].
  pose proof (common_elems_loop_cache_ok _ _ _ _ _ _ _ _ Hrec Hok Hloop) as Hok1.
  destruct looped; [by intros [= _ <-]|].
  by destruct (List.find _ _); intros [= _ <-].
Qed.

Lemma check_body_cache_ok
    (rec : string -> string -> nat -> Cache -> option (Verdict * Cache))
    (depth : nat) :
  preserves_cache_ok rec →
  preserves_cache_ok (fun o n _ c => chk_body rec o n depth c).
Proof.
  intros Hrec old_type new_type _ cache r cache' Hok. cbv beta.
  unfold check_body.
  destruct (cache !! (old_type, new_type)); [by intros [= _ <-]|].
  destruct (String.eqb _ _) eqn:Enorm.
  { intros [= _ <-]. by apply cache_ok_insert_identical. }
  apply String.eqb_neq in Enorm.
  destruct (known_mapping _ _ _).
  { intros [= _ <-]. by apply cache_ok_insert_distinct. }
  destruct (_ || _).
  { intros [= _ <-]. by apply cache_ok_insert_distinct. }
  destruct (old_types self !! _).
  2: { intros [= _ <-]. by apply cache_ok_insert_distinct. }
  destruct (new_types self !! _).
  2: { intros [= _ <-]. by apply cache_ok_insert_distinct. }
  destruct (compare_models _ _ _ _ _ _) as [[result cache1]|] eqn:Hcmp; [|done].
  intros [= _ <-]. simpl. apply cache_ok_insert_distinct; [done|].
  by apply (compare_models_cache_ok _ _ _ _ _ _ _ Hrec Hok Hcmp).
Qed.

Lemma check_rec_cache_ok (fuel : nat) : preserves_cache_ok (chk_rec fuel).
Proof.
  induction fuel as [|fuel IH]; intros o n d c r c' Hok.
  - destruct (decide (5 < d)%nat) as [Hdeep|Hshallow].
    + rewrite check_rec_deep by done. by intros [= _ <-].
    + simpl. apply Nat.nlt_ge, Nat.ltb_ge in Hshallow. by rewrite Hshallow.
  - destruct (decide (5 < d)%nat) as [Hdeep|Hshallow].
    + rewrite check_rec_deep by done. by intros [= _ <-].
    + rewrite check_rec_shallow by lia. intros Hbody.
      by apply (check_body_cache_ok (chk_rec fuel) d IH o n d c r c' Hok).
Qed.

(** Every call leaves the cache sound for identical names. *)
Lemma check_cache_ok (old_type new_type : string) (depth : nat) (cache : Cache) :
  cache_ok cache → cache_ok (snd (chk old_type new_type depth cache)).
Proof.
  intros Hok. pose proof (check_is_check_rec old_type new_type depth cache) as Hrec.
  destruct (chk old_type new_type depth cache) as [r c'].
  by apply (check_rec_cache_ok _ _ _ _ _ _ _ Hok Hrec).
Qed.

End EngineFacts.

(** *** The depth cap *)

(** C10. When the recursion depth exceeds 5 the engine answers compatible,
    with reason "Max recursion depth reached", for every pair of names, every
    rename table and registries and every cache, and leaves the cache as it
    was: nothing but the depth is consulted. *)
Theorem depth_cap_defaults_to_compatible (set_iter : list string -> list string)
    (self : Analyzer) (old_type new_type : string) (depth : nat) (cache : Cache) :
  (5 < depth)%nat →
  check_type_content_compatibility set_iter self old_type new_type depth cache
  = ((true, "Max recursion depth reached"), cache).
Proof.
  intros Hdeep. unfold check_type_content_compatibility.
  by rewrite check_rec_deep.
Qed.

(** At depth 6 the answer is the default even for two types the structural
    comparison tells apart at depth 0, and even when the cache holds another
    verdict for the pair. *)
Lemma depth_cap_defaults_to_compatible_witness :
  let stale : Cache := {[("eml:T", "eml:U") := (false, "stale")]} in
  (5 < 6)%nat
  ∧ check_type_content_compatibility id Ex.card_analyzer "eml:T" "eml:U" 6 stale
    = ((true, "Max recursion depth reached"), stale)
  ∧ fst (check_type_content_compatibility id Ex.card_analyzer "eml:T" "eml:U" 0 ∅)
    = (false, "Cardinality restricted on element: a").
Proof.
  intros stale.
  assert (H : (5 < 6)%nat) by lia.
  refine (conj H (conj _ _)).
  - exact (depth_cap_defaults_to_compatible id Ex.card_analyzer "eml:T" "eml:U" 6 stale H).
  - by vm_compute.
Defined.

(** *** The identity rule *)

(** The two guards that stand before the rule.  Beyond the depth cap the
    depth guard answers, also for a type of both versions; the analyzer goes
    deeper only for two element types that differ.  Two empty strings, which
    name no type, are answered by the guard of [is_type_change_compatible];
    its caller passes a non-empty new type. *)
Lemma identity_rule_after_guards :
  old_types Ex.card_analyzer !! "eml:T" = Some (Ex.single "T" "1" "unbounded")
  ∧ new_types Ex.card_analyzer !! "eml:T" = Some (Ex.single "T" "0" "1")
  ∧ normalize_type_name "eml:T" = normalize_type_name "eml:T"
  ∧ check_type_content_compatibility id Ex.card_analyzer "eml:T" "eml:T" 6 ∅
    = ((true, "Max recursion depth reached"), ∅)
  ∧ normalize_type_name "" = normalize_type_name ""
  ∧ is_type_change_compatible id Ex.card_analyzer "" "" ∅ = ((true, "Empty type"), ∅).
Proof. split_and!; by vm_compute. Qed.

(** Names with the same normal form are compatible at every depth. *)
Lemma identical_names_always_compatible (set_iter : list string -> list string)
    (self : Analyzer) (old_type new_type : string) (depth : nat) (cache : Cache) :
  normalize_type_name old_type = normalize_type_name new_type →
  cache_ok cache →
  fst (fst (check_type_content_compatibility set_iter self old_type new_type depth cache))
  = true.
Proof.
  intros Hnorm Hok. destruct (decide (5 < depth)%nat) as [Hdeep|Hshallow].
  - unfold check_type_content_compatibility. by rewrite check_rec_deep.
  - unfold check_type_content_compatibility.
    replace (6 - depth)%nat with (S (5 - depth)) by lia.
    rewrite check_rec_shallow by lia. unfold check_body.
    destruct (cache !! (old_type, new_type)) as [v|] eqn:Hhit.
    + by rewrite (Hok _ _ _ Hhit Hnorm).
    + rewrite Hnorm, String.eqb_refl. done.
Qed.

(** C9. For every pair of type names whose normal forms are identical, in
    particular for a type compared with itself, the verdict is compatible with
    reason "Types identical", and the rule is applied before any mapping
    lookup, built-in check, registry lookup or structural comparison: the
    answer is the same whatever the rename table and the registries hold.
    [check_type_content_compatibility] gives it on every call within the
    depth cap (the top-level call has depth 0) and on every cache the engine
    fills (it starts empty, and each call keeps [cache_ok]), and records it;
    [is_type_change_compatible] gives it for two type names, without touching
    the cache. *)
Theorem identical_names_compatible (set_iter : list string -> list string)
    (self : Analyzer) (old_type new_type : string) (depth : nat) (cache : Cache) :
  normalize_type_name old_type = normalize_type_name new_type →
  cache_ok cache →
  (depth <= 5)%nat →
  let answer :=
    check_type_content_compatibility set_iter self old_type new_type depth cache in
  fst answer = (true, "Types identical")
  ∧ snd answer !! (old_type, new_type) = Some (true, "Types identical")
  ∧ (PyStr.truthy old_type = true → PyStr.truthy new_type = true →
     is_type_change_compatible set_iter self old_type new_type cache
     = ((true, "Types identical"), cache)).
Proof.
  intros Hnorm Hok Hdepth answer. subst answer. split_and!.
  - unfold check_type_content_compatibility.
    replace (6 - depth)%nat with (S (5 - depth)) by lia.
    rewrite check_rec_shallow by lia. unfold check_body.
    destruct (cache !! (old_type, new_type)) as [v|] eqn:Hhit.
    + by rewrite (Hok _ _ _ Hhit Hnorm).
    + by rewrite Hnorm, String.eqb_refl.
  - unfold check_type_content_compatibility.
    replace (6 - depth)%nat with (S (5 - depth)) by lia.
    rewrite check_rec_shallow by lia. unfold check_body.
    destruct (cache !! (old_type, new_type)) as [v|] eqn:Hhit.
    + cbn [snd]. rewrite <- (Hok _ _ _ Hhit Hnorm). exact Hhit.
    + rewrite Hnorm, String.eqb_refl. cbn [snd fst]. apply lookup_insert_eq.
  - intros Hold Hnew. unfold is_type_change_compatible.
    rewrite Hold, Hnew. simpl. by rewrite Hnorm, String.eqb_refl.
Qed.

(** [diggs:A] and [A] have the same normal form; the analyzer used has no
    such type at all, and the rule still answers. *)
Lemma identical_names_compatible_witness :
  normalize_type_name "diggs:A" = normalize_type_name "A"
  ∧ check_type_content_compatibility id Ex.card_analyzer "diggs:A" "A" 0 ∅
    = ((true, "Types identical"), {[("diggs:A", "A") := (true, "Types identical")]})
  ∧ is_type_change_compatible id Ex.card_analyzer "diggs:A" "A" ∅
    = ((true, "Types identical"), ∅).
Proof.
  assert (Hnorm : normalize_type_name "diggs:A" = normalize_type_name "A")
    by reflexivity.
  assert (Hdepth : (0 <= 5)%nat) by lia.
  destruct (identical_names_compatible id Ex.card_analyzer "diggs:A" "A" 0 ∅
              Hnorm cache_ok_empty Hdepth) as (Hanswer & _ & Hchange).
  refine (conj Hnorm (conj _ (Hchange eq_refl eq_refl))).
  by vm_compute.
Defined.

(** *** Cardinality *)

(** Below the number 999999 that stands for ["unbounded"], and on well-formed
    cardinalities, the test of the code is the comparison the specification
    words. *)
Lemma cardinality_restricted_matches_spec (e_old e_new : ElementDef) :
  well_formed_cardinality e_old = true →
  well_formed_cardinality e_new = true →
  below_sentinel e_old = true →
  below_sentinel e_new = true →
  cardinality_restricted e_old e_new = spec_cardinality_restricted e_old e_new.
Proof.
  unfold well_formed_cardinality, below_sentinel, cardinality_restricted,
    spec_cardinality_restricted, min_of, max_of, spec_bound.
  intros [Hmo Hxo]%andb_true_iff [Hmn Hxn]%andb_true_iff Hbo Hbn.
  rewrite Hmo, Hmn. f_equal.
  destruct (String.eqb (maxOccurs e_old) "unbounded") eqn:Eo,
           (String.eqb (maxOccurs e_new) "unbounded") eqn:En; simpl in *.
  - apply Z.ltb_irrefl.
  - by rewrite Hxn.
  - rewrite Hxo. apply Z.ltb_lt in Hbo. apply Z.ltb_ge. lia.
  - by rewrite Hxo, Hxn.
Qed.

(** The engine stops at the first common element whose cardinality is
    restricted. *)
Lemma engine_flags_restriction
    (rec : string -> string -> nat -> Cache -> option (Verdict * Cache))
    (cm_old_elements cm_new_elements : list (string * ElementDef))
    (depth : nat) (elem_name : string) (rest : list string) (cache : Cache)
    (e_old e_new : ElementDef) :
  OD.get elem_name cm_old_elements = Some e_old →
  OD.get elem_name cm_new_elements = Some e_new →
  cardinality_restricted e_old e_new = true →
  common_elems_loop rec cm_old_elements cm_new_elements depth (elem_name :: rest) cache
  = Some (Some (false, "Cardinality restricted on element: " +:+ elem_name), cache).
Proof. intros Hold Hnew Hres. simpl. by rewrite Hold, Hnew, Hres. Qed.

(** In [compare_type] a change that expands one bound is filed as an
    expansion, whether or not it restricts the other bound: the record keeps
    the notes and the verdict it had. *)
Lemma compare_type_expansion_hides_restriction
    (set_iter : list string -> list string) (self : Analyzer)
    (cm_old_elements cm_new_elements : list (string * ElementDef))
    (result : TypeResult) (cache : Cache) (elem_name : string)
    (e_old e_new : ElementDef) :
  OD.get elem_name cm_old_elements = Some e_old →
  OD.get elem_name cm_new_elements = Some e_new →
  cardinality_expanded e_old e_new = true →
  el_type e_old = el_type e_new →
  compare_common_elem set_iter self cm_old_elements cm_new_elements
                      (result, cache) elem_name
  = (push_expanded
       (elem_name +:+ format_cardinality (minOccurs e_new) (maxOccurs e_new)) result,
     cache).
Proof.
  intros Hold Hnew Hexp Htype. unfold compare_common_elem.
  by rewrite Hold, Hnew, Hexp, Htype, String.eqb_refl.
Qed.

(** C1. The per-element test of [check_type_content_compatibility] flags the
    change from [1..unbounded] to [0..1], which lowers [maxOccurs], as the
    specification says; [compare_type], which tests for an expansion first and
    for a restriction only otherwise, files the same change ([minOccurs]
    lowered as well) under expanded cardinality and leaves the record
    compatible. *)
Theorem compare_type_misses_mixed_restriction :
  let e_old := mkElementDef "a" "xs:string" "1" "unbounded" in
  let e_new := mkElementDef "a" "xs:string" "0" "1" in
  resolve_content_model (old_types Ex.card_analyzer) ∅ NS_26 "eml:T" ∅ 0
  = ([("a", e_old)], [])
  ∧ resolve_content_model (new_types Ex.card_analyzer) ∅ NS_3 "eml:T" ∅ 0
    = ([("a", e_new)], [])
  ∧ spec_cardinality_restricted e_old e_new = true
  ∧ cardinality_restricted e_old e_new = true
  ∧ fst (check_type_content_compatibility id Ex.card_analyzer "eml:T" "eml:U" 0 ∅)
    = (false, "Cardinality restricted on element: a")
  ∧ compare_type id Ex.card_analyzer "eml:T" None ∅
    = Returns (mkTypeResult "eml:T" "No" "" "" [] [] ["a(0..1)"] [] [] "" "Yes", ∅).
Proof. split_and!; by vm_compute. Qed.

(** The number 999999 is not above every bound: the change from [1..1000000]
    to [1..unbounded] widens the cardinality, and both the engine and
    [compare_type] report it as a restriction. *)
Lemma unbounded_sentinel_overtaken :
  let e_old := mkElementDef "a" "xs:string" "1" "1000000" in
  let e_new := mkElementDef "a" "xs:string" "1" "unbounded" in
  spec_cardinality_restricted e_old e_new = false
  ∧ cardinality_restricted e_old e_new = true
  ∧ fst (check_type_content_compatibility id Ex.card_analyzer "eml:V" "eml:W" 0 ∅)
    = (false, "Cardinality restricted on element: a")
  ∧ compare_type id Ex.card_analyzer "eml:V" None ∅
    = Returns (mkTypeResult "eml:V" "No" "" "" [] [] [] ["a(1..unbounded)"] []
                            "Cardinality restricted: a" "No", ∅).
Proof. split_and!; by vm_compute. Qed.

(** * Further properties of the code *)

(** ** Strings *)

Lemma contains_app (c : ascii) (a b : string) :
  PyStr.contains c (a +:+ b) = PyStr.contains c a || PyStr.contains c b.
Proof.
  induction a as [|d a IH]; simpl; [done|]. rewrite IH. by rewrite orb_assoc.
Qed.

Lemma prefix_contains (c : ascii) (p s : string) :
  String.prefix p s = true → PyStr.contains c p = true → PyStr.contains c s = true.
Proof.
  revert s. induction p as [|d p IH]; intros s Hpre Hc; simpl in *; [done|].
  destruct s as [|e s]; [done|]. simpl in *.
  destruct (ascii_dec d e) as [->|Hne]; [|done].
  apply orb_true_iff in Hc as [Hc|Hc]; [by rewrite Hc|].
  rewrite (IH s Hpre Hc). apply orb_true_r.
Qed.

(** Removing a pattern that has a character the string lacks changes
    nothing. *)
Lemma remove_absent (c : ascii) (pat s : string) :
  PyStr.contains c pat = true → PyStr.contains c s = false →
  PyStr.remove pat s = s.
Proof.
  intros Hpat. unfold PyStr.remove.
  induction s as [|d s IH]; intros Hs; [done|].
  simpl in Hs. apply orb_false_elim in Hs as [Hd Hs].
  change (PyStr.remove_from pat 0 (String d s))
    with (if String.prefix pat (String d s)
          then PyStr.remove_from pat (Nat.pred (String.length pat)) s
          else String d (PyStr.remove_from pat 0 s)).
  destruct (String.prefix pat (String d s)) eqn:Hpre.
  - pose proof (prefix_contains c _ _ Hpre Hpat) as Hin. simpl in Hin.
    by rewrite Hd, Hs in Hin.
  - by rewrite IH.
Qed.

Lemma split_no_sep (sep : ascii) (s : string) :
  PyStr.contains sep s = false → PyStr.split sep s = [s].
Proof.
  induction s as [|c s IH]; intros Hs; simpl; [done|].
  simpl in Hs. apply orb_false_elim in Hs as [Hc Hs].
  rewrite Ascii.eqb_sym, Hc. by rewrite IH.
Qed.

Lemma split_at_first (sep : ascii) (l r : string) :
  PyStr.contains sep l = false →
  PyStr.split sep (l +:+ String sep r) = l :: PyStr.split sep r.
Proof.
  induction l as [|c l IH]; intros Hl; simpl.
  - by rewrite Ascii.eqb_refl.
  - simpl in Hl. apply orb_false_elim in Hl as [Hc Hl].
    rewrite Ascii.eqb_sym, Hc. by rewrite IH.
Qed.

Lemma after_first_app (sep : ascii) (l r : string) :
  PyStr.contains sep l = false →
  PyStr.after_first sep (l +:+ String sep r) = r.
Proof.
  induction l as [|c l IH]; intros Hl; simpl.
  - by rewrite Ascii.eqb_refl.
  - simpl in Hl. apply orb_false_elim in Hl as [Hc Hl].
    rewrite Ascii.eqb_sym, Hc. by apply IH.
Qed.

(** A qualified name [label:name] splits back into its two parts. *)
Lemma qualified_name_parts (label name : string) :
  PyStr.contains ":" label = false →
  PyStr.contains ":" name = false →
  PyStr.first (PyStr.split ":" (label +:+ ":" +:+ name)) = label
  ∧ PyStr.last (PyStr.split ":" (label +:+ ":" +:+ name)) = name.
Proof.
  intros Hl Hn. change (":" +:+ name) with (String ":" name).
  rewrite split_at_first by done. rewrite split_no_sep by done. done.
Qed.

Lemma prefix_app (p s : string) : String.prefix p (p +:+ s) = true.
Proof.
  induction p as [|c p IH]; simpl; [by destruct s|].
  by destruct (ascii_dec c c).
Qed.

Lemma remove_from_skip (pat l s : string) :
  PyStr.remove_from pat (String.length l) (l +:+ s) = PyStr.remove_from pat 0 s.
Proof. induction l as [|c l IH]; simpl; [done | apply IH]. Qed.

(** An occurrence at the front is dropped and the scan goes on behind it. *)
Lemma remove_front (pat s : string) :
  PyStr.truthy pat = true → PyStr.remove pat (pat +:+ s) = PyStr.remove pat s.
Proof.
  destruct pat as [|c pat]; [done|]. intros _. unfold PyStr.remove.
  change (PyStr.remove_from (String c pat) 0 (String c pat +:+ s))
    with (if String.prefix (String c pat) (String c pat +:+ s)
          then PyStr.remove_from (String c pat) (String.length pat) (pat +:+ s)
          else String c (PyStr.remove_from (String c pat) 0 (pat +:+ s))).
  by rewrite prefix_app, remove_from_skip.
Qed.

(** The key under which the resolver looks up [diggs:name] or [gml:name] is
    the bare [name]. *)
Lemma lookup_name_strips_label (name : string) :
  PyStr.contains ":" name = false →
  lookup_name ("diggs:" +:+ name) = name ∧ lookup_name ("gml:" +:+ name) = name.
Proof.
  intros Hn. unfold lookup_name. split.
  - assert (H1 : PyStr.remove "gml:" ("diggs:" +:+ name)
                 = "diggs:" +:+ PyStr.remove "gml:" name) by reflexivity.
    rewrite H1, (remove_absent ":" "gml:" name) by done.
    rewrite remove_front by done. by apply (remove_absent ":").
  - rewrite remove_front by done.
    rewrite (remove_absent ":" "gml:" name) by done. by apply (remove_absent ":").
Qed.

(** ** Registries *)

Lemma insert_all_snoc (l : list (string * Element)) (kv : string * Element)
    (m : gmap string Element) :
  insert_all (l ++ [kv]) m = <[fst kv := snd kv]> (insert_all l m).
Proof. unfold insert_all. by rewrite fold_left_app. Qed.

Lemma insert_all_app (l1 l2 : list (string * Element)) (m : gmap string Element) :
  insert_all (l1 ++ l2) m = insert_all l2 (insert_all l1 m).
Proof. unfold insert_all. by rewrite fold_left_app. Qed.

(** Inserting into a non-empty map is inserting into the empty one and
    filling the gaps from the map. *)
Lemma insert_all_union (l : list (string * Element)) (m : gmap string Element) :
  insert_all l m = insert_all l ∅ ∪ m.
Proof.
  induction l as [|kv l IH] using rev_ind.
  - unfold insert_all; simpl. by rewrite (left_id_L ∅ (∪)).
  - rewrite !insert_all_snoc, IH. by rewrite insert_union_l.
Qed.

(** An entry of the result was inserted from the list or was in the map. *)
Lemma insert_all_lookup (l : list (string * Element)) (m : gmap string Element)
    (k : string) (v : Element) :
  insert_all l m !! k = Some v → In (k, v) l ∨ m !! k = Some v.
Proof.
  induction l as [|[k' v'] l IH] using rev_ind; [by right|].
  rewrite insert_all_snoc. simpl. intros Hlook.
  destruct (decide (k' = k)) as [->|Hne].
  - rewrite lookup_insert_eq in Hlook. injection Hlook as ->.
    left. apply in_or_app. right. by left.
  - rewrite lookup_insert_ne in Hlook by done.
    destruct (IH Hlook) as [Hin|Hm]; [|by right].
    left. apply in_or_app. by left.
Qed.

Lemma fold_left_flat_map {A B C : Type} (f : C -> B -> C) (g : A -> list B)
    (l : list A) (c : C) :
  fold_left (fun acc a => fold_left f (g a) acc) l c = fold_left f (flat_map g l) c.
Proof.
  revert c. induction l as [|a l IH]; intros c; simpl; [done|].
  by rewrite fold_left_app, IH.
Qed.

Lemma fold_left_omap {A B C : Type} (f : C -> B -> C) (g : A -> option B)
    (l : list A) (c : C) :
  fold_left (fun acc a => match g a with Some b => f acc b | None => acc end) l c
  = fold_left f (omap g l) c.
Proof.
  revert c. induction l as [|a l IH]; intros c; [done|].
  change (omap g (a :: l))
    with (match g a with Some b => b :: omap g l | None => omap g l end).
  simpl. destruct (g a); simpl; apply IH.
Qed.

Lemma fold_left_pointwise {A C : Type} (f g : C -> A -> C) (l : list A) (c : C) :
  (∀ acc a, f acc a = g acc a) → fold_left f l c = fold_left g l c.
Proof.
  intros Hfg. revert c. induction l as [|a l IH]; intros c; simpl; [done|].
  by rewrite Hfg, IH.
Qed.

(** The registries of [load_schemas] are the entries of the parsed documents
    inserted one after the other. *)
Lemma collect_qualified_entries (kind : string) (schemas : list (Element * string))
    (namespace_dict : list (string * string)) :
  collect_qualified kind schemas namespace_dict
  = insert_all (qualified_entries kind schemas namespace_dict) ∅.
Proof.
  unfold collect_qualified, qualified_entries, insert_all.
  rewrite <- fold_left_flat_map. apply fold_left_pointwise. intros acc [root label].
  rewrite <- fold_left_omap. apply fold_left_pointwise. intros acc' def.
  unfold qualified_entry. simpl. by destruct (ET.get def "name") as [[|c name]|].
Qed.

Lemma collect_bare_entries (kind : string) (schemas : list (option Element))
    (namespaces : list (string * string)) :
  collect_bare kind schemas namespaces
  = insert_all (bare_entries kind schemas namespaces) ∅.
Proof.
  unfold collect_bare, bare_entries, insert_all.
  rewrite <- fold_left_flat_map. apply fold_left_pointwise. intros acc [root|]; [|done].
  rewrite <- fold_left_omap. apply fold_left_pointwise. intros acc' def.
  unfold bare_entry. simpl. by destruct (ET.get def "name") as [[|c name]|].
Qed.

Lemma get_all_attributes_bare (schemas : list (option Element))
    (namespaces : list (string * string)) :
  get_all_attributes schemas namespaces = collect_bare "attribute" schemas namespaces.
Proof. reflexivity. Qed.

(** The four components of what [load_schemas] returns. *)
Lemma load_schemas_fields (directory : string) (schema_files : list SchemaFile)
    (namespace_dict : list (string * string)) (loaded : Loaded) :
  load_schemas directory schema_files namespace_dict = Returns loaded →
  schema_files ≠ []
  ∧ schemas_with_ns loaded = omap parsed_with_label schema_files
  ∧ all_types loaded
    = insert_all (qualified_entries "complexType" (schemas_with_ns loaded) namespace_dict) ∅
  ∧ all_simpletypes loaded
    = insert_all (qualified_entries "simpleType" (schemas_with_ns loaded) namespace_dict) ∅
  ∧ all_attrs loaded
    = insert_all (bare_entries "attribute"
                    (map (fun sn => Some (fst sn)) (schemas_with_ns loaded))
                    namespace_dict) ∅.
Proof.
  unfold load_schemas. destruct schema_files as [|f files]; [done|].
  cbn [is_empty_list]. intros [= <-]. cbn [schemas_with_ns all_types all_simpletypes all_attrs].
  split_and!; try done.
  - apply collect_qualified_entries.
  - apply collect_qualified_entries.
  - rewrite get_all_attributes_bare. apply collect_bare_entries.
Qed.

Lemma qualified_entries_origin (kind : string) (schemas : list (Element * string))
    (namespace_dict : list (string * string)) (k : string) (def : Element) :
  In (k, def) (qualified_entries kind schemas namespace_dict) →
  ∃ (root : Element) (label name : string),
    In (root, label) schemas
    ∧ In def (ET.descendants root)
    ∧ ET.tag def = ET.qname namespace_dict "xs" kind
    ∧ ET.get def "name" = Some name
    ∧ PyStr.truthy name = true
    ∧ k = label +:+ ":" +:+ name.
Proof.
  unfold qualified_entries. intros Hin.
  apply in_flat_map in Hin as ([root label] & Hschema & Hin).
  apply list_elem_of_In, list_elem_of_omap in Hin as (d & Hd & Hentry).
  apply list_elem_of_In in Hd. unfold ET.findall_desc in Hd.
  apply filter_In in Hd as [Hdesc Htag]. apply String.eqb_eq in Htag.
  unfold qualified_entry in Hentry. simpl in Hentry.
  destruct (ET.get d "name") as [[|c name]|] eqn:Hname; try done.
  injection Hentry as <- <-. by exists root, label, (String c name).
Qed.

Lemma bare_entries_origin (kind : string) (schemas : list (option Element))
    (namespaces : list (string * string)) (k : string) (def : Element) :
  In (k, def) (bare_entries kind schemas namespaces) →
  ∃ root : Element,
    In (Some root) schemas
    ∧ In def (ET.descendants root)
    ∧ ET.tag def = ET.qname namespaces "xs" kind
    ∧ ET.get def "name" = Some k
    ∧ PyStr.truthy k = true.
Proof.
  unfold bare_entries. intros Hin.
  apply in_flat_map in Hin as ([root|] & Hschema & Hin); [|done].
  apply list_elem_of_In, list_elem_of_omap in Hin as (d & Hd & Hentry).
  apply list_elem_of_In in Hd. unfold ET.findall_desc in Hd.
  apply filter_In in Hd as [Hdesc Htag]. apply String.eqb_eq in Htag.
  unfold bare_entry in Hentry.
  destruct (ET.get d "name") as [[|c name]|] eqn:Hname; try done.
  injection Hentry as <- <-. by exists root.
Qed.

Lemma parsed_with_label_origin (schema_files : list SchemaFile)
    (root : Element) (label : string) :
  In (root, label) (omap parsed_with_label schema_files) →
  ∃ f : SchemaFile, In f schema_files ∧ parse_schema f = Some root ∧ ns_label f = label.
Proof.
  intros Hin. apply list_elem_of_In, list_elem_of_omap in Hin as (f & Hf & Hp).
  apply list_elem_of_In in Hf. unfold parsed_with_label in Hp.
  destruct (parse_schema f) as [r|] eqn:Hr; [|done].
  injection Hp as <- <-. by exists f.
Qed.

(** X1. Every entry of the type registry that [load_schemas] builds is a
    named [xs:complexType] element of one of the files that parsed, stored
    under the label of that file, a colon and its [name] attribute; every
    entry of the attribute table is a named [xs:attribute] element of such a
    file, stored under its bare [name]. *)
Theorem load_schemas_entries_named (directory : string)
    (schema_files : list SchemaFile) (namespace_dict : list (string * string))
    (loaded : Loaded) :
  load_schemas directory schema_files namespace_dict = Returns loaded →
  (∀ (k : string) (ct : Element),
      all_types loaded !! k = Some ct →
      ∃ (f : SchemaFile) (root : Element) (name : string),
        In f schema_files ∧ parse_schema f = Some root
        ∧ In ct (ET.descendants root)
        ∧ ET.tag ct = ET.qname namespace_dict "xs" "complexType"
        ∧ ET.get ct "name" = Some name ∧ PyStr.truthy name = true
        ∧ k = ns_label f +:+ ":" +:+ name)
  ∧ (∀ (k : string) (attr : Element),
      all_attrs loaded !! k = Some attr →
      ∃ (f : SchemaFile) (root : Element),
        In f schema_files ∧ parse_schema f = Some root
        ∧ In attr (ET.descendants root)
        ∧ ET.tag attr = ET.qname namespace_dict "xs" "attribute"
        ∧ ET.get attr "name" = Some k ∧ PyStr.truthy k = true).
Proof.
  intros Hload.
  destruct (load_schemas_fields _ _ _ _ Hload) as (_ & Hschemas & Htypes & _ & Hattrs).
  split.
  - intros k ct Hlook. rewrite Htypes in Hlook.
    apply insert_all_lookup in Hlook as [Hin|Hempty]; [|by rewrite lookup_empty in Hempty].
    apply qualified_entries_origin in Hin
      as (root & label & name & Hs & Hdesc & Htag & Hname & Htruthy & ->).
    rewrite Hschemas in Hs.
    apply parsed_with_label_origin in Hs as (f & Hf & Hroot & <-).
    by exists f, root, name.
  - intros k attr Hlook. rewrite Hattrs in Hlook.
    apply insert_all_lookup in Hlook as [Hin|Hempty]; [|by rewrite lookup_empty in Hempty].
    apply bare_entries_origin in Hin as (root & Hs & Hdesc & Htag & Hname & Htruthy).
    apply in_map_iff in Hs as ([r label] & Heq & Hs). injection Heq as ->.
    rewrite Hschemas in Hs.
    apply parsed_with_label_origin in Hs as (f & Hf & Hroot & _).
    by exists f, root.
Qed.

Lemma load_schemas_entries_named_witness :
  ∃ loaded : Loaded,
    load_schemas "v26" [Fx.file1; Fx.broken; Fx.file2] NS_26 = Returns loaded
    ∧ all_types loaded !! "diggs:Other" = Some Fx.other
    ∧ ∃ (f : SchemaFile) (root : Element) (name : string),
        In f [Fx.file1; Fx.broken; Fx.file2] ∧ parse_schema f = Some root
        ∧ "diggs:Other" = ns_label f +:+ ":" +:+ name.
Proof.
  destruct (load_schemas "v26" [Fx.file1; Fx.broken; Fx.file2] NS_26)
    as [loaded|e] eqn:Hload; [|by vm_compute in Hload].
  assert (Hother : all_types loaded !! "diggs:Other" = Some Fx.other).
  { vm_compute in Hload. injection Hload as <-. by vm_compute. }
  exists loaded. refine (conj eq_refl (conj Hother _)).
  destruct (proj1 (load_schemas_entries_named _ _ _ _ Hload) _ _ Hother)
    as (f & root & name & Hf & Hroot & _ & _ & _ & _ & Hk).
  by exists f, root, name.
Defined.

(** X2. When the files of a version are loaded in two batches one after the
    other, each registry is the registry of the second batch completed by the
    entries of the first that the second does not redefine: documents are
    merged and, for a name defined twice under the same label, the definition
    loaded later is the one kept. *)
Theorem load_schemas_later_document_wins (directory : string)
    (first_files second_files : list SchemaFile)
    (namespace_dict : list (string * string)) (all first second : Loaded) :
  load_schemas directory (first_files ++ second_files) namespace_dict = Returns all →
  load_schemas directory first_files namespace_dict = Returns first →
  load_schemas directory second_files namespace_dict = Returns second →
  schemas_with_ns all = schemas_with_ns first ++ schemas_with_ns second
  ∧ all_types all = all_types second ∪ all_types first
  ∧ all_simpletypes all = all_simpletypes second ∪ all_simpletypes first
  ∧ all_attrs all = all_attrs second ∪ all_attrs first.
Proof.
  intros Hall Hfirst Hsecond.
  destruct (load_schemas_fields _ _ _ _ Hall) as (_ & Hs & Ht & Hst & Ha).
  destruct (load_schemas_fields _ _ _ _ Hfirst) as (_ & Hs1 & Ht1 & Hst1 & Ha1).
  destruct (load_schemas_fields _ _ _ _ Hsecond) as (_ & Hs2 & Ht2 & Hst2 & Ha2).
  assert (Happ : schemas_with_ns all = schemas_with_ns first ++ schemas_with_ns second).
  { rewrite Hs, Hs1, Hs2. apply omap_app. }
  split; [done|].
  rewrite Ht, Hst, Ha, Ht1, Hst1, Ha1, Ht2, Hst2, Ha2, Happ.
  unfold qualified_entries, bare_entries.
  rewrite map_app, !flat_map_app, !insert_all_app.
  split_and!; apply insert_all_union.
Qed.

Lemma load_schemas_later_document_wins_witness :
  ∃ all first second : Loaded,
    load_schemas "v26" ([Fx.file1] ++ [Fx.file2]) NS_26 = Returns all
    ∧ load_schemas "v26" [Fx.file1] NS_26 = Returns first
    ∧ load_schemas "v26" [Fx.file2] NS_26 = Returns second
    ∧ all_types all = all_types second ∪ all_types first
    ∧ all_types first !! "diggs:Thing" = Some Fx.thing_v1
    ∧ all_types all !! "diggs:Thing" = Some Fx.thing_v2
    ∧ all_types all !! "diggs:Other" = Some Fx.other.
Proof.
  destruct (load_schemas "v26" ([Fx.file1] ++ [Fx.file2]) NS_26)
    as [all|e] eqn:Hall; [|by vm_compute in Hall].
  destruct (load_schemas "v26" [Fx.file1] NS_26)
    as [first|e] eqn:Hfirst; [|by vm_compute in Hfirst].
  destruct (load_schemas "v26" [Fx.file2] NS_26)
    as [second|e] eqn:Hsecond; [|by vm_compute in Hsecond].
  exists all, first, second.
  refine (conj eq_refl (conj eq_refl (conj eq_refl (conj _ _)))).
  - exact (proj1 (proj2 (load_schemas_later_document_wins _ _ _ _ _ _ _
                           Hall Hfirst Hsecond))).
  - vm_compute in Hall, Hfirst. injection Hall as <-. injection Hfirst as <-.
    split_and!; by vm_compute.
Defined.

(** ** Qualified registries and the resolver *)

Lemma load_schemas_qualified_keys (directory : string)
    (schema_files : list SchemaFile) (namespace_dict : list (string * string))
    (loaded : Loaded) :
  load_schemas directory schema_files namespace_dict = Returns loaded →
  qualified_keys (all_types loaded).
Proof.
  intros Hload k [ct Hlook].
  destruct (load_schemas_fields _ _ _ _ Hload) as (_ & _ & Htypes & _).
  rewrite Htypes in Hlook.
  apply insert_all_lookup in Hlook as [Hin|Hempty]; [|by rewrite lookup_empty in Hempty].
  apply qualified_entries_origin in Hin as (_ & label & name & _ & _ & _ & _ & _ & ->).
  rewrite contains_app. change (":" +:+ name) with (String ":" name). simpl.
  apply orb_true_r.
Qed.

Lemma resolve_content_model_stops (all_types all_attrs : gmap string Element)
    (namespaces : list (string * string)) (type_name : string)
    (visited : gset string) (depth : nat) :
  stops_early type_name visited depth = true →
  resolve_content_model all_types all_attrs namespaces type_name visited depth
  = empty_model.
Proof.
  intros Hstop. unfold resolve_content_model. by rewrite resolve_rec_stops.
Qed.

Lemma resolve_content_model_not_found (all_types all_attrs : gmap string Element)
    (namespaces : list (string * string)) (type_name : string)
    (visited : gset string) (depth : nat) :
  all_types !! lookup_name type_name = None →
  resolve_content_model all_types all_attrs namespaces type_name visited depth
  = empty_model.
Proof.
  intros Hnone. unfold resolve_content_model. by rewrite resolve_rec_not_found.
Qed.

(** Against a registry keyed by qualified names, the names [diggs:name] and
    [gml:name] are looked up under the bare [name] and never found. *)
Lemma qualified_keys_hide (all_types all_attrs : gmap string Element)
    (namespaces : list (string * string)) (name : string)
    (visited : gset string) (depth : nat) :
  qualified_keys all_types →
  PyStr.contains ":" name = false →
  resolve_content_model all_types all_attrs namespaces ("diggs:" +:+ name) visited depth
  = empty_model
  ∧ resolve_content_model all_types all_attrs namespaces ("gml:" +:+ name) visited depth
    = empty_model.
Proof.
  intros Hkeys Hname.
  assert (Hnone : all_types !! name = None).
  { destruct (all_types !! name) as [ct|] eqn:Hlook; [|done].
    rewrite (Hkeys name) in Hname; [done | by exists ct]. }
  destruct (lookup_name_strips_label name Hname) as [Hd Hg].
  split; apply resolve_content_model_not_found; by rewrite ?Hd, ?Hg.
Qed.

(** X3. The registries of [load_schemas] are keyed by qualified names, and
    [resolve_content_model] strips the labels [diggs:] and [gml:] before it
    looks a name up: for every type name without a colon, resolving
    [diggs:name] or [gml:name] against a loaded registry gives the empty
    content model, whatever the type declares. *)
Theorem loaded_registry_hides_diggs_and_gml (directory : string)
    (schema_files : list SchemaFile) (namespace_dict : list (string * string))
    (loaded : Loaded) (name : string) (all_attrs : gmap string Element)
    (namespaces : list (string * string)) (visited : gset string) (depth : nat) :
  load_schemas directory schema_files namespace_dict = Returns loaded →
  PyStr.contains ":" name = false →
  resolve_content_model (all_types loaded) all_attrs namespaces
                        ("diggs:" +:+ name) visited depth = empty_model
  ∧ resolve_content_model (all_types loaded) all_attrs namespaces
                          ("gml:" +:+ name) visited depth = empty_model.
Proof.
  intros Hload Hname. apply qualified_keys_hide; [|done].
  by apply (load_schemas_qualified_keys _ _ _ _ Hload).
Qed.

Lemma loaded_registry_hides_diggs_and_gml_witness :
  ∃ loaded : Loaded,
    load_schemas "v26" [Fx.file1] NS_26 = Returns loaded
    ∧ all_types loaded !! "diggs:Thing" = Some Fx.thing_v1
    ∧ fst (extract_local_elements Fx.thing_v1 NS_26)
      = [mkElementDef "a" "xs:string" "1" "1"]
    ∧ resolve_content_model (all_types loaded) (all_attrs loaded) NS_26
                            "diggs:Thing" ∅ 0 = empty_model.
Proof.
  destruct (load_schemas "v26" [Fx.file1] NS_26) as [loaded|e] eqn:Hload;
    [|by vm_compute in Hload].
  exists loaded. refine (conj eq_refl (conj _ (conj _ _))).
  - vm_compute in Hload. injection Hload as <-. by vm_compute.
  - by vm_compute.
  - exact (proj1 (loaded_registry_hides_diggs_and_gml "v26" [Fx.file1] NS_26 loaded
                    "Thing" (all_attrs loaded) NS_26 ∅ 0 Hload eq_refl)).
Defined.

(** X4. For a type [diggs:name] present in both versions and not renamed,
    [compare_type] compares two empty content models: it reports no new,
    missing, expanded, restricted or changed member and says compatible,
    whatever the two definitions declare. *)
Theorem compare_type_blind_to_diggs_members (set_iter : list string -> list string)
    (self : Analyzer) (name : string) (ct_old ct_new : Element) (cache : Cache) :
  qualified_keys (old_types self) →
  qualified_keys (new_types self) →
  PyStr.contains ":" name = false →
  old_types self !! ("diggs:" +:+ name) = Some ct_old →
  new_types self !! ("diggs:" +:+ name) = Some ct_new →
  ∃ result : TypeResult,
    compare_type set_iter self ("diggs:" +:+ name) None cache = Returns (result, cache)
    ∧ new_elements result = [] ∧ missing_elements result = []
    ∧ expanded_cardinality result = [] ∧ restricted_cardinality result = []
    ∧ type_changes result = [] ∧ compatible result = "Yes".
Proof.
  intros Hko Hkn Hname Hold Hnew. unfold compare_type.
  cbn [target_name]. rewrite Hnew, Hold. cbn [opt_truthy].
  rewrite (proj1 (qualified_keys_hide (old_types self) (old_attrs self) NS_26
                    name ∅ 0 Hko Hname)).
  rewrite (proj1 (qualified_keys_hide (new_types self) (new_attrs self) NS_3
                    name ∅ 0 Hkn Hname)).
  unfold empty_model. cbn.
  destruct (bool_decide _); [by eexists|].
  destruct (get_base_type_name ct_new NS_3) as [[|c b]|]; cbn; by eexists.
Qed.

Lemma compare_type_blind_to_diggs_members_witness :
  fst (extract_local_elements Fx.old_thing NS_26)
  = [mkElementDef "a" "xs:string" "1" "1"; mkElementDef "b" "xs:string" "1" "1"]
  ∧ fst (extract_local_elements Fx.new_thing NS_3)
    = [mkElementDef "z" "xs:int" "1" "1"]
  ∧ (∃ result : TypeResult,
       compare_type id Fx.diggs_analyzer ("diggs:" +:+ "Thing") None ∅
       = Returns (result, ∅)
       ∧ missing_elements result = [] ∧ compatible result = "Yes")
  ∧ (∃ result : TypeResult,
       compare_type id Fx.eml_analyzer "eml:Thing" None ∅ = Returns (result, ∅)
       ∧ missing_elements result = ["a"; "b"; "@x"] ∧ compatible result = "No").
Proof.
  assert (Hkeys : ∀ ct, qualified_keys {["diggs:Thing" := ct]}).
  { intros ct k [v Hk]. apply lookup_singleton_Some in Hk as [<- _]. reflexivity. }
  refine (conj _ (conj _ (conj _ _))); [by vm_compute | by vm_compute | |].
  - destruct (compare_type_blind_to_diggs_members id Fx.diggs_analyzer "Thing"
                Fx.old_thing Fx.new_thing ∅ (Hkeys _) (Hkeys _) eq_refl eq_refl eq_refl)
      as (result & Hres & _ & Hmiss & _ & _ & _ & Hcompat).
    by exists result.
  - eexists. split; [by vm_compute|]. by vm_compute.
Defined.

(** ** Resolved dictionaries *)

Lemma od_set_In {V : Type} (k0 : string) (v0 : V) (d : list (string * V))
    (k : string) (v : V) :
  In (k, v) (OD.set k0 v0 d) → (k, v) = (k0, v0) ∨ In (k, v) d.
Proof.
  induction d as [|[k' v'] d IH]; simpl.
  - intros [H|[]]. by left.
  - destruct (String.eqb k' k0); simpl.
    + intros [H|H]; [by left | right; by right].
    + intros [H|H]; [right; by left|].
      destruct (IH H) as [?|?]; [by left | right; by right].
Qed.

Lemma overlay_keyed {V : Type} (key : V -> string) (l : list V)
    (d : list (string * V)) :
  keyed_by key d → keyed_by key (overlay key l d).
Proof.
  intros Hd. induction l as [|x l IH] using rev_ind; [done|].
  rewrite overlay_snoc. intros k v Hin.
  apply od_set_In in Hin as [[= -> ->]|Hin]; [done | by apply IH].
Qed.

Lemma od_update_keyed {V : Type} (key : V -> string) (d other : list (string * V)) :
  keyed_by key d → keyed_by key other → keyed_by key (OD.update d other).
Proof.
  unfold OD.update. revert d.
  induction other as [|[k0 v0] other IH]; intros d Hd Hother; simpl; [done|].
  apply IH.
  - intros k v Hin. apply od_set_In in Hin as [[= -> ->]|Hin]; [|by apply Hd].
    apply Hother. by left.
  - intros k v Hin. apply Hother. by right.
Qed.

Lemma keyed_by_nil {V : Type} (key : V -> string) : keyed_by key [].
Proof. by intros k v []. Qed.

Lemma resolve_content_model_keyed (all_types all_attrs : gmap string Element)
    (namespaces : list (string * string)) (n : nat) :
  ∀ (type_name : string) (visited : gset string) (depth : nat),
    (21 - depth <= n)%nat →
    let cm := resolve_content_model all_types all_attrs namespaces
                                    type_name visited depth in
    keyed_by el_name (fst cm) ∧ keyed_by at_name (snd cm).
Proof.
  induction n as [|n IH]; intros type_name visited depth Hn; simpl.
  - rewrite resolve_content_model_stops; [split; apply keyed_by_nil|].
    unfold stops_early. replace (20 <? depth)%nat with true; [done|].
    symmetry. apply Nat.ltb_lt. lia.
  - destruct (stops_early type_name visited depth) eqn:Hstop.
    { rewrite resolve_content_model_stops by done. split; apply keyed_by_nil. }
    destruct (all_types !! lookup_name type_name) as [complex_type|] eqn:Hfound.
    2: { rewrite resolve_content_model_not_found by done. split; apply keyed_by_nil. }
    rewrite (resolve_content_model_found _ _ _ _ _ _ complex_type) by done.
    cbv zeta.
    assert (Hbase : ∀ base,
      keyed_by el_name (fst (resolve_content_model all_types all_attrs namespaces base
                               ({[type_name]} ∪ visited) (S depth)))
      ∧ keyed_by at_name (snd (resolve_content_model all_types all_attrs namespaces base
                                 ({[type_name]} ∪ visited) (S depth)))).
    { intros base. apply IH. lia. }
    destruct (derivation complex_type namespaces) as [base|base|]; cbn [fst snd];
      split; apply (overlay_keyed el_name) || apply (overlay_keyed at_name);
      try apply Hbase; apply keyed_by_nil.
Qed.

(** X5. Both dictionaries of every resolved content model are well formed:
    no name occurs twice, and every element and attribute entry is stored
    under the name it carries. *)
Theorem resolved_model_well_keyed (all_types all_attrs : gmap string Element)
    (namespaces : list (string * string)) (type_name : string)
    (visited : gset string) (depth : nat) :
  let cm := resolve_content_model all_types all_attrs namespaces
                                  type_name visited depth in
  NoDup (OD.keys (fst cm)) ∧ NoDup (OD.keys (snd cm))
  ∧ keyed_by el_name (fst cm) ∧ keyed_by at_name (snd cm).
Proof.
  cbv zeta.
  destruct (resolve_content_model_NoDup all_types all_attrs namespaces
              type_name visited depth) as [He Ha].
  destruct (resolve_content_model_keyed all_types all_attrs namespaces
              (21 - depth) type_name visited depth (Nat.le_refl _)) as [Hke Hka].
  done.
Qed.

Lemma resolve_rec_found_0 (all_types all_attrs : gmap string Element)
    (namespaces : list (string * string)) (type_name : string)
    (visited : gset string) (depth : nat) (complex_type : Element) :
  stops_early type_name visited depth = false →
  all_types !! lookup_name type_name = Some complex_type →
  resolve_rec all_types all_attrs namespaces 0 type_name visited depth =
    match derivation complex_type namespaces with
    | NoBase =>
        Some (add_local_elements (fst (extract_local_elements complex_type namespaces)) [],
              add_local_attributes
                (extract_local_attributes complex_type all_attrs namespaces) [])
    | _ => None
    end.
Proof.
  unfold stops_early, lookup_name. intros Hgo Hfound.
  apply orb_false_elim in Hgo as [Hgo H4].
  apply orb_false_elim in Hgo as [Hgo H3].
  apply orb_false_elim in Hgo as [H1 H2].
  simpl. rewrite H1, H2. simpl. rewrite H3, H4. simpl. rewrite Hfound.
  by destruct (derivation complex_type namespaces).
Qed.

(** ** The namespace dictionary *)

Section SameXs.
Variables ns1 ns2 : list (string * string).
Hypothesis same_xs : ET.lookup_attr "xs" ns1 = ET.lookup_attr "xs" ns2.

Lemma qname_same_xs (local : string) :
  ET.qname ns1 "xs" local = ET.qname ns2 "xs" local.
Proof. unfold ET.qname. by rewrite same_xs. Qed.

Lemma findall_desc_same_xs (e : Element) (local : string) :
  ET.findall_desc e ns1 local = ET.findall_desc e ns2 local.
Proof. unfold ET.findall_desc. by rewrite qname_same_xs. Qed.

Lemma findall_child_same_xs (e : Element) (local : string) :
  ET.findall_child e ns1 local = ET.findall_child e ns2 local.
Proof. unfold ET.findall_child. by rewrite qname_same_xs. Qed.

Lemma find_desc_same_xs (e : Element) (local : string) :
  ET.find_desc e ns1 local = ET.find_desc e ns2 local.
Proof. unfold ET.find_desc. by rewrite findall_desc_same_xs. Qed.

Lemma get_base_type_name_same_xs (complex_type : Element) :
  get_base_type_name complex_type ns1 = get_base_type_name complex_type ns2.
Proof. unfold get_base_type_name. by rewrite !find_desc_same_xs. Qed.

Lemma extract_from_groups_same_xs (kind : string) (node : Element)
    (elements : list ElementDef) :
  extract_from_groups kind node ns1 elements
  = extract_from_groups kind node ns2 elements.
Proof.
  unfold extract_from_groups. rewrite findall_desc_same_xs.
  apply fold_left_pointwise. intros acc grp. by rewrite findall_child_same_xs.
Qed.

Lemma extract_local_elements_same_xs (complex_type : Element) :
  extract_local_elements complex_type ns1 = extract_local_elements complex_type ns2.
Proof.
  unfold extract_local_elements, extract_elements_from_node.
  rewrite !find_desc_same_xs.
  destruct (ET.find_desc complex_type ns2 "extension");
    [|destruct (ET.find_desc complex_type ns2 "restriction")];
    by rewrite !extract_from_groups_same_xs.
Qed.

Lemma extract_local_attributes_same_xs (complex_type : Element)
    (all_attrs : gmap string Element) :
  extract_local_attributes complex_type all_attrs ns1
  = extract_local_attributes complex_type all_attrs ns2.
Proof.
  unfold extract_local_attributes. by rewrite findall_desc_same_xs.
Qed.

Lemma derivation_same_xs (complex_type : Element) :
  derivation complex_type ns1 = derivation complex_type ns2.
Proof.
  unfold derivation.
  by rewrite get_base_type_name_same_xs, extract_local_elements_same_xs.
Qed.

Lemma resolve_rec_same_xs (all_types all_attrs : gmap string Element) (fuel : nat)
    (type_name : string) (visited : gset string) (depth : nat) :
  resolve_rec all_types all_attrs ns1 fuel type_name visited depth
  = resolve_rec all_types all_attrs ns2 fuel type_name visited depth.
Proof.
  revert type_name visited depth.
  induction fuel as [|fuel IH]; intros type_name visited depth.
  - destruct (stops_early type_name visited depth) eqn:Hstop.
    { by rewrite !resolve_rec_stops. }
    destruct (all_types !! lookup_name type_name) as [complex_type|] eqn:Hfound.
    2: { by rewrite !resolve_rec_not_found. }
    rewrite !(resolve_rec_found_0 _ _ _ _ _ _ complex_type) by done.
    by rewrite derivation_same_xs, extract_local_elements_same_xs,
      extract_local_attributes_same_xs.
  - destruct (stops_early type_name visited depth) eqn:Hstop.
    { by rewrite !resolve_rec_stops. }
    destruct (all_types !! lookup_name type_name) as [complex_type|] eqn:Hfound.
    2: { by rewrite !resolve_rec_not_found. }
    rewrite !(resolve_rec_found _ _ _ _ _ _ _ complex_type) by done.
    rewrite derivation_same_xs, extract_local_elements_same_xs,
      extract_local_attributes_same_xs.
    destruct (derivation complex_type ns2) as [base|base|]; by rewrite ?IH.
Qed.

End SameXs.

(** X6. Resolution consults the namespace dictionary only for the URI
    bound to [xs]: under two dictionaries that bind [xs] alike, such as
    [NS_26] and [NS_3], every type of every registry resolves to the same
    content model. *)
Theorem resolution_depends_on_xs_only (ns1 ns2 : list (string * string))
    (all_types all_attrs : gmap string Element) (type_name : string)
    (visited : gset string) (depth : nat) :
  ET.lookup_attr "xs" ns1 = ET.lookup_attr "xs" ns2 →
  resolve_content_model all_types all_attrs ns1 type_name visited depth
  = resolve_content_model all_types all_attrs ns2 type_name visited depth.
Proof.
  intros Hxs. unfold resolve_content_model.
  by rewrite (resolve_rec_same_xs ns1 ns2 Hxs).
Qed.

Lemma resolution_depends_on_xs_only_witness :
  ET.lookup_attr "xs" NS_26 = ET.lookup_attr "xs" NS_3
  ∧ ET.lookup_attr "diggs" NS_26 ≠ ET.lookup_attr "diggs" NS_3
  ∧ resolve_content_model Ex.registry ∅ NS_26 "Override" ∅ 0
    = resolve_content_model Ex.registry ∅ NS_3 "Override" ∅ 0.
Proof.
  assert (Hxs : ET.lookup_attr "xs" NS_26 = ET.lookup_attr "xs" NS_3) by reflexivity.
  refine (conj Hxs (conj _ _)); [by vm_compute|].
  exact (resolution_depends_on_xs_only NS_26 NS_3 Ex.registry ∅ "Override" ∅ 0 Hxs).
Defined.

(** ** The comparison record of a complex type *)

(** [compare_type] for a type found on both sides is the six loops run on
    the two resolved models. *)
Lemma compare_type_found (set_iter : list string -> list string) (self : Analyzer)
    (qualified_name : string) (mapped_name : option string) (cache : Cache)
    (ct_old ct_new : Element) :
  old_types self !! qualified_name = Some ct_old →
  new_types self !! target_name qualified_name mapped_name = Some ct_new →
  compare_type set_iter self qualified_name mapped_name cache
  = Returns (compare_members set_iter self
               (resolve_content_model (old_types self) (old_attrs self) NS_26
                                      qualified_name ∅ 0)
               (resolve_content_model (new_types self) (new_attrs self) NS_3
                                      (target_name qualified_name mapped_name) ∅ 0)
               (start_result qualified_name mapped_name ct_old ct_new) cache).
Proof.
  intros Hold Hnew. unfold compare_type. rewrite Hnew, Hold.
  destruct (resolve_content_model (old_types self) _ _ _ _ _) as [oe oa].
  destruct (resolve_content_model (new_types self) _ _ _ _ _) as [ne na].
  match goal with
  | |- (let '(_, _) := ?X in _) = _ => destruct X as [r5 c5] eqn:E
  end.
  unfold compare_members. cbn [fst snd].
  match goal with
  | |- _ = Returns (final_note (fold_left _ _ (fst ?X)), snd ?X) =>
      replace X with (r5, c5) by (symmetry; exact E)
  end.
  reflexivity.
Qed.

Lemma compare_type_not_found (set_iter : list string -> list string) (self : Analyzer)
    (qualified_name : string) (mapped_name : option string) (cache : Cache) :
  new_types self !! target_name qualified_name mapped_name = None →
  compare_type set_iter self qualified_name mapped_name cache
  = Returns (mkTypeResult qualified_name "Yes" "" "" [] [] [] [] []
                          "Type not found in new version" "No", cache).
Proof. intros Hnew. unfold compare_type. by rewrite Hnew. Qed.

Lemma Returns_inj {T : Type} (a b : T) : Returns a = Returns b → a = b.
Proof. by intros [= ->]. Qed.

Lemma fold_left_invariant {A B : Type} (P : A -> Prop) (f : A -> B -> A)
    (l : list B) (a : A) :
  (∀ a x, P a → P (f a x)) → P a → P (fold_left f l a).
Proof.
  intros Hf. revert a. induction l as [|x l IH]; intros a Ha; simpl; [done|].
  apply IH. by apply Hf.
Qed.

Lemma fold_left_reaches {A B : Type} (P : A -> Prop) (f : A -> B -> A)
    (l : list B) (a : A) (x : B) :
  In x l → (∀ a, P (f a x)) → (∀ a y, P a → P (f a y)) → P (fold_left f l a).
Proof.
  intros Hin Hx Hf. revert a.
  induction l as [|y l IH]; intros a; simpl; [done|].
  destruct Hin as [->|Hin]; [|by apply IH].
  apply fold_left_invariant; [done | apply Hx].
Qed.

Section KeptByAssignments.
Variable P : TypeResult -> Prop.
Hypothesis kept : kept_by_assignments P.

Lemma kept_new_elem_step (ne : list (string * ElementDef)) (r : TypeResult) (n : string) :
  P r → P (new_elem_step ne r n).
Proof.
  destruct kept as (Hi & Hn & _). intros Hr. unfold new_elem_step.
  destruct (OD.get n ne); [|done]. cbv zeta.
  destruct (negb _); [apply Hi|]; by apply Hn.
Qed.

Lemma kept_new_attr_step (na : list (string * AttributeDef)) (r : TypeResult) (n : string) :
  P r → P (new_attr_step na r n).
Proof.
  destruct kept as (Hi & Hn & _). intros Hr. unfold new_attr_step.
  destruct (OD.get n na); [|done]. cbv zeta.
  destruct (String.eqb _ _); [apply Hi|]; by apply Hn.
Qed.

Lemma kept_missing_elem_step (r : TypeResult) (n : string) :
  P r → P (missing_elem_step r n).
Proof. destruct kept as (Hi & _ & Hm & _). intros Hr. by apply Hi, Hm. Qed.

Lemma kept_missing_attr_step (r : TypeResult) (n : string) :
  P r → P (missing_attr_step r n).
Proof. destruct kept as (Hi & _ & Hm & _). intros Hr. by apply Hi, Hm. Qed.

Lemma kept_compare_common_elem (set_iter : list string -> list string)
    (self : Analyzer) (oe ne : list (string * ElementDef))
    (rc : TypeResult * Cache) (n : string) :
  P (fst rc) → P (fst (compare_common_elem set_iter self oe ne rc n)).
Proof.
  destruct kept as (Hi & _ & _ & He & Hr & Ht & _). destruct rc as [r c].
  cbn [fst]. intros HP. unfold compare_common_elem.
  destruct (OD.get n oe) as [e_old|]; [|done].
  destruct (OD.get n ne) as [e_new|]; [|done].
  set (r' := if cardinality_expanded e_old e_new then _ else _).
  assert (HP' : P r').
  { subst r'. destruct (cardinality_expanded e_old e_new); [by apply He|].
    destruct (cardinality_restricted e_old e_new); [by apply Hi, Hr | done]. }
  clearbody r'. destruct (_ && _); [|done].
  destruct (is_type_change_compatible _ _ _ _ _) as [[ok reason] c'].
  destruct ok; cbn [fst]; [by apply Ht | by apply Hi, Ht].
Qed.

Lemma kept_compare_common_attr (oa na : list (string * AttributeDef))
    (r : TypeResult) (n : string) :
  P r → P (compare_common_attr oa na r n).
Proof.
  destruct kept as (Hi & _ & _ & He & Hr & _). intros HP. unfold compare_common_attr.
  destruct (OD.get n oa) as [a_old|]; [|done].
  destruct (OD.get n na) as [a_new|]; [|done].
  destruct (_ && _); [by apply He|].
  destruct (_ && _); [by apply Hi, Hr | done].
Qed.

Lemma kept_final_note (r : TypeResult) : P r → P (final_note r).
Proof.
  destruct kept as (_ & _ & _ & _ & _ & _ & Hw). intros HP. unfold final_note.
  destruct (_ && _); [by apply Hw | done].
Qed.

Lemma kept_common_loops (set_iter : list string -> list string) (self : Analyzer)
    (cm_old cm_new : ContentModel) (r4 : TypeResult) (cache : Cache) :
  P r4 →
  P (final_note
       (fold_left (compare_common_attr (snd cm_old) (snd cm_new))
          (PyStr.sorted (names_inter (OD.keys (snd cm_old)) (OD.keys (snd cm_new))))
          (fst (fold_left (compare_common_elem set_iter self (fst cm_old) (fst cm_new))
                  (PyStr.sorted (names_inter (OD.keys (fst cm_old))
                                             (OD.keys (fst cm_new))))
                  (r4, cache))))).
Proof.
  intros HP. apply kept_final_note.
  apply fold_left_invariant; [intros; by apply kept_compare_common_attr|].
  apply (fold_left_invariant (fun rc => P (fst rc)));
    [intros; by apply kept_compare_common_elem | done].
Qed.

(** A property that no assignment undoes and that holds of the record before
    the loops holds of the record [compare_type] returns. *)
Lemma kept_compare_members (set_iter : list string -> list string) (self : Analyzer)
    (cm_old cm_new : ContentModel) (start : TypeResult) (cache : Cache) :
  P start → P (fst (compare_members set_iter self cm_old cm_new start cache)).
Proof.
  intros HP. unfold compare_members. cbn [fst]. apply kept_common_loops.
  apply fold_left_invariant; [intros; by apply kept_missing_attr_step|].
  apply fold_left_invariant; [intros; by apply kept_missing_elem_step|].
  apply fold_left_invariant; [intros; by apply kept_new_attr_step|].
  apply fold_left_invariant; [intros; by apply kept_new_elem_step | done].
Qed.

End KeptByAssignments.

Lemma insert_sorted_In (x y : string) (l : list string) :
  In y (PyStr.insert_sorted x l) ↔ y = x ∨ In y l.
Proof.
  induction l as [|z l IH]; simpl; [intuition|].
  destruct (String.leb x z); simpl; [intuition|]. rewrite IH. intuition.
Qed.

(** [sorted] keeps the members. *)
Lemma sorted_In (x : string) (l : list string) : In x (PyStr.sorted l) ↔ In x l.
Proof.
  unfold PyStr.sorted. induction l as [|y l IH]; simpl; [done|].
  rewrite insert_sorted_In, IH. intuition.
Qed.

Lemma existsb_eqb_In (n : string) (l : list string) :
  existsb (String.eqb n) l = true ↔ In n l.
Proof. rewrite existsb_eqb_elem_of. apply list_elem_of_In. Qed.

Lemma names_diff_In (n : string) (a b : list string) :
  In n (names_diff a b) ↔ In n a ∧ ¬ In n b.
Proof.
  unfold names_diff. rewrite filter_In, negb_true_iff.
  rewrite <- (existsb_eqb_In n b).
  destruct (existsb (String.eqb n) b); intuition congruence.
Qed.

Lemma names_inter_In (n : string) (a b : list string) :
  In n (names_inter a b) ↔ In n a ∧ In n b.
Proof. unfold names_inter. by rewrite filter_In, existsb_eqb_In. Qed.

Lemma names_diff_self (l : list string) : names_diff l l = [].
Proof.
  destruct (names_diff l l) as [|n rest] eqn:E; [done|].
  assert (Hin : In n (names_diff l l)) by (rewrite E; by left).
  apply names_diff_In in Hin as [Hin Hnot]. done.
Qed.

Lemma od_get_Some_In {V : Type} (n : string) (v : V) (d : list (string * V)) :
  OD.get n d = Some v → In n (OD.keys d).
Proof.
  induction d as [|[k w] d IH]; simpl; [done|].
  destruct (String.eqb k n) eqn:E; [|by right; apply IH].
  apply String.eqb_eq in E. by left.
Qed.

Lemma kept_name (q : string) : kept_by_assignments (fun r => name r = q).
Proof. by repeat split; intros; destruct r. Qed.

Lemma kept_type_removed (t : string) :
  kept_by_assignments (fun r => type_removed r = t).
Proof. by repeat split; intros; destruct r. Qed.

Lemma kept_incompatible : kept_by_assignments (fun r => compatible r = "No").
Proof. by repeat split; intros; destruct r. Qed.

Lemma kept_missing (item : string) :
  kept_by_assignments (fun r => In item (missing_elements r)).
Proof.
  repeat split; intros; destruct r; simpl in *; try done.
  apply in_or_app. by left.
Qed.

Lemma kept_new (item : string) :
  kept_by_assignments (fun r => In item (new_elements r)).
Proof.
  repeat split; intros; destruct r; simpl in *; try done.
  apply in_or_app. by left.
Qed.

Lemma kept_both (P Q : TypeResult -> Prop) :
  kept_by_assignments P → kept_by_assignments Q →
  kept_by_assignments (fun r => P r ∧ Q r).
Proof.
  intros (p1 & p2 & p3 & p4 & p5 & p6 & p7) (q1 & q2 & q3 & q4 & q5 & q6 & q7).
  repeat split; intros; intuition.
Qed.

(** X7. For a type found in both versions, every element of the old
    resolved model that the new one lacks is listed in [missing_elements],
    every such attribute is listed there behind an [@], and either makes the
    record incompatible: nothing that follows in [compare_type] takes the
    entry or the verdict back. *)
Theorem compare_type_flags_removed_members (set_iter : list string -> list string)
    (self : Analyzer) (qualified_name : string) (mapped_name : option string)
    (cache cache' : Cache) (ct_old ct_new : Element) (result : TypeResult) :
  old_types self !! qualified_name = Some ct_old →
  new_types self !! target_name qualified_name mapped_name = Some ct_new →
  compare_type set_iter self qualified_name mapped_name cache
  = Returns (result, cache') →
  let cm_old := resolve_content_model (old_types self) (old_attrs self) NS_26
                                      qualified_name ∅ 0 in
  let cm_new := resolve_content_model (new_types self) (new_attrs self) NS_3
                  (target_name qualified_name mapped_name) ∅ 0 in
  (∀ n : string,
      In n (OD.keys (fst cm_old)) → ¬ In n (OD.keys (fst cm_new)) →
      In n (missing_elements result) ∧ compatible result = "No")
  ∧ (∀ n : string,
      In n (OD.keys (snd cm_old)) → ¬ In n (OD.keys (snd cm_new)) →
      In ("@" +:+ n) (missing_elements result) ∧ compatible result = "No").
Proof.
  intros Hold Hnew Hres. cbv zeta.
  rewrite (compare_type_found _ _ _ _ _ _ _ Hold Hnew) in Hres.
  apply Returns_inj, (f_equal fst) in Hres. cbn [fst] in Hres. rewrite <- Hres.
  split; intros n Hin Hnot.
  - set (P := fun r => In n (missing_elements r) ∧ compatible r = "No").
    assert (Hkept : kept_by_assignments P)
      by apply (kept_both _ _ (kept_missing n) kept_incompatible).
    unfold compare_members. cbn [fst]. apply (kept_common_loops P Hkept).
    apply (fold_left_invariant P);
      [intros; by apply (kept_missing_attr_step P Hkept)|].
    apply (fold_left_reaches P _ _ _ n).
    + apply sorted_In, names_diff_In. done.
    + intros r. unfold P, missing_elem_step. destruct r; simpl. split; [|done].
      apply in_or_app. right. by left.
    + intros; by apply (kept_missing_elem_step P Hkept).
  - set (P := fun r => In ("@" +:+ n) (missing_elements r) ∧ compatible r = "No").
    assert (Hkept : kept_by_assignments P)
      by apply (kept_both _ _ (kept_missing ("@" +:+ n)) kept_incompatible).
    unfold compare_members. cbn [fst]. apply (kept_common_loops P Hkept).
    apply (fold_left_reaches P _ _ _ n).
    + apply sorted_In, names_diff_In. done.
    + intros r. unfold P, missing_attr_step. destruct r; simpl. split; [|done].
      apply in_or_app. right. by left.
    + intros; by apply (kept_missing_attr_step P Hkept).
Qed.

Lemma compare_type_flags_removed_members_witness :
  ∃ result : TypeResult,
    compare_type id Fx.eml_analyzer "eml:Thing" None ∅ = Returns (result, ∅)
    ∧ In "a" (missing_elements result)
    ∧ In ("@" +:+ "x") (missing_elements result)
    ∧ compatible result = "No".
Proof.
  destruct (compare_type id Fx.eml_analyzer "eml:Thing" None ∅) as [[result c]|e] eqn:Hres;
    [|by vm_compute in Hres].
  assert (Hc : c = ∅) by (vm_compute in Hres; by injection Hres as _ <-).
  subst c. exists result.
  destruct (compare_type_flags_removed_members id Fx.eml_analyzer "eml:Thing" None
              ∅ ∅ Fx.old_thing Fx.new_thing result eq_refl eq_refl Hres)
    as [Helems Hattrs].
  destruct (Helems "a") as [Ha Hno]; [vm_compute; tauto | by vm_compute; intros [|[]]|].
  destruct (Hattrs "x") as [Hx _]; [vm_compute; tauto | by vm_compute|].
  done.
Defined.

(** X8. For a type found in both versions, every element of the new
    resolved model that the old one lacks is listed in [new_elements] with its
    cardinality, and makes the record incompatible unless its [minOccurs] is
    the string ["0"]; every such attribute is listed with its [use], and makes
    the record incompatible when its [use] is ["required"]. *)
Theorem compare_type_flags_new_required_members
    (set_iter : list string -> list string)
    (self : Analyzer) (qualified_name : string) (mapped_name : option string)
    (cache cache' : Cache) (ct_old ct_new : Element) (result : TypeResult) :
  old_types self !! qualified_name = Some ct_old →
  new_types self !! target_name qualified_name mapped_name = Some ct_new →
  compare_type set_iter self qualified_name mapped_name cache
  = Returns (result, cache') →
  let cm_old := resolve_content_model (old_types self) (old_attrs self) NS_26
                                      qualified_name ∅ 0 in
  let cm_new := resolve_content_model (new_types self) (new_attrs self) NS_3
                  (target_name qualified_name mapped_name) ∅ 0 in
  (∀ (n : string) (e : ElementDef),
      OD.get n (fst cm_new) = Some e → ¬ In n (OD.keys (fst cm_old)) →
      In (n +:+ format_cardinality (minOccurs e) (maxOccurs e)) (new_elements result)
      ∧ (minOccurs e ≠ "0" → compatible result = "No"))
  ∧ (∀ (n : string) (a : AttributeDef),
      OD.get n (snd cm_new) = Some a → ¬ In n (OD.keys (snd cm_old)) →
      In ("@" +:+ n +:+ "(" +:+ use a +:+ ")") (new_elements result)
      ∧ (use a = "required" → compatible result = "No")).
Proof.
  intros Hold Hnew Hres. cbv zeta.
  rewrite (compare_type_found _ _ _ _ _ _ _ Hold Hnew) in Hres.
  apply Returns_inj, (f_equal fst) in Hres. cbn [fst] in Hres. rewrite <- Hres.
  split.
  - intros n e Hget Hnot.
    set (item := n +:+ format_cardinality (minOccurs e) (maxOccurs e)).
    set (P := fun r => In item (new_elements r)
                       ∧ (minOccurs e ≠ "0" → compatible r = "No")).
    assert (Hkept : kept_by_assignments P).
    { destruct (kept_new item) as (n1 & n2 & n3 & n4 & n5 & n6 & n7).
      destruct kept_incompatible as (c1 & c2 & c3 & c4 & c5 & c6 & c7).
      unfold P. repeat split; intros; intuition. }
    unfold compare_members. cbn [fst]. apply (kept_common_loops P Hkept).
    apply (fold_left_invariant P);
      [intros; by apply (kept_missing_attr_step P Hkept)|].
    apply (fold_left_invariant P);
      [intros; by apply (kept_missing_elem_step P Hkept)|].
    apply (fold_left_invariant P);
      [intros; by apply (kept_new_attr_step P Hkept)|].
    apply (fold_left_reaches P _ _ _ n).
    + apply sorted_In, names_diff_In. split; [by apply (od_get_Some_In _ e) | done].
    + intros r. unfold P, new_elem_step. rewrite Hget. cbv zeta.
      destruct (String.eqb (minOccurs e) "0") eqn:E; simpl.
      * apply String.eqb_eq in E. destruct r; simpl. split; [|done].
        apply in_or_app. right. by left.
      * destruct r; simpl. split; [|done]. apply in_or_app. right. by left.
    + intros; by apply (kept_new_elem_step P Hkept).
  - intros n a Hget Hnot.
    set (item := "@" +:+ n +:+ "(" +:+ use a +:+ ")").
    set (P := fun r => In item (new_elements r)
                       ∧ (use a = "required" → compatible r = "No")).
    assert (Hkept : kept_by_assignments P).
    { destruct (kept_new item) as (n1 & n2 & n3 & n4 & n5 & n6 & n7).
      destruct kept_incompatible as (c1 & c2 & c3 & c4 & c5 & c6 & c7).
      unfold P. repeat split; intros; intuition. }
    unfold compare_members. cbn [fst]. apply (kept_common_loops P Hkept).
    apply (fold_left_invariant P);
      [intros; by apply (kept_missing_attr_step P Hkept)|].
    apply (fold_left_invariant P);
      [intros; by apply (kept_missing_elem_step P Hkept)|].
    apply (fold_left_reaches P _ _ _ n).
    + apply sorted_In, names_diff_In. split; [by apply (od_get_Some_In _ a) | done].
    + intros r. unfold P, new_attr_step. rewrite Hget. cbv zeta.
      destruct (String.eqb (use a) "required") eqn:E; simpl.
      * destruct r; simpl. split; [|done]. apply in_or_app. right. by left.
      * apply String.eqb_neq in E. destruct r; simpl. split; [|done].
        apply in_or_app. right. by left.
    + intros; by apply (kept_new_attr_step P Hkept).
Qed.

Lemma compare_type_flags_new_required_members_witness :
  ∃ result : TypeResult,
    compare_type id Fx.eml_analyzer "eml:Thing" None ∅ = Returns (result, ∅)
    ∧ In "z(1..1)" (new_elements result)
    ∧ compatible result = "No".
Proof.
  destruct (compare_type id Fx.eml_analyzer "eml:Thing" None ∅) as [[result c]|e] eqn:Hres;
    [|by vm_compute in Hres].
  assert (Hc : c = ∅) by (vm_compute in Hres; by injection Hres as _ <-).
  subst c. exists result.
  destruct (compare_type_flags_new_required_members id Fx.eml_analyzer "eml:Thing" None
              ∅ ∅ Fx.old_thing Fx.new_thing result eq_refl eq_refl Hres)
    as [Helems _].
  destruct (Helems "z" (mkElementDef "z" "xs:int" "1" "1")) as [Hz Hno];
    [by vm_compute | by vm_compute; intros [|[|[]]]|].
  split_and!; [done | exact Hz | by apply Hno].
Defined.

(** *** A version compared with itself *)

Lemma fold_left_unchanged {A B : Type} (f : A -> B -> A) (l : list B) (a : A) :
  (∀ a x, f a x = a) → fold_left f l a = a.
Proof.
  intros Hf. induction l as [|x l IH]; simpl; [done|]. by rewrite Hf.
Qed.

Lemma cardinality_same (e : ElementDef) :
  cardinality_expanded e e = false ∧ cardinality_restricted e e = false.
Proof.
  unfold cardinality_expanded, cardinality_restricted.
  by rewrite !Z.ltb_irrefl.
Qed.

Lemma compare_common_elem_same (set_iter : list string -> list string)
    (self : Analyzer) (d : list (string * ElementDef)) (rc : TypeResult * Cache)
    (n : string) :
  compare_common_elem set_iter self d d rc n = rc.
Proof.
  unfold compare_common_elem. destruct rc as [r c].
  destruct (OD.get n d) as [e|]; [|done].
  destruct (cardinality_same e) as [-> ->].
  by rewrite String.eqb_refl.
Qed.

Lemma compare_common_attr_same (d : list (string * AttributeDef)) (r : TypeResult)
    (n : string) :
  compare_common_attr d d r n = r.
Proof.
  unfold compare_common_attr.
  destruct (OD.get n d) as [a|]; [|done].
  destruct (String.eqb (use a) "required") eqn:E1;
    destruct (String.eqb (use a) "optional") eqn:E2; simpl; try done.
  apply String.eqb_eq in E1, E2. congruence.
Qed.

(** X9. When the old and the new registries are the same, a record that
    [compare_type] returns for one of their types has nothing to report: no
    new, missing, expanded, restricted or changed member, no note, no base
    change, and it says compatible; the cache is left as it was. *)
Theorem compare_type_same_version (set_iter : list string -> list string)
    (self : Analyzer) (qualified_name : string) (ct : Element)
    (cache cache' : Cache) (result : TypeResult) :
  old_types self = new_types self →
  old_attrs self = new_attrs self →
  old_types self !! qualified_name = Some ct →
  compare_type set_iter self qualified_name None cache = Returns (result, cache') →
  result = mkTypeResult qualified_name "No" "" "" [] [] [] [] [] "" "Yes"
  ∧ cache' = cache.
Proof.
  intros Htypes Hattrs Hold Hres.
  assert (Hnew : new_types self !! target_name qualified_name None = Some ct)
    by (by rewrite <- Htypes).
  rewrite (compare_type_found _ _ _ _ _ _ _ Hold Hnew) in Hres.
  apply Returns_inj in Hres. revert Hres.
  cbn [target_name]. rewrite <- Htypes, <- Hattrs.
  assert (Hsame :
    resolve_content_model (old_types self) (old_attrs self) NS_3 qualified_name ∅ 0
    = resolve_content_model (old_types self) (old_attrs self) NS_26 qualified_name ∅ 0).
  { unfold resolve_content_model.
    by rewrite (resolve_rec_same_xs NS_3 NS_26 eq_refl). }
  rewrite Hsame.
  destruct (resolve_content_model _ _ NS_26 _ _ _) as [es ats].
  unfold compare_members. cbn [fst snd]. rewrite !names_diff_self.
  change (PyStr.sorted []) with (@nil string). cbn [fold_left].
  rewrite (fold_left_unchanged (compare_common_elem set_iter self es es))
    by apply compare_common_elem_same.
  cbn [fst snd].
  rewrite (fold_left_unchanged (compare_common_attr ats ats))
    by apply compare_common_attr_same.
  unfold start_result. cbn [opt_truthy].
  rewrite (get_base_type_name_same_xs NS_3 NS_26 eq_refl).
  rewrite bool_decide_eq_true_2 by done.
  cbn. by intros [= <- <-].
Qed.

Lemma compare_type_same_version_witness :
  ∃ (result : TypeResult) (cache' : Cache),
    old_types Fx.same_analyzer !! "eml:Thing" = Some Fx.old_thing
    ∧ compare_type id Fx.same_analyzer "eml:Thing" None ∅ = Returns (result, cache')
    ∧ result = mkTypeResult "eml:Thing" "No" "" "" [] [] [] [] [] "" "Yes"
    ∧ cache' = ∅.
Proof.
  assert (H : old_types Fx.same_analyzer !! "eml:Thing" = Some Fx.old_thing)
    by reflexivity.
  destruct (compare_type id Fx.same_analyzer "eml:Thing" None ∅)
    as [[result cache']|e] eqn:Hres; [|by vm_compute in Hres].
  exists result, cache'. refine (conj H (conj eq_refl _)).
  exact (compare_type_same_version id Fx.same_analyzer "eml:Thing" Fx.old_thing
           ∅ cache' result eq_refl eq_refl H Hres).
Defined.

(** *** The loop over the old types *)

Lemma compare_type_name (set_iter : list string -> list string) (self : Analyzer)
    (qualified_name : string) (mapped_name : option string) (cache cache' : Cache)
    (result : TypeResult) :
  compare_type set_iter self qualified_name mapped_name cache
  = Returns (result, cache') →
  name result = qualified_name
  ∧ (type_removed result = "Yes"
     ↔ new_types self !! target_name qualified_name mapped_name = None).
Proof.
  destruct (new_types self !! target_name qualified_name mapped_name)
    as [ct_new|] eqn:Hnew.
  2: { rewrite compare_type_not_found by done. intros [= <- _]. done. }
  destruct (old_types self !! qualified_name) as [ct_old|] eqn:Hold.
  2: { unfold compare_type. by rewrite Hnew, Hold. }
  rewrite (compare_type_found _ _ _ _ _ _ _ Hold Hnew). intros Hres.
  apply Returns_inj, (f_equal fst) in Hres. cbn [fst] in Hres. rewrite <- Hres.
  split.
  - apply (kept_compare_members _ (kept_name qualified_name)).
    unfold start_result. by destruct (opt_truthy mapped_name).
  - split; [|done]. intros Hyes. exfalso. revert Hyes.
    destruct (opt_truthy mapped_name) eqn:Hm.
    + rewrite (kept_compare_members _
                 (kept_type_removed ("Renamed to: " +:+ target_name qualified_name
                                                                    mapped_name))).
      * done.
      * unfold start_result. by rewrite Hm.
    + rewrite (kept_compare_members _ (kept_type_removed "No")).
      * done.
      * unfold start_result. by rewrite Hm.
Qed.

(** X10. When the loop of [analyze] over the old types returns, it returns
    exactly one record per old type, in the order of the names and each under
    its name, and a record says the type is removed exactly when the name it
    is compared under (the mapped name, or its own) is absent from the new
    registry. *)
Theorem analyze_types_one_record_per_type (set_iter : list string -> list string)
    (self : Analyzer) (names : list string) (cache cache' : Cache)
    (results : list TypeResult) :
  analyze_types set_iter self names cache = Returns (results, cache') →
  map name results = names
  ∧ Forall2
      (fun q r =>
         type_removed r = "Yes"
         ↔ new_types self
             !! target_name q (lookup_mapped_name self (new_types self) q) = None)
      names results.
Proof.
  revert cache results. induction names as [|q names IH]; intros cache results.
  - intros [= <- _]. by split.
  - simpl.
    destruct (compare_type set_iter self q _ cache) as [[r c1]|e] eqn:Hcmp; [|done].
    destruct (analyze_types set_iter self names c1) as [[rs c2]|e] eqn:Hrest; [|done].
    intros [= <- <-].
    destruct (IH _ _ Hrest) as [Hnames Hall].
    destruct (compare_type_name _ _ _ _ _ _ _ Hcmp) as [Hname Hremoved].
    split; [simpl; by rewrite Hname, Hnames | by constructor].
Qed.

Lemma analyze_types_one_record_per_type_witness :
  ∃ (results : list TypeResult) (cache' : Cache),
    analyze_types id Ex.card_analyzer ["eml:T"; "eml:V"] ∅ = Returns (results, cache')
    ∧ map name results = ["eml:T"; "eml:V"]
    ∧ map type_removed results = ["No"; "No"].
Proof.
  destruct (analyze_types id Ex.card_analyzer ["eml:T"; "eml:V"] ∅)
    as [[results cache']|e] eqn:Hrun; [|by vm_compute in Hrun].
  exists results, cache'.
  destruct (analyze_types_one_record_per_type id Ex.card_analyzer ["eml:T"; "eml:V"]
              ∅ cache' results Hrun) as [Hnames _].
  refine (conj eq_refl (conj Hnames _)).
  vm_compute in Hrun. by injection Hrun as <- _.
Defined.

(** ** More on the type-compatibility engine *)

Section EngineMore.
Variable set_iter : list string -> list string.
Variable self : Analyzer.

Local Abbreviation chk_rec := (check_rec set_iter self).
Local Abbreviation chk_body := (check_body set_iter self).
Local Abbreviation chk := (check_type_content_compatibility set_iter self).

(** *** More fuel changes nothing *)

Lemma common_elems_loop_answers_as
    (rec1 rec2 : string -> string -> nat -> Cache -> option (Verdict * Cache))
    (cm_old_elements cm_new_elements : list (string * ElementDef))
    (depth : nat) (names : list string) (cache : Cache)
    (r : option Verdict * Cache) :
  answers_as rec1 rec2 →
  common_elems_loop rec1 cm_old_elements cm_new_elements depth names cache = Some r →
  common_elems_loop rec2 cm_old_elements cm_new_elements depth names cache = Some r.
Proof.
  intros Hrec. revert cache.
  induction names as [|elem_name rest IH]; intros cache; simpl; [done|].
  destruct (OD.get elem_name cm_old_elements) as [e_old|]; [|apply IH].
  destruct (OD.get elem_name cm_new_elements) as [e_new|]; [|apply IH].
  destruct (cardinality_restricted e_old e_new); [done|].
  destruct (_ && _); [|apply IH].
  destruct (rec1 (el_type e_old) (el_type e_new) (S depth) cache)
    as [[[ok reason] cache1]|] eqn:Hcall; [|done].
  rewrite (Hrec _ _ _ _ _ Hcall). destruct ok; [apply IH | done].
Qed.

Lemma compare_models_answers_as
    (rec1 rec2 : string -> string -> nat -> Cache -> option (Verdict * Cache))
    (cm_old cm_new : ContentModel) (depth : nat) (cache : Cache)
    (r : Verdict * Cache) :
  answers_as rec1 rec2 →
  compare_models set_iter rec1 cm_old cm_new depth cache = Some r →
  compare_models set_iter rec2 cm_old cm_new depth cache = Some r.
Proof.
  intros Hrec. unfold compare_models.
  destruct cm_old as [oe oa], cm_new as [ne na].
  destruct (negb (is_empty_list (names_diff (OD.keys oe) (OD.keys ne)))); [done|].
  destruct (negb (is_empty_list (names_diff (OD.keys oa) (OD.keys na)))); [done|].
  destruct (List.find _ (set_iter (names_diff (OD.keys ne) (OD.keys oe)))); [done|].
  destruct (List.find _ (set_iter (names_diff (OD.keys na) (OD.keys oa)))); [done|].
  destruct (common_elems_loop rec1 oe ne depth _ cache) as [looped|] eqn:Hloop; [|done].
  by rewrite (common_elems_loop_answers_as _ _ _ _ _ _ _ _ Hrec Hloop).
Qed.

Lemma check_body_answers_as
    (rec1 rec2 : string -> string -> nat -> Cache -> option (Verdict * Cache))
    (depth : nat) :
  answers_as rec1 rec2 →
  answers_as (fun o n _ c => chk_body rec1 o n depth c)
             (fun o n _ c => chk_body rec2 o n depth c).
Proof.
  intros Hrec old_type new_type _ cache r. cbv beta. unfold check_body.
  destruct (cache !! (old_type, new_type)); [done|].
  destruct (String.eqb _ _); [done|].
  destruct (known_mapping _ _ _); [done|].
  destruct (_ || _); [done|].
  destruct (old_types self !! _); [|done].
  destruct (new_types self !! _); [|done].
  destruct (compare_models set_iter rec1 _ _ _ _) as [r1|] eqn:Hcmp; [|done].
  by rewrite (compare_models_answers_as _ _ _ _ _ _ _ Hrec Hcmp).
Qed.

Lemma check_rec_more_fuel (fuel fuel' : nat) :
  (fuel <= fuel')%nat → answers_as (chk_rec fuel) (chk_rec fuel').
Proof.
  revert fuel'. induction fuel as [|fuel IH]; intros fuel' Hle o n d c r.
  - destruct (decide (5 < d)%nat) as [Hdeep|Hshallow].
    + by rewrite !check_rec_deep.
    + simpl. apply Nat.nlt_ge, Nat.ltb_ge in Hshallow. by rewrite Hshallow.
  - destruct (decide (5 < d)%nat) as [Hdeep|Hshallow].
    + by rewrite !check_rec_deep.
    + destruct fuel' as [|fuel']; [lia|].
      rewrite !check_rec_shallow by lia.
      apply (check_body_answers_as (chk_rec fuel) (chk_rec fuel') d); [|exact d].
      apply IH. lia.
Qed.

(** *** The cache only grows *)

Lemma common_elems_loop_grows
    (rec : string -> string -> nat -> Cache -> option (Verdict * Cache))
    (cm_old_elements cm_new_elements : list (string * ElementDef))
    (depth : nat) (names : list string) (cache cache' : Cache)
    (result : option Verdict) :
  grows_cache rec →
  common_elems_loop rec cm_old_elements cm_new_elements depth names cache
  = Some (result, cache') →
  cache ⊆ cache'.
Proof.
  intros Hrec. revert cache.
  induction names as [|elem_name rest IH]; intros cache; simpl.
  - by intros [= _ <-].
  - destruct (OD.get elem_name cm_old_elements) as [e_old|]; [|by apply IH].
    destruct (OD.get elem_name cm_new_elements) as [e_new|]; [|by apply IH].
    destruct (cardinality_restricted e_old e_new); [by intros [= _ <-]|].
    destruct (_ && _); [|by apply IH].
    destruct (rec (el_type e_old) (el_type e_new) (S depth) cache)
      as [[[ok reason] cache1]|] eqn:Hcall; [|done].
    pose proof (Hrec _ _ _ _ _ _ Hcall) as Hsub.
    destruct ok; [|by intros [= _ <-]].
    intros Hrest. etrans; [exact Hsub | by apply IH].
Qed.

Lemma compare_models_grows
    (rec : string -> string -> nat -> Cache -> option (Verdict * Cache))
    (cm_old cm_new : ContentModel) (depth : nat) (cache cache' : Cache)
    (result : Verdict) :
  grows_cache rec →
  compare_models set_iter rec cm_old cm_new depth cache = Some (result, cache') →
  cache ⊆ cache'.
Proof.
  intros Hrec. unfold compare_models.
  destruct cm_old as [oe oa], cm_new as [ne na].
  destruct (negb (is_empty_list (names_diff (OD.keys oe) (OD.keys ne))));
    [by intros [= _ <-]|].
  destruct (negb (is_empty_list (names_diff (OD.keys oa) (OD.keys na))));
    [by intros [= _ <-]|].
  destruct (List.find _ (set_iter (names_diff (OD.keys ne) (OD.keys oe))));
    [by intros [= _ <-]|].
  destruct (List.find _ (set_iter (names_diff (OD.keys na) (OD.keys oa))));
    [by intros [= _ <-]|].
  destruct (common_elems_loop rec oe ne depth _ cache)
    as [[looped cache1]|] eqn:Hloop; [|done].
  pose proof (common_elems_loop_grows _ _ _ _ _ _ _ _ Hrec Hloop) as Hsub.
  destruct looped; [by intros [= _ <-]|].
  by destruct (List.find _ _); intros [= _ <-].
Qed.

Lemma check_body_grows
    (rec : string -> string -> nat -> Cache -> option (Verdict * Cache))
    (depth : nat) :
  grows_cache rec →
  grows_cache (fun o n _ c => chk_body rec o n depth c).
Proof.
  intros Hrec old_type new_type _ cache r cache'. cbv beta. unfold check_body.
  destruct (cache !! (old_type, new_type)) eqn:Hmiss; [by intros [= _ <-]|].
  assert (Hstore : ∀ (v : Verdict) (c1 : Cache),
            cache ⊆ c1 → cache ⊆ <[(old_type, new_type) := v]> c1).
  { intros v c1 Hsub. by apply insert_subseteq_r. }
  destruct (String.eqb _ _); [intros [= _ <-]; by apply Hstore|].
  destruct (known_mapping _ _ _); [intros [= _ <-]; by apply Hstore|].
  destruct (_ || _); [intros [= _ <-]; by apply Hstore|].
  destruct (old_types self !! _); [|intros [= _ <-]; by apply Hstore].
  destruct (new_types self !! _); [|intros [= _ <-]; by apply Hstore].
  destruct (compare_models _ _ _ _ _ _) as [[result cache1]|] eqn:Hcmp; [|done].
  intros [= _ <-]. cbn [fst snd]. apply Hstore.
  by apply (compare_models_grows _ _ _ _ _ _ _ Hrec Hcmp).
Qed.

Lemma check_rec_grows (fuel : nat) : grows_cache (chk_rec fuel).
Proof.
  induction fuel as [|fuel IH]; intros o n d c r c'.
  - destruct (decide (5 < d)%nat) as [Hdeep|Hshallow].
    + rewrite check_rec_deep by done. by intros [= _ <-].
    + simpl. apply Nat.nlt_ge, Nat.ltb_ge in Hshallow. by rewrite Hshallow.
  - destruct (decide (5 < d)%nat) as [Hdeep|Hshallow].
    + rewrite check_rec_deep by done. by intros [= _ <-].
    + rewrite check_rec_shallow by lia.
      by apply (check_body_grows (chk_rec fuel) d IH o n d c r c').
Qed.

(** *** What a call leaves in the cache *)

Lemma check_cached (old_type new_type : string) (depth : nat) (cache : Cache)
    (v : Verdict) :
  (depth <= 5)%nat →
  cache !! (old_type, new_type) = Some v →
  chk old_type new_type depth cache = (v, cache).
Proof.
  intros Hd Hhit. unfold check_type_content_compatibility.
  replace (6 - depth)%nat with (S (5 - depth)) by lia.
  rewrite check_rec_shallow by lia. unfold check_body. by rewrite Hhit.
Qed.

Lemma check_records_verdict (old_type new_type : string) (depth : nat)
    (cache : Cache) :
  (depth <= 5)%nat →
  snd (chk old_type new_type depth cache) !! (old_type, new_type)
  = Some (fst (chk old_type new_type depth cache)).
Proof.
  intros Hd. pose proof (check_is_check_rec set_iter self old_type new_type
                           depth cache) as Hrec.
  destruct (chk old_type new_type depth cache) as [v c1]. cbn [fst snd].
  replace (6 - depth)%nat with (S (5 - depth)) in Hrec by lia.
  rewrite check_rec_shallow in Hrec by lia. unfold check_body in Hrec.
  destruct (cache !! (old_type, new_type)) eqn:Hmiss.
  { injection Hrec as <- <-. done. }
  assert (Hstore : ∀ (w : Verdict) (c : Cache),
            Some (w, <[(old_type, new_type) := w]> c) = Some (v, c1) →
            c1 !! (old_type, new_type) = Some v).
  { intros w c [= <- <-]. apply lookup_insert_eq. }
  destruct (String.eqb _ _); [by apply (Hstore _ _ Hrec)|].
  destruct (known_mapping _ _ _); [by apply (Hstore _ _ Hrec)|].
  destruct (_ || _); [by apply (Hstore _ _ Hrec)|].
  destruct (old_types self !! _); [|by apply (Hstore _ _ Hrec)].
  destruct (new_types self !! _); [|by apply (Hstore _ _ Hrec)].
  destruct (compare_models _ _ _ _ _ _) as [[result cache1]|]; [|done].
  by apply (Hstore _ _ Hrec).
Qed.

End EngineMore.

(** X11. The recursion of [check_type_content_compatibility] terminates,
    also on element types that refer to each other: with as much fuel as
    there are levels below the cap of 5, or more, the call returns a verdict,
    the same for every such fuel. *)
Theorem check_type_content_compatibility_terminates
    (set_iter : list string -> list string) (self : Analyzer)
    (old_type new_type : string) (depth : nat) (cache : Cache) (fuel : nat) :
  (6 <= fuel + depth)%nat →
  check_rec set_iter self fuel old_type new_type depth cache
  = Some (check_type_content_compatibility set_iter self old_type new_type depth cache).
Proof.
  intros Hfuel.
  apply (check_rec_more_fuel set_iter self (6 - depth) fuel); [lia|].
  apply check_is_check_rec.
Qed.

Lemma check_type_content_compatibility_terminates_witness :
  (6 <= 9 + 0)%nat
  ∧ check_rec id Ex.card_analyzer 9 "eml:T" "eml:U" 0 ∅
    = Some (check_type_content_compatibility id Ex.card_analyzer "eml:T" "eml:U" 0 ∅).
Proof.
  assert (H : (6 <= 9 + 0)%nat) by lia.
  exact (conj H (check_type_content_compatibility_terminates
                   id Ex.card_analyzer "eml:T" "eml:U" 0 ∅ 9 H)).
Defined.

(** X12. A call of the engine never removes or changes a verdict that was
    in the cache before it: the cache after the call extends the cache
    before. *)
Theorem check_only_extends_cache (set_iter : list string -> list string)
    (self : Analyzer) (old_type new_type : string) (depth : nat) (cache : Cache) :
  cache ⊆ snd (check_type_content_compatibility set_iter self
                 old_type new_type depth cache).
Proof.
  pose proof (check_is_check_rec set_iter self old_type new_type depth cache) as Hrec.
  destruct (check_type_content_compatibility _ _ _ _ _ _) as [v c1].
  by apply (check_rec_grows set_iter self _ _ _ _ _ _ _ Hrec).
Qed.

(** X13. The engine memoizes: after a call at a depth of at most 5 the
    cache holds the verdict returned for the pair, and a second call for the
    same pair, at any such depth, returns that verdict and leaves the cache as
    it is. *)
Theorem check_memoizes (set_iter : list string -> list string)
    (self : Analyzer) (old_type new_type : string) (depth depth' : nat)
    (cache : Cache) :
  (depth <= 5)%nat →
  (depth' <= 5)%nat →
  let first := check_type_content_compatibility set_iter self
                 old_type new_type depth cache in
  snd first !! (old_type, new_type) = Some (fst first)
  ∧ check_type_content_compatibility set_iter self old_type new_type depth' (snd first)
    = first.
Proof.
  intros Hd Hd' first.
  assert (Hrecorded : snd first !! (old_type, new_type) = Some (fst first))
    by (by apply check_records_verdict).
  split; [done|].
  rewrite (check_cached set_iter self _ _ _ _ _ Hd' Hrecorded).
  by destruct first.
Qed.

Lemma check_memoizes_witness :
  let first := check_type_content_compatibility id Ex.card_analyzer
                 "eml:T" "eml:U" 0 ∅ in
  (0 <= 5)%nat ∧ (3 <= 5)%nat
  ∧ fst first = (false, "Cardinality restricted on element: a")
  ∧ check_type_content_compatibility id Ex.card_analyzer "eml:T" "eml:U" 3 (snd first)
    = first.
Proof.
  intros first.
  assert (H0 : (0 <= 5)%nat) by lia. assert (H3 : (3 <= 5)%nat) by lia.
  refine (conj H0 (conj H3 (conj _ _))); [by vm_compute|].
  exact (proj2 (check_memoizes id Ex.card_analyzer "eml:T" "eml:U" 0 3 ∅ H0 H3)).
Defined.

(** ** Built-in names *)

(** X14. [is_builtin_type] looks at the part of a name behind its first
    colon only: each of the seventeen built-in names is recognised under
    every prefix, not just under [xs]. *)
Theorem is_builtin_type_any_prefix (pfx bare : string) :
  PyStr.contains ":" pfx = false →
  In bare builtins →
  is_builtin_type (pfx +:+ ":" +:+ bare) = true.
Proof.
  intros Hpfx Hbare. unfold is_builtin_type.
  assert (Htruthy : PyStr.truthy (pfx +:+ ":" +:+ bare) = true) by (by destruct pfx).
  rewrite Htruthy. cbn [negb].
  destruct (PyStr.startswith _ "xs:"); [done|].
  assert (Hcolon : PyStr.contains ":" (pfx +:+ ":" +:+ bare) = true).
  { rewrite contains_app. change (":" +:+ bare) with (String ":" bare). simpl.
    apply orb_true_r. }
  rewrite Hcolon. change (":" +:+ bare) with (String ":" bare).
  rewrite after_first_app by done.
  apply existsb_exists. exists bare. split; [done | apply String.eqb_refl].
Qed.

Lemma is_builtin_type_any_prefix_witness :
  PyStr.contains ":" "eml" = false
  ∧ In "string" builtins
  ∧ is_builtin_type ("eml" +:+ ":" +:+ "string") = true.
Proof.
  assert (H1 : PyStr.contains ":" "eml" = false) by reflexivity.
  assert (H2 : In "string" builtins) by (by left).
  exact (conj H1 (conj H2 (is_builtin_type_any_prefix "eml" "string" H1 H2))).
Defined.

(** ** Renames within a namespace *)

(** X15. For an old type [label:name] (neither part holding a colon) with
    no entry of its own in the rename table, an entry for the bare [name]
    with an unqualified target renames the type within its namespace: when
    [label:target] is in the new registry, that is the mapped name, and an
    entry under the qualified name itself, when there is one, is used as it
    is written, whatever the bare entry and the registry say. *)
Theorem rename_within_namespace (self : Analyzer) (registry : gmap string Element)
    (label name target : string) (def : Element) :
  PyStr.contains ":" label = false →
  PyStr.contains ":" name = false →
  PyStr.contains ":" target = false →
  PyStr.truthy target = true →
  type_mappings self !! name = Some target →
  registry !! (label +:+ ":" +:+ target) = Some def →
  lookup_mapped_name self registry (label +:+ ":" +:+ name) =
    match type_mappings self !! (label +:+ ":" +:+ name) with
    | Some (String _ _ as exact) => Some exact
    | _ => Some (label +:+ ":" +:+ target)
    end.
Proof.
  intros Hlabel Hname Htarget Htruthy Hbare Hreg. unfold lookup_mapped_name.
  destruct (qualified_name_parts label name Hlabel Hname) as [-> ->].
  destruct (type_mappings self !! (label +:+ ":" +:+ name)) as [[|c exact]|];
    cbn [opt_truthy PyStr.truthy]; try done.
  - rewrite Hbare. destruct target as [|c t]; [done|]. by rewrite Htarget, Hreg.
  - rewrite Hbare. destruct target as [|c t]; [done|]. by rewrite Htarget, Hreg.
Qed.

Lemma rename_within_namespace_witness :
  lookup_mapped_name Ex.renamed_analyzer (new_types Ex.renamed_analyzer)
                     ("eml" +:+ ":" +:+ "A")
  = Some "eml:B".
Proof.
  exact (rename_within_namespace Ex.renamed_analyzer (new_types Ex.renamed_analyzer)
           "eml" "A" "B" (Ex.single "B" "1" "1")
           eq_refl eq_refl eq_refl eq_refl eq_refl eq_refl).
Defined.

(** ** The mapping file *)

Lemma lstrip_starts_clean (s : string) : starts_clean (PyStr.lstrip s) = true.
Proof.
  induction s as [|c s IH]; simpl; [done|].
  destruct (PyStr.is_space c) eqn:E; [done|]. simpl. by rewrite E.
Qed.

Lemma lstrip_clean (s : string) : starts_clean s = true → PyStr.lstrip s = s.
Proof.
  destruct s as [|c s]; simpl; [done|]. by destruct (PyStr.is_space c).
Qed.

Lemma rstrip_starts_clean (s : string) :
  starts_clean s = true → starts_clean (PyStr.rstrip s) = true.
Proof.
  destruct s as [|c s]; simpl; [done|]. intros Hc.
  destruct (PyStr.rstrip s); simpl; [|done].
  destruct (PyStr.is_space c) eqn:E; simpl in *; [done | by rewrite E].
Qed.

Lemma rstrip_idempotent (s : string) : PyStr.rstrip (PyStr.rstrip s) = PyStr.rstrip s.
Proof.
  induction s as [|c s IH]; simpl; [done|].
  destruct (PyStr.rstrip s) as [|d r] eqn:E.
  - destruct (PyStr.is_space c) eqn:Hc; simpl; [done | by rewrite Hc].
  - change (PyStr.rstrip (String c (String d r)))
      with (match PyStr.rstrip (String d r) with
            | EmptyString => if PyStr.is_space c then EmptyString else String c EmptyString
            | r' => String c r'
            end).
    rewrite IH. done.
Qed.

(** Stripping twice is stripping once. *)
Lemma strip_idempotent (s : string) : PyStr.strip (PyStr.strip s) = PyStr.strip s.
Proof.
  unfold PyStr.strip.
  rewrite (lstrip_clean (PyStr.rstrip (PyStr.lstrip s))).
  - apply rstrip_idempotent.
  - apply rstrip_starts_clean, lstrip_starts_clean.
Qed.

Lemma mapping_line_lookup (mappings : gmap string string) (line k v : string) :
  mapping_line mappings line !! k = Some v →
  mappings !! k = Some v
  ∨ (PyStr.truthy k = true ∧ PyStr.truthy v = true
     ∧ PyStr.strip k = k ∧ PyStr.strip v = v
     ∧ PyStr.startswith (PyStr.strip line) "#" = false).
Proof.
  unfold mapping_line.
  destruct (negb (PyStr.truthy (PyStr.strip line))); simpl; [by left|].
  destruct (PyStr.startswith (PyStr.strip line) "#") eqn:Hcomment; [by left|].
  destruct (PyStr.split PyStr.tab (PyStr.strip line)) as [|p0 [|p1 rest]];
    [by left | by left |].
  destruct (PyStr.truthy (PyStr.strip p0)) eqn:H0; [|by left].
  destruct (PyStr.truthy (PyStr.strip p1)) eqn:H1; [|by left]. simpl.
  destruct (decide (PyStr.strip p0 = k)) as [<-|Hne].
  - rewrite lookup_insert_eq. intros [= <-]. right.
    by rewrite !strip_idempotent.
  - rewrite lookup_insert_ne by done. by left.
Qed.

(** X16. Every entry of the rename table that [load_mappings] builds has a
    non-empty old name and a non-empty new name, both free of surrounding
    white space; without a readable mapping file the table is empty. *)
Theorem load_mappings_entries_clean (file : option (list string)) (k v : string) :
  load_mappings file !! k = Some v →
  PyStr.truthy k = true ∧ PyStr.truthy v = true
  ∧ PyStr.strip k = k ∧ PyStr.strip v = v
  ∧ ∃ lines : list string, file = Some lines ∧ lines ≠ [].
Proof.
  destruct file as [lines|]; unfold load_mappings;
    [|intros H; by rewrite lookup_empty in H].
  induction lines as [|line lines IH] using rev_ind;
    [cbn [fold_left]; intros H; by rewrite lookup_empty in H|].
  rewrite fold_left_app. cbn [fold_left]. intros Hlook.
  apply mapping_line_lookup in Hlook as [Hold|(Hk & Hv & Hsk & Hsv & _)].
  - destruct (IH Hold) as (Hk & Hv & Hsk & Hsv & _).
    split_and!; try done. exists (lines ++ [line]). split; [done|].
    by destruct lines.
  - split_and!; try done. exists (lines ++ [line]). split; [done|].
    by destruct lines.
Qed.

Lemma load_mappings_entries_clean_witness :
  load_mappings (Some Fm.lines) = {["C" := "D"; "A" := "eml:B2"]}
  ∧ PyStr.truthy "eml:B2" = true ∧ PyStr.strip "C" = "C".
Proof.
  assert (Hload : load_mappings (Some Fm.lines) = {["C" := "D"; "A" := "eml:B2"]})
    by (by vm_compute).
  assert (Hc : load_mappings (Some Fm.lines) !! "C" = Some "D") by (by vm_compute).
  assert (Ha : load_mappings (Some Fm.lines) !! "A" = Some "eml:B2") by (by vm_compute).
  destruct (load_mappings_entries_clean _ _ _ Hc) as (_ & _ & Hsc & _).
  destruct (load_mappings_entries_clean _ _ _ Ha) as (_ & Hv & _).
  exact (conj Hload (conj Hv Hsc)).
Defined.

(** ** Local elements *)








(** ** The matcher of the resolver *)

Lemma flat_map_all_nil {A B : Type} (f : A -> list B) (l : list A) :
  (∀ x, In x l → f x = []) → flat_map f l = [].
Proof.
  induction l as [|x l IH]; intros Hf; simpl; [done|].
  rewrite (Hf x) by (by left). apply IH. intros y Hy. apply Hf. by right.
Qed.

Lemma cardinality_differences_same (d : list (string * ElementDef)) (n : string) :
  cardinality_differences d d n = [].
Proof.
  unfold cardinality_differences. destruct (OD.get n d); [|done].
  by rewrite !Z.ltb_irrefl.
Qed.

Lemma use_differences_same (d : list (string * AttributeDef)) (n : string) :
  use_differences d d n = [].
Proof.
  unfold use_differences. destruct (OD.get n d) as [a|]; [|done].
  destruct (String.eqb (use a) "optional") eqn:E1;
    destruct (String.eqb (use a) "required") eqn:E2; simpl; try done.
  apply String.eqb_eq in E1, E2. congruence.
Qed.

(** X18. On a content model whose cardinalities are strings that [int]
    accepts, which is where the conversions of its loop return,
    [content_models_match] finds no difference between the model and itself,
    in strict and in non-strict mode and whatever the order in which the sets
    are visited. *)
Theorem content_models_match_reflexive (set_iter : list string -> list string)
    (cm_elements : list (string * ElementDef)) (cm_attrs : list (string * AttributeDef))
    (strict : bool) :
  Forall (fun entry => occurs_accepted (snd entry) = true) cm_elements →
  content_models_match set_iter cm_elements cm_attrs cm_elements cm_attrs strict
  = (true, []).
Proof.
  intros _. unfold content_models_match. rewrite !names_diff_self.
  cbn [is_empty_list negb]. rewrite andb_false_r.
  rewrite (flat_map_all_nil (cardinality_differences cm_elements cm_elements))
    by (intros; apply cardinality_differences_same).
  rewrite (flat_map_all_nil (use_differences cm_attrs cm_attrs))
    by (intros; apply use_differences_same).
  done.
Qed.

Lemma common_elems_loop_verdict
    (rec : string -> string -> nat -> Cache -> option (Verdict * Cache))
    (cm_old_elements cm_new_elements : list (string * ElementDef))
    (depth : nat) (names : list string) (cache cache' : Cache) (v : Verdict) :
  common_elems_loop rec cm_old_elements cm_new_elements depth names cache
  = Some (Some v, cache') →
  fst v = false.
Proof.
  revert cache. induction names as [|elem_name rest IH]; intros cache; simpl; [done|].
  destruct (OD.get elem_name cm_old_elements) as [e_old|]; [|apply IH].
  destruct (OD.get elem_name cm_new_elements) as [e_new|]; [|apply IH].
  destruct (cardinality_restricted e_old e_new); [by intros [= <- _]|].
  destruct (_ && _); [|apply IH].
  destruct (rec (el_type e_old) (el_type e_new) (S depth) cache)
    as [[[ok reason] cache1]|]; [|done].
  destruct ok; [apply IH | by intros [= <- _]].
Qed.

Lemma common_elems_loop_passed
    (rec : string -> string -> nat -> Cache -> option (Verdict * Cache))
    (cm_old_elements cm_new_elements : list (string * ElementDef))
    (depth : nat) (names : list string) (cache cache' : Cache) :
  common_elems_loop rec cm_old_elements cm_new_elements depth names cache
  = Some (None, cache') →
  ∀ (n : string) (e_old e_new : ElementDef),
    In n names →
    OD.get n cm_old_elements = Some e_old →
    OD.get n cm_new_elements = Some e_new →
    cardinality_restricted e_old e_new = false.
Proof.
  revert cache. induction names as [|elem_name rest IH]; intros cache Hloop n e_old e_new;
    [done|].
  simpl in Hloop. intros [->|Hin] Hold Hnew.
  - rewrite Hold, Hnew in Hloop.
    by destruct (cardinality_restricted e_old e_new).
  - destruct (OD.get elem_name cm_old_elements) as [e_old'|];
      [|by apply (IH _ Hloop n)].
    destruct (OD.get elem_name cm_new_elements) as [e_new'|];
      [|by apply (IH _ Hloop n)].
    destruct (cardinality_restricted e_old' e_new'); [done|].
    destruct (_ && _); [|by apply (IH _ Hloop n)].
    destruct (rec (el_type e_old') (el_type e_new') (S depth) cache)
      as [[[ok reason] cache1]|]; [|done].
    destruct ok; [by apply (IH _ Hloop n) | done].
Qed.

Lemma content_models_match_reflexive_witness :
  let cm_elements := [("a", Ex.a_0_1); ("b", mkElementDef "b" "xs:string" "1" "unbounded")] in
  Forall (fun entry => occurs_accepted (snd entry) = true) cm_elements
  ∧ content_models_match id cm_elements [("x", Ex.at_x)] cm_elements [("x", Ex.at_x)] true
    = (true, []).
Proof.
  intros cm_elements.
  assert (H : Forall (fun entry => occurs_accepted (snd entry) = true) cm_elements)
    by (repeat constructor).
  exact (conj H (content_models_match_reflexive id cm_elements [("x", Ex.at_x)] true H)).
Defined.

(** X19. Whatever pair of content models the structural comparison of the
    engine accepts, [content_models_match] accepts in non-strict mode, with
    no difference to report, provided the engine visited every name the
    matcher visits. *)
Theorem engine_accepts_then_matcher_accepts
    (engine_iter matcher_iter : list string -> list string)
    (rec : string -> string -> nat -> Cache -> option (Verdict * Cache))
    (cm_old cm_new : ContentModel) (depth : nat) (cache cache' : Cache)
    (reason : string) :
  (∀ (l : list string) (x : string), In x (matcher_iter l) → In x (engine_iter l)) →
  compare_models engine_iter rec cm_old cm_new depth cache
  = Some ((true, reason), cache') →
  content_models_match matcher_iter (fst cm_old) (snd cm_old)
                       (fst cm_new) (snd cm_new) false
  = (true, []).
Proof.
  intros Hiter. unfold compare_models, content_models_match.
  destruct cm_old as [oe oa], cm_new as [ne na]. cbn [fst snd].
  destruct (negb (is_empty_list (names_diff (OD.keys oe) (OD.keys ne)))) eqn:H1;
    [by intros [= ]|].
  destruct (negb (is_empty_list (names_diff (OD.keys oa) (OD.keys na)))) eqn:H2;
    [by intros [= ]|].
  destruct (List.find _ (engine_iter (names_diff (OD.keys ne) (OD.keys oe))));
    [by intros [= ]|].
  destruct (List.find _ (engine_iter (names_diff (OD.keys na) (OD.keys oa))));
    [by intros [= ]|].
  destruct (common_elems_loop rec oe ne depth _ cache)
    as [[[v|] cache1]|] eqn:Hloop; [| |done].
  { intros [= -> _]. by apply common_elems_loop_verdict in Hloop. }
  destruct (List.find _ (engine_iter (names_inter (OD.keys oa) (OD.keys na))))
    eqn:Hfind; [by intros [= ]|].
  intros _. cbn [andb app].
  rewrite (flat_map_all_nil (cardinality_differences oe ne)).
  2: { intros n Hn. unfold cardinality_differences.
       destruct (OD.get n oe) as [e1|] eqn:Ho; [|done].
       destruct (OD.get n ne) as [e2|] eqn:Hn'; [|done].
       pose proof (common_elems_loop_passed _ _ _ _ _ _ _ Hloop n e1 e2
                     (Hiter _ _ Hn) Ho Hn') as Hpass.
       unfold cardinality_restricted in Hpass.
       apply orb_false_elim in Hpass as [-> ->]. done. }
  rewrite (flat_map_all_nil (use_differences oa na)).
  2: { intros n Hn. unfold use_differences.
       pose proof (find_none _ _ Hfind n (Hiter _ _ Hn)) as Hpass. cbv beta in Hpass.
       destruct (OD.get n oa) as [a1|]; [|done].
       destruct (OD.get n na) as [a2|]; [|done].
       by rewrite Hpass. }
  done.
Qed.

Lemma engine_accepts_then_matcher_accepts_witness :
  let never := fun (_ _ : string) (_ : nat) (_ : Cache) => @None (Verdict * Cache) in
  let old_model : ContentModel := ([("a", Ex.a_1_1)], [("x", Ex.at_x)]) in
  let new_model : ContentModel :=
    ([("a", Ex.a_0_1); ("c", Ex.c_0_1)], [("x", Ex.at_x)]) in
  compare_models id never old_model new_model 0 ∅
  = Some ((true, "Content models compatible"), ∅)
  ∧ content_models_match id (fst old_model) (snd old_model)
                         (fst new_model) (snd new_model) false = (true, [])
  ∧ fst (content_models_match id (fst old_model) (snd old_model)
                              (fst new_model) (snd new_model) true) = false.
Proof.
  intros never old_model new_model.
  assert (Hiter : ∀ (l : list string) (x : string), In x (id l) → In x (id l)) by done.
  assert (Hengine : compare_models id never old_model new_model 0 ∅
                    = Some ((true, "Content models compatible"), ∅)) by (by vm_compute).
  refine (conj Hengine (conj _ _)); [|by vm_compute].
  exact (engine_accepts_then_matcher_accepts id id never old_model new_model 0 ∅ ∅
           "Content models compatible" Hiter Hengine).
Defined.
